(** * A shallow embedding of the Java serialization stream decoder

    The decoder of [src/parser.ts] is a recursive-descent parser written as a
    class whose methods share a cursor, a handle table and the objects they
    build.  The embedding keeps that shape: one record for the parser
    instance, a heap for the JavaScript objects the methods allocate and
    later complete, and a small state-and-exception monad in which every
    method is transcribed statement by statement. *)

From Stdlib Require Import ZArith List Lia.
From Stdlib.Strings Require Import String Ascii Byte.
From stdpp Require Import base list gmap.

Local Open Scope Z_scope.

(** ** Values *)

(** A JavaScript string is a sequence of UTF-16 code units. *)
Abbreviation jsstring := (list Z).

Definition js (s : string) : jsstring :=
  map (fun c => Z.of_nat (nat_of_ascii c)) (list_ascii_of_string s).

(** Objects live in a heap and are referred to by address, because the
    parser publishes an object in the handle table first and fills it in
    afterwards. *)
Abbreviation addr := nat.

Inductive Value : Type :=
| VUndefined
| VNull
| VBool (b : bool)
| VNumber (n : Z)
| VFloat (bits : Z)            (* readFloatBE: the four bytes read *)
| VDouble (bits : Z)           (* readDoubleBE: the eight bytes read *)
| VLong (low high : Z)         (* Long.fromBits(low, high) *)
| VString (s : jsstring)
| VBuffer (bytes : list byte)  (* buf.slice(...) *)
| VEndBlock                    (* the [endBlock] singleton *)
| VRef (a : addr).

(** [if (v)]: JavaScript truthiness.  Floats are kept as raw bits; a
    float is falsy when it is a zero or a NaN. *)
Definition truthy (v : Value) : bool :=
  match v with
  | VUndefined | VNull => false
  | VBool b => b
  | VNumber n => negb (n =? 0)
  | VFloat b =>
      negb ((Z.land b 0x7fffffff =? 0) || (0x7f800000 <? Z.land b 0x7fffffff))
  | VDouble b =>
      negb ((Z.land b 0x7fffffffffffffff =? 0)
            || (0x7ff0000000000000 <? Z.land b 0x7fffffffffffffff))
  | VString s => negb (Nat.eqb (length s) 0)
  | VLong _ _ | VBuffer _ | VEndBlock | VRef _ => true
  end.

(** ** Descriptors *)

Module FieldDesc.
Record t : Type := mk {
  type : jsstring;
  name : jsstring;
  className : Value   (* [VUndefined] unless the type is L or [ *)
}.
End FieldDesc.

(** A class descriptor is shared through the handle table as soon as its
    name and serialVersionUID are read; the remaining properties are
    [undefined] until the parser assigns them. *)
Module ClassDesc.
Record t : Type := mk {
  name : jsstring;
  serialVersionUID : jsstring;
  flags : option Z;
  isEnum : option bool;
  fields : option (list FieldDesc.t);
  annotations : Value;
  super : Value
}.
Definition with_flags (c : t) (f : Z) : t :=
  mk (name c) (serialVersionUID c) (Some f) (isEnum c) (fields c) (annotations c) (super c).
Definition with_isEnum (c : t) (b : bool) : t :=
  mk (name c) (serialVersionUID c) (flags c) (Some b) (fields c) (annotations c) (super c).
Definition with_fields (c : t) (l : list FieldDesc.t) : t :=
  mk (name c) (serialVersionUID c) (flags c) (isEnum c) (Some l) (annotations c) (super c).
Definition with_annotations (c : t) (v : Value) : t :=
  mk (name c) (serialVersionUID c) (flags c) (isEnum c) (fields c) v (super c).
Definition with_super (c : t) (v : Value) : t :=
  mk (name c) (serialVersionUID c) (flags c) (isEnum c) (fields c) (annotations c) v.
End ClassDesc.

(** The result of [classdata]: a plain object used as a map from field
    names to values. *)
Abbreviation Group := (gmap (list Z) Value).

(** [class] and [extends] are the two properties installed by
    [Object.defineProperties]; [props] are the ordinary (flattened)
    properties assigned by [obj[name] = ...]. *)
Module ObjectDesc.
Record t : Type := mk {
  class : Value;
  extends : gmap (list Z) (gmap (list Z) Value);
  props : gmap (list Z) Value
}.
End ObjectDesc.

Module ArrayDesc.
Record t : Type := mk {
  class : Value;
  items : list Value
}.
End ArrayDesc.

(** [new String(constant)] with its [class] property; the wrapper's text
    is the string conversion of [constant], which the embedding keeps as
    the value it was made from. *)
Module EnumDesc.
Record t : Type := mk {
  constant : Value;
  class : Value
}.
End EnumDesc.

Inductive Obj : Type :=
| OClassDesc (c : ClassDesc.t)
| OObjectDesc (o : ObjectDesc.t)
| OArrayDesc (a : ArrayDesc.t)
| OEnum (e : EnumDesc.t)
| OArray (items : list Value).   (* a plain array: an annotation block *)

(** ** The parser instance *)

(** The fields of the class, and the heap of the objects created so far.
    [magic] and [version], which the constructor overwrites with the
    numbers read, are not kept. *)

Record Parser : Type := mkParser {
  buf : list byte;
  pos : Z;
  nextHandle : Z;
  handles : gmap Z Value;
  contents : list Value;
  heap : list Obj
}.

Definition set_pos (p : Parser) (x : Z) : Parser :=
  mkParser (buf p) x (nextHandle p) (handles p) (contents p) (heap p).
Definition set_nextHandle (p : Parser) (x : Z) : Parser :=
  mkParser (buf p) (pos p) x (handles p) (contents p) (heap p).
Definition set_handles (p : Parser) (x : gmap Z Value) : Parser :=
  mkParser (buf p) (pos p) (nextHandle p) x (contents p) (heap p).
Definition set_contents (p : Parser) (x : list Value) : Parser :=
  mkParser (buf p) (pos p) (nextHandle p) (handles p) x (heap p).
Definition set_heap (p : Parser) (x : list Obj) : Parser :=
  mkParser (buf p) (pos p) (nextHandle p) (handles p) (contents p) x.

(** ** Errors and the parser monad *)

(** One constructor per [throw] of the source, plus the two built-in
    errors the code can provoke. *)
Inductive Error : Type :=
| PrematureEnd (at_pos : Z)           (* "Premature end of input" *)
| MagicNotFound                       (* "STREAM_MAGIC not found" *)
| BadVersion                          (* "Only understand protocol version 5" *)
| UnknownType (code : Z)              (* "Don't know about type 0x.." *)
| NotAllowed (name : option string)   (* name + " not allowed here" *)
| NoHandler (name : option string)    (* "Don't know how to handle " + name *)
| StringTooLong                       (* "Can't handle more than 2^32 bytes in a string" *)
| ExternalV1                          (* "Can't parse version 1 external content" *)
| UnknownFlags (flags : Z)            (* "Don't know how to deserialize class with flags 0x.." *)
| UnknownFieldType (type : jsstring)  (* "Don't know how to read field of type '..'" *)
| TypeError                           (* property access on null or undefined, write to a read-only property *)
| RangeError.                         (* "Invalid array length", offset out of range *)

(** [Unmodelled] marks where JavaScript's dynamic behaviour leaves the
    typed embedding: a handle value that is not a class descriptor used as
    one (a back-reference can put any handle value at a class-descriptor
    position, and JavaScript would look its properties up dynamically), and
    a property named [__proto__], whose assignment changes the prototype.
    It also fills the branch of a load of the activation's own cell for a
    cell of another kind, which does not occur.
    [OutOfFuel] is the embedding's bound on recursion depth and loop
    iterations; JavaScript's own bound, the call stack, is not modelled. *)
Inductive Outcome (A : Type) : Type :=
| Ok (a : A) (p : Parser)
| Throw (e : Error)
| Unmodelled
| OutOfFuel.
Arguments Ok {A} a p.
Arguments Throw {A} e.
Arguments Unmodelled {A}.
Arguments OutOfFuel {A}.

Definition M (A : Type) : Type := Parser -> Outcome A.

Definition ret {A} (a : A) : M A := fun p => Ok a p.

Definition bind {A B} (m : M A) (k : A -> M B) : M B :=
  fun p =>
    match m p with
    | Ok a p' => k a p'
    | Throw e => Throw e
    | Unmodelled => Unmodelled
    | OutOfFuel => OutOfFuel
    end.

Definition throw {A} (e : Error) : M A := fun _ => Throw e.
Definition unmodelled {A} : M A := fun _ => Unmodelled.
Definition outOfFuel {A} : M A := fun _ => OutOfFuel.
Definition this : M Parser := fun p => Ok p p.

Notation "'let*' x ':=' m 'in' k" := (bind m (fun x => k))
  (at level 10, x name, m at level 100, k at level 200).
Notation "m ';;;' k" := (bind m (fun _ => k))
  (at level 100, k at level 200, right associativity).

(** ** Heap primitives *)

Definition alloc (o : Obj) : M addr :=
  fun p => Ok (length (heap p)) (set_heap p (heap p ++ [o])).

Definition store (a : addr) (o : Obj) : M unit :=
  fun p => Ok tt (set_heap p (<[a := o]> (heap p))).

Definition load (a : addr) : M (option Obj) :=
  fun p => Ok (heap p !! a) p.

Definition loadClass (a : addr) : M ClassDesc.t :=
  let* o := load a in
  match o with
  | Some (OClassDesc c) => ret c
  | _ => unmodelled
  end.

(** [res.x = v] on the class descriptor under construction. *)
Definition setClass (a : addr) (f : ClassDesc.t -> ClassDesc.t) : M unit :=
  let* c := loadClass a in store a (OClassDesc (f c)).

Definition loadObject (a : addr) : M ObjectDesc.t :=
  let* o := load a in
  match o with
  | Some (OObjectDesc d) => ret d
  | _ => unmodelled
  end.

Definition loadArrayDesc (a : addr) : M ArrayDesc.t :=
  let* o := load a in
  match o with
  | Some (OArrayDesc d) => ret d
  | _ => unmodelled
  end.

(** [cls.x] where [cls] came from a class-descriptor position: a
    [TypeError] on [null] and [undefined], the descriptor when it is one. *)
Definition getClass (cls : Value) : M ClassDesc.t :=
  match cls with
  | VNull | VUndefined => throw TypeError
  | VRef a => loadClass a
  | _ => unmodelled
  end.

(** [o[key] = v] on a plain object used as a map. *)
Definition put {A} (key : jsstring) (v : A) (m : gmap (list Z) A) : M (gmap (list Z) A) :=
  if decide (key = js "__proto__") then unmodelled else ret (<[key := v]> m).

(** [new String(constant)] converts [constant] to a string.  For an
    object this calls its [toString]: the inherited one for a class
    descriptor, the sentinel, a buffer and an enum constant; for an object
    descriptor too, unless a field named "toString" was copied onto it:
    its value is no function, [valueOf] does not yield a primitive either,
    and the conversion throws a [TypeError].  An array is joined from the
    conversions of its elements; only arrays that hold no objects are
    covered. *)
Definition inlineValue (v : Value) : bool :=
  match v with
  | VRef _ => false
  | _ => true
  end.

Definition newString (constant : Value) : M unit :=
  match constant with
  | VRef a =>
      let* o := load a in
      match o with
      | Some (OObjectDesc d) =>
          if bool_decide (is_Some (ObjectDesc.props d !! js "toString")) then throw TypeError
          else ret tt
      | Some (OClassDesc _) | Some (OEnum _) => ret tt
      | Some (OArrayDesc d) =>
          if forallb inlineValue (ArrayDesc.items d) then ret tt else unmodelled
      | Some (OArray items) =>
          if forallb inlineValue items then ret tt else unmodelled
      | None => unmodelled
      end
  | _ => ret tt
  end.

(** ** The byte cursor *)

Definition byteZ (b : byte) : Z := Z.of_N (Byte.to_N b).

Definition buf_length (p : Parser) : Z := Z.of_nat (length (buf p)).

(** [buf.slice(start, end)] for [0 <= start]: both ends are clamped to the
    buffer. *)
Definition slice (b : list byte) (start stop : Z) : list byte :=
  take (Z.to_nat (stop - start)) (drop (Z.to_nat start) b).

Definition unsignedBE (l : list byte) : Z :=
  fold_left (fun acc x => Z.lor (Z.shiftl acc 8) (byteZ x)) l 0.

Definition toSigned (bits : Z) (x : Z) : Z :=
  if x <? 2 ^ (bits - 1) then x else x - 2 ^ bits.

(** [buf.readUIntBE(offset, n)]: Node raises a [RangeError] when the
    [n] bytes are not all inside the buffer. *)
Definition readAt (n : nat) (offset : Z) : M Z :=
  let* p := this in
  let l := slice (buf p) offset (offset + Z.of_nat n) in
  if (0 <=? offset) && Nat.eqb (length l) n then ret (unsignedBE l) else throw RangeError.

Definition step (len : Z) : M Z :=
  fun p =>
    let pos0 := pos p in
    let p' := set_pos p (pos p + len) in
    if buf_length p' <? pos p' then Throw (PrematureEnd (pos p')) else Ok pos0 p'.

Definition hexDigit (n : Z) : Z :=
  if n <? 10 then 48 + n else 87 + n.

Definition hex (l : list byte) : jsstring :=
  flat_map (fun b => [hexDigit (Z.shiftr (byteZ b) 4); hexDigit (Z.land (byteZ b) 15)]) l.

(** [chunk(len, encoding)], with the encoding given as the function that
    [buf.toString] applies to the bytes. *)
Definition chunk (len : Z) (encoding : list byte -> jsstring) : M jsstring :=
  let* pos0 := step len in
  let* p := this in
  ret (encoding (slice (buf p) pos0 (pos p))).

Definition readUInt8 : M Z := let* o := step 1 in readAt 1 o.
Definition readInt8 : M Z := let* o := step 1 in let* x := readAt 1 o in ret (toSigned 8 x).
Definition readUInt16 : M Z := let* o := step 2 in readAt 2 o.
Definition readInt16 : M Z := let* o := step 2 in let* x := readAt 2 o in ret (toSigned 16 x).
Definition readUInt32 : M Z := let* o := step 4 in readAt 4 o.
Definition readInt32 : M Z := let* o := step 4 in let* x := readAt 4 o in ret (toSigned 32 x).

Definition readHex (len : Z) : M jsstring := chunk len hex.

(** ** The handle table *)

Definition newHandle (obj : Value) : M Value :=
  fun p =>
    Ok obj (set_nextHandle (set_handles p (<[nextHandle p := obj]> (handles p)))
                           (nextHandle p + 1)).

(** [newDeferredHandle] returns a closure over [idx]; the embedding returns
    [idx] and [deferredHandle idx] is the closure. *)
Definition newDeferredHandle : M Z :=
  fun p =>
    let idx := nextHandle p in
    Ok idx (set_handles (set_nextHandle p (nextHandle p + 1)) (<[idx := VNull]> (handles p))).

Definition deferredHandle (idx : Z) (obj : Value) : M unit :=
  fun p => Ok tt (set_handles p (<[idx := obj]> (handles p))).

Definition handleAt (p : Parser) (idx : Z) : Value :=
  match handles p !! idx with
  | Some v => v
  | None => VUndefined
  end.

Definition names : list string :=
  ["Null"; "Reference"; "ClassDesc"; "Object"; "String"; "Array"; "Class"; "BlockData";
   "EndBlockData"; "Reset"; "BlockDataLong"; "Exception"; "LongString"; "ProxyClassDesc";
   "Enum"]%string.

Definition indexOf (l : list string) (name : option string) : bool :=
  match name with
  | Some s => existsb (String.eqb s) l
  | None => false
  end.

Fixpoint method {A} (table : list (string * A)) (key : string) : option A :=
  match table with
  | [] => None
  | (k, h) :: rest => if String.eqb k key then Some h else method rest key
  end.

(** ** The parser methods *)

(** A post-processor registered with [Parser.register]; it is called with
    the parser as [this]. *)
Definition ParseFunc : Type := Value -> gmap (list Z) Value -> Value -> M (gmap (list Z) Value).

(** [Parser.register(className, serialVersionUID, parser)]: the assertion
    on the length fails with an [AssertionError], rendered as [None];
    otherwise the parser is installed under className@serialVersionUID. *)
Definition register (className serialVersionUID : jsstring) (parser : ParseFunc)
  (registered : jsstring -> option ParseFunc) : option (jsstring -> option ParseFunc) :=
  if Nat.eqb (length serialVersionUID) 16 then
    Some (fun key =>
            if decide (key = className ++ js "@" ++ serialVersionUID) then Some parser
            else registered key)
  else None.

Section Methods.

(** [buf.toString("utf8", start, end)] is Node's; the decoder from bytes to
    UTF-16 code units is a parameter. *)
Variable utf8 : list byte -> jsstring.

(** [this[className + "@" + serialVersionUID]]: the post-processors
    installed on the prototype by [Parser.register], by property name. *)
Variable registered : jsstring -> option ParseFunc.

Definition utf : M jsstring :=
  let* len := readUInt16 in chunk len utf8.

Definition utfLong : M jsstring :=
  let* high := readUInt32 in
  if negb (high =? 0) then throw StringTooLong
  else let* len := readUInt32 in chunk len utf8.

Definition magic : M unit :=
  let* m := readUInt16 in
  if negb (m =? 0xaced) then throw MagicNotFound else ret tt.

Definition version : M unit :=
  let* v := readUInt16 in
  if negb (v =? 5) then throw BadVersion else ret tt.

Definition parseNull : M Value := ret VNull.

Definition parseEndBlockData : M Value := ret VEndBlock.

Definition parseReference : M Value :=
  let* idx := readInt32 in
  let* p := this in
  ret (handleAt p idx).

Definition parseBlockData : M Value :=
  let* len := readUInt8 in
  fun p =>
    let res := slice (buf p) (pos p) (pos p + len) in
    Ok (VBuffer res) (set_pos p (pos p + len)).

Definition parseBlockDataLong : M Value :=
  let* len := readUInt32 in
  fun p =>
    let res := slice (buf p) (pos p) (pos p + len) in
    Ok (VBuffer res) (set_pos p (pos p + len)).

Definition parseString : M Value :=
  let* s := utf in newHandle (VString s).

Definition parseLongString : M Value :=
  let* s := utfLong in newHandle (VString s).

Definition primB : M Value := let* x := readInt8 in ret (VNumber x).
Definition primC : M Value := let* x := readUInt16 in ret (VString [x]).
Definition primD : M Value := let* o := step 8 in let* x := readAt 8 o in ret (VDouble x).
Definition primF : M Value := let* o := step 4 in let* x := readAt 4 o in ret (VFloat x).
Definition primI : M Value := let* x := readInt32 in ret (VNumber x).
Definition primJ : M Value :=
  let* high := readUInt32 in
  let* low := readUInt32 in
  ret (VLong (toSigned 32 low) (toSigned 32 high)).
Definition primS : M Value := let* x := readInt16 in ret (VNumber x).
Definition primZ : M Value := let* x := readInt8 in ret (VBool (negb (x =? 0))).

(** The methods below call [content] and each other; [content] is the
    knot, passed in as [rec], and [fuel] bounds their own loops. *)
Section Knot.

Variable rec : option (list string) -> M Value.

Definition primL : M Value := rec None.
Definition prim_bracket : M Value := rec None.

(** [this["prim" + type]]. *)
Definition primMethods : list (jsstring * M Value) :=
  [(js "B", primB); (js "C", primC); (js "D", primD); (js "F", primF);
   (js "I", primI); (js "J", primJ); (js "S", primS); (js "Z", primZ);
   (js "L", primL); (js "[", prim_bracket)].

Fixpoint primLookup (table : list (jsstring * M Value)) (type : jsstring) : option (M Value) :=
  match table with
  | [] => None
  | (k, h) :: rest => if decide (k = type) then Some h else primLookup rest type
  end.

Definition primHandler (type : jsstring) : M (M Value) :=
  match primLookup primMethods type with
  | Some handler => ret handler
  | None => throw (UnknownFieldType type)
  end.

Fixpoint annotationsLoop (fuel : nat) (allowed : option (list string)) (a : addr) : M Value :=
  match fuel with
  | O => outOfFuel
  | S fuel' =>
      let* annotation := rec allowed in
      match annotation with
      | VEndBlock => ret (VRef a)
      | _ =>
          let* o := load a in
          match o with
          | Some (OArray items) =>
              store a (OArray (items ++ [annotation])) ;;;
              annotationsLoop fuel' allowed a
          | _ => unmodelled
          end
      end
  end.

Definition annotations (fuel : nat) (allowed : option (list string)) : M Value :=
  let* a := alloc (OArray []) in
  annotationsLoop fuel allowed a.

Definition classDesc : M Value :=
  rec (Some ["ClassDesc"; "ProxyClassDesc"; "Null"; "Reference"]%string).

Definition fieldDesc : M FieldDesc.t :=
  let* t := readUInt8 in
  let type := [t] in
  let* name := utf in
  if bool_decide (type = js "[") || bool_decide (type = js "L") then
    let* className := rec None in
    ret (FieldDesc.mk type name className)
  else ret (FieldDesc.mk type name VUndefined).

Fixpoint fieldsLoop (count : nat) (a : addr) : M unit :=
  match count with
  | O => ret tt
  | S count' =>
      let* f := fieldDesc in
      let* c := loadClass a in
      match ClassDesc.fields c with
      | Some l => store a (OClassDesc (ClassDesc.with_fields c (l ++ [f])))
      | None => throw TypeError
      end ;;;
      fieldsLoop count' a
  end.

(** The part of [parseClassDesc] that follows [this.newHandle(res)]. *)
Definition classDescBody (fuel : nat) (res : addr) : M Value :=
  let* flags := readUInt8 in
  setClass res (fun c => ClassDesc.with_flags c flags) ;;;
  setClass res (fun c => ClassDesc.with_isEnum c (negb (Z.land flags 0x10 =? 0))) ;;;
  let* count := readUInt16 in
  setClass res (fun c => ClassDesc.with_fields c []) ;;;
  fieldsLoop (Z.to_nat count) res ;;;
  let* ann := annotations fuel None in
  setClass res (fun c => ClassDesc.with_annotations c ann) ;;;
  let* sup := classDesc in
  setClass res (fun c => ClassDesc.with_super c sup) ;;;
  ret (VRef res).

(** [res] is created empty and given [name] and [serialVersionUID] before
    [newHandle] first shares it; its cell is allocated once both are read. *)
Definition parseClassDesc (fuel : nat) : M Value :=
  let* name := utf in
  let* serialVersionUID := readHex 8 in
  let* res := alloc (OClassDesc (ClassDesc.mk name serialVersionUID None None None
                                                VUndefined VUndefined)) in
  newHandle (VRef res) ;;;
  classDescBody fuel res.

Definition parseClass : M Value :=
  let* c := classDesc in newHandle c.

(** The loop of [values] over [cls.fields], which no one extends while it
    runs. *)
Fixpoint valuesLoop (fields : list FieldDesc.t) (vals : gmap (list Z) Value)
  : M (gmap (list Z) Value) :=
  match fields with
  | [] => ret vals
  | field :: rest =>
      let* handler := primHandler (FieldDesc.type field) in
      let* v := handler in
      let* vals' := put (FieldDesc.name field) v vals in
      valuesLoop rest vals'
  end.

Definition values (cls : Value) : M (gmap (list Z) Value) :=
  let* c := getClass cls in
  match ClassDesc.fields c with
  | Some fields => valuesLoop fields ∅
  | None => throw TypeError
  end.

Definition classdata (fuel : nat) (cls : Value) : M (gmap (list Z) Value) :=
  let* c := getClass cls in
  let postproc := registered (ClassDesc.name c ++ js "@" ++ ClassDesc.serialVersionUID c) in
  match ClassDesc.flags c with
  | None => throw TypeError
  | Some flags =>
      match Z.land flags 0x0f with
      | 0x02 => values cls
      | 0x03 =>
          let* res := values cls in
          let* data := annotations fuel None in
          let res := <[js "@" := data]> res in
          match postproc with
          | Some f => f cls res data
          | None => ret res
          end
      | 0x04 => throw ExternalV1
      | 0x0c =>
          let* data := annotations fuel None in
          ret {[ js "@" := data ]}
      | _ => throw (UnknownFlags flags)
      end
  end.

(** [obj[name] = v] on an object descriptor: [class] and [extends] were
    defined without [writable], so assigning them throws in strict mode. *)
Definition setProp (obj : addr) (name : jsstring) (v : Value) : M unit :=
  if bool_decide (name = js "class") || bool_decide (name = js "extends") then throw TypeError
  else
    let* d := loadObject obj in
    let* props := put name v (ObjectDesc.props d) in
    store obj (OObjectDesc (ObjectDesc.mk (ObjectDesc.class d) (ObjectDesc.extends d) props)).

(** [for (var name in fields) obj[name] = fields[name]]: the assignments
    are to distinct names, so the order of the enumeration does not show
    in the object. *)
Fixpoint forIn (fields : list (jsstring * Value)) (obj : addr) : M unit :=
  match fields with
  | [] => ret tt
  | (name, v) :: rest => setProp obj name v ;;; forIn rest obj
  end.

Fixpoint recursiveClassData (fuel : nat) (cls : Value) (obj : addr) : M unit :=
  match fuel with
  | O => outOfFuel
  | S fuel' =>
      let* c := getClass cls in
      (if truthy (ClassDesc.super c) then recursiveClassData fuel' (ClassDesc.super c) obj
       else ret tt) ;;;
      let* c := getClass cls in
      let name := ClassDesc.name c in
      let* fields := classdata fuel' cls in
      let* d := loadObject obj in
      let* ext := put name fields (ObjectDesc.extends d) in
      store obj (OObjectDesc (ObjectDesc.mk (ObjectDesc.class d) ext (ObjectDesc.props d))) ;;;
      forIn (map_to_list fields) obj
  end.

(** The part of [parseObject] that follows [this.newHandle(res)]. *)
Definition objectBody (fuel : nat) (cls : Value) (res : addr) : M Value :=
  recursiveClassData fuel cls res ;;;
  ret (VRef res).

Definition parseObject (fuel : nat) : M Value :=
  let* cls := classDesc in
  let* res := alloc (OObjectDesc (ObjectDesc.mk cls ∅ ∅)) in
  newHandle (VRef res) ;;;
  objectBody fuel cls res.

(** [name.charAt(1)]. *)
Definition charAt (s : jsstring) (i : nat) : jsstring :=
  match s !! i with
  | Some c => [c]
  | None => []
  end.

Fixpoint arrayLoop (count : nat) (i : nat) (handler : M Value) (res : addr) : M unit :=
  match count with
  | O => ret tt
  | S count' =>
      let* v := handler in
      let* d := loadArrayDesc res in
      store res (OArrayDesc (ArrayDesc.mk (ArrayDesc.class d) (<[i := v]> (ArrayDesc.items d)))) ;;;
      arrayLoop count' (S i) handler res
  end.

(** [res.length = len] on an empty array: a [RangeError] for a negative
    length, otherwise [len] empty slots, which read as [undefined]. *)
Definition setLength (res : addr) (len : Z) : M unit :=
  if len <? 0 then throw RangeError
  else
    let* d := loadArrayDesc res in
    store res (OArrayDesc (ArrayDesc.mk (ArrayDesc.class d) (replicate (Z.to_nat len) VUndefined))).

(** The part of [parseArray] that follows [this.newHandle(res)]. *)
Definition arrayBody (classDesc : Value) (res : addr) : M Value :=
  let* len := readInt32 in
  let* c := getClass classDesc in
  let* handler := primHandler (charAt (ClassDesc.name c) 1) in
  setLength res len ;;;
  arrayLoop (Z.to_nat len) 0 handler res ;;;
  ret (VRef res).

Definition parseArray : M Value :=
  let* classDesc := classDesc in
  let* res := alloc (OArrayDesc (ArrayDesc.mk classDesc [])) in
  newHandle (VRef res) ;;;
  arrayBody classDesc res.

(** The part of [parseEnum] that follows [this.newDeferredHandle()]. *)
Definition enumBody (clazz : Value) (idx : Z) : M Value :=
  let* constant := rec None in
  newString constant ;;;
  let* res := alloc (OEnum (EnumDesc.mk constant clazz)) in
  deferredHandle idx (VRef res) ;;;
  ret (VRef res).

Definition parseEnum : M Value :=
  let* clazz := classDesc in
  let* idx := newDeferredHandle in
  enumBody clazz idx.

(** [this["parse" + name]]: there is no [parseReset], [parseException] or
    [parseProxyClassDesc]. *)
Definition parseMethods (fuel : nat) : list (string * M Value) :=
  [("Null", parseNull); ("Reference", parseReference); ("ClassDesc", parseClassDesc fuel);
   ("Object", parseObject fuel); ("String", parseString); ("Array", parseArray);
   ("Class", parseClass); ("BlockData", parseBlockData); ("EndBlockData", parseEndBlockData);
   ("BlockDataLong", parseBlockDataLong); ("LongString", parseLongString);
   ("Enum", parseEnum)]%string.

Definition contentBody (fuel : nat) (allowed : option (list string)) : M Value :=
  let* b := readUInt8 in
  let tc := b - 0x70 in
  if (tc <? 0) || (Z.of_nat (length names) <? tc) then throw (UnknownType (tc + 0x70))
  else
    let name := names !! Z.to_nat tc in
    match allowed with
    | Some l => if negb (indexOf l name) then throw (NotAllowed name) else ret tt
    | None => ret tt
    end ;;;
    match name with
    | Some n =>
        match method (parseMethods fuel) n with
        | Some handler => handler
        | None => throw (NoHandler name)
        end
    | None => throw (NoHandler name)
    end.

End Knot.

Fixpoint content (fuel : nat) (allowed : option (list string)) : M Value :=
  match fuel with
  | O => outOfFuel
  | S fuel' => contentBody (content fuel') fuel' allowed
  end.

Fixpoint mainLoop (fuel : nat) : M unit :=
  match fuel with
  | O => outOfFuel
  | S fuel' =>
      let* p := this in
      if pos p <? buf_length p then
        let* v := content fuel' None in
        (fun p => Ok tt (set_contents p (contents p ++ [v]))) ;;;
        mainLoop fuel'
      else ret tt
  end.

Definition newParser (b : list byte) : Parser :=
  mkParser b 0 0x7e0000 ∅ [] [].

(** [new Parser(buf)]: the instance when the constructor returns. *)
Definition constructor (fuel : nat) (b : list byte) : Outcome unit :=
  (magic ;;; version ;;; mainLoop fuel) (newParser b).

End Methods.

(** A decoder for the examples: on 7-bit input, where UTF-8 has one byte
    per code unit, it is [buf.toString("utf8")]; other bytes decode to
    U+FFFD. *)
Definition utf8_7bit (l : list byte) : jsstring :=
  map (fun b => if byteZ b <? 128 then byteZ b else 0xfffd) l.

(** The prototype as [parser.ts] leaves it: nothing registered. *)
Definition nothing_registered : jsstring -> option ParseFunc := fun _ => None.

(** * Vocabulary of the specification *)

(** [moved p p']: the two instances differ in [pos] at most. *)
Definition moved (p p' : Parser) : Prop := p' = set_pos p (pos p').

(** The handle table is dense: its indices are exactly those from the
    base up to [nextHandle]. *)
Definition dense (p : Parser) : Prop :=
  0x7e0000 <= nextHandle p /\
  forall k, is_Some (handles p !! k) <-> 0x7e0000 <= k < nextHandle p.

(** The [endBlock] singleton is in no handle slot. *)
Definition noEndBlock (p : Parser) : Prop :=
  forall k, handles p !! k <> Some VEndBlock.

(** [ext p p']: what a caller can rely on across a call that decodes one
    item.  The buffer and the top-level sequence are untouched, the heap
    cells and handle slots that existed are unchanged, and the table stays
    dense and free of the sentinel. *)
Record ext (p p' : Parser) : Prop := mkExt {
  ext_buf : buf p' = buf p;
  ext_contents : contents p' = contents p;
  ext_heap : heap p `prefix_of` heap p';
  ext_next : nextHandle p <= nextHandle p';
  ext_handles : forall k, k < nextHandle p -> handles p' !! k = handles p !! k;
  ext_dense : dense p -> dense p';
  ext_noEndBlock : noEndBlock p -> noEndBlock p'
}.

(** [content(allowed)] may return the sentinel only where the allow-list
    lets an EndBlockData item through. *)
Definition permitsEndBlock (allowed : option (list string)) : Prop :=
  match allowed with
  | Some l => indexOf l (Some "EndBlockData"%string) = true
  | None => True
  end.

(** What the methods assume of the [content] they call. *)
Definition rec_ok (rec : option (list string) -> M Value) : Prop :=
  forall allowed p v p',
    rec allowed p = Ok v p' ->
    ext p p' /\ (noEndBlock p -> v = VEndBlock -> permitsEndBlock allowed).

(** What is assumed of the registered post-processors. *)
Definition registered_ok (registered : jsstring -> option ParseFunc) : Prop :=
  forall key f cls res data p g p',
    registered key = Some f -> f cls res data p = Ok g p' -> ext p p'.

(** What every handler but [parseEndBlockData] guarantees. *)
Definition handler_ok (h : M Value) : Prop :=
  forall p v p', h p = Ok v p' -> ext p p' /\ (noEndBlock p -> v <> VEndBlock).

(** The instance right after [res] was created and [this.newHandle(res)]
    ran: the cell and the handle slot exist, nothing else has changed. *)
Definition published (o : Obj) (p : Parser) : Parser :=
  mkParser (buf p) (pos p) (nextHandle p + 1)
           (<[nextHandle p := VRef (length (heap p))]> (handles p))
           (contents p) (heap p ++ [o]).

(** The instance right after [this.newHandle(v)], and, with [VNull] for
    [v], right after [this.newDeferredHandle()]. *)
Definition handleAdded (v : Value) (p : Parser) : Parser :=
  mkParser (buf p) (pos p) (nextHandle p + 1) (<[nextHandle p := v]> (handles p))
           (contents p) (heap p).

(** The instance right after [deferredHandle(res)] filled slot [idx] with
    the enum constant just created from [constant]. *)
Definition enumAssigned (idx : Z) (constant clazz : Value) (p : Parser) : Parser :=
  mkParser (buf p) (pos p) (nextHandle p) (<[idx := VRef (length (heap p))]> (handles p))
           (contents p) (heap p ++ [OEnum (EnumDesc.mk constant clazz)]).

(** [res[i] = v] on an array descriptor. *)
Definition storeItem (res : addr) (i : nat) (v : Value) (p : Parser) : Parser :=
  match heap p !! res with
  | Some (OArrayDesc d) =>
      set_heap p (<[res := OArrayDesc (ArrayDesc.mk (ArrayDesc.class d)
                                         (<[i := v]> (ArrayDesc.items d)))]> (heap p))
  | _ => p
  end.

(** [elementsRead handler res i p vs p']: starting at index [i] in
    instance [p], the elements [vs] are the results of consecutive calls of
    [handler], each stored at the next index before the following call. *)
Inductive elementsRead (handler : M Value) (res : addr)
  : nat -> Parser -> list Value -> Parser -> Prop :=
| elementsRead_nil i p : elementsRead handler res i p [] p
| elementsRead_cons i p v p1 vs p2 :
    handler p = Ok v p1 ->
    elementsRead handler res (S i) (storeItem res i v p1) vs p2 ->
    elementsRead handler res i p (v :: vs) p2.

(** [fieldsRead rec fields p vs p']: the values [vs] are the results of
    calling, for each declared field in order, the reader selected by the
    field's type. *)
Inductive fieldsRead (rec : option (list string) -> M Value)
  : list FieldDesc.t -> Parser -> list Value -> Parser -> Prop :=
| fieldsRead_nil p : fieldsRead rec [] p [] p
| fieldsRead_cons f fs handler p v p1 vs p2 :
    primLookup (primMethods rec) (FieldDesc.type f) = Some handler ->
    handler p = Ok v p1 ->
    fieldsRead rec fs p1 vs p2 ->
    fieldsRead rec (f :: fs) p (v :: vs) p2.

(** The map built by [vals[field.name] = v] over the fields in order. *)
Definition assigned (vals : gmap (list Z) Value) (fs : list FieldDesc.t) (vs : list Value)
  : gmap (list Z) Value :=
  fold_left (fun m fv => <[FieldDesc.name (fst fv) := snd fv]> m) (zip fs vs) vals.

(** [ancestors h cls cs]: in heap [h], [cs] are the class descriptors met
    by following [super] from [cls] while it is truthy, oldest ancestor
    first and [cls] itself last. *)
Inductive ancestors (h : list Obj) : Value -> list ClassDesc.t -> Prop :=
| ancestors_root a c :
    h !! a = Some (OClassDesc c) ->
    truthy (ClassDesc.super c) = false ->
    ancestors h (VRef a) [c]
| ancestors_super a c cs :
    h !! a = Some (OClassDesc c) ->
    truthy (ClassDesc.super c) = true ->
    ancestors h (ClassDesc.super c) cs ->
    ancestors h (VRef a) (cs ++ [c]).

(** [groupOf registered rec c g]: the group [g] is what [classdata]
    returned for a class-descriptor value whose descriptor was [c]. *)
Definition groupOf (registered : jsstring -> option ParseFunc)
  (rec : option (list string) -> M Value) (c : ClassDesc.t) (g : gmap (list Z) Value) : Prop :=
  exists fuel cls q q',
    getClass cls q = Ok c q /\ classdata registered rec fuel cls q = Ok g q'.

(** [obj.extends[cls.name] = group], for the classes in order. *)
Definition withGroups (ext0 : gmap (list Z) (gmap (list Z) Value))
  (cs : list ClassDesc.t) (gs : list (gmap (list Z) Value))
  : gmap (list Z) (gmap (list Z) Value) :=
  fold_left (fun e cg => <[ClassDesc.name (fst cg) := snd cg]> e) (zip cs gs) ext0.

(** The flattened view: every group copied onto the object, in order. *)
Definition flattened (props : gmap (list Z) Value) (gs : list (gmap (list Z) Value))
  : gmap (list Z) Value :=
  fold_left (fun pr g => g ∪ pr) gs props.

(** [o[k] = v] for the pairs of [l] in order. *)
Definition insertAll (l : list (jsstring * Value)) (props : gmap (list Z) Value)
  : gmap (list Z) Value :=
  fold_left (fun m kv => <[fst kv := snd kv]> m) l props.

(** [topLevel p items p']: the loop of the constructor, run from [p],
    decodes [items], each paired with the position of its type code, and
    ends in [p']. *)
Inductive topLevel (utf8 : list byte -> jsstring) (registered : jsstring -> option ParseFunc)
  : Parser -> list (Z * Value) -> Parser -> Prop :=
| topLevel_done p :
    buf_length p <= pos p -> topLevel utf8 registered p [] p
| topLevel_item fuel p v p1 items p2 :
    pos p < buf_length p ->
    content utf8 registered fuel None p = Ok v p1 ->
    topLevel utf8 registered (set_contents p1 (contents p1 ++ [v])) items p2 ->
    topLevel utf8 registered p ((pos p, v) :: items) p2.




(** [annotations.push(v)] on the annotation block under construction. *)
Definition pushItem (a : addr) (v : Value) (p : Parser) : Parser :=
  match heap p !! a with
  | Some (OArray items) => set_heap p (<[a := OArray (items ++ [v])]> (heap p))
  | _ => p
  end.

(** [itemsRead rec allowed a p items q]: starting in instance [p], the
    values [items] are the results of consecutive calls of
    [content(allowed)], none of them the sentinel, each pushed onto the
    block [a] before the next call; [q] is the instance after the last
    push. *)
Inductive itemsRead (rec : option (list string) -> M Value) (allowed : option (list string))
  (a : addr) : Parser -> list Value -> Parser -> Prop :=
| itemsRead_nil p : itemsRead rec allowed a p [] p
| itemsRead_cons p v p1 items q :
    rec allowed p = Ok v p1 -> v <> VEndBlock ->
    itemsRead rec allowed a (pushItem a v p1) items q ->
    itemsRead rec allowed a p (v :: items) q.

(** [blockRead rec fuel allowed p data p']: from instance [p] an
    annotation block is read into a new array [data]: its items are read
    as [itemsRead] says, the call of [content(allowed)] that follows them
    returns the sentinel, which ends the block and is not pushed, and [p']
    is the instance after that call.  The number of items is below the
    bound [fuel] on the iterations of the loop. *)
Definition blockRead (rec : option (list string) -> M Value) (fuel : nat)
  (allowed : option (list string)) (p : Parser) (data : Value) (p' : Parser) : Prop :=
  exists items q,
    (length items < fuel)%nat /\
    data = VRef (length (heap p)) /\
    itemsRead rec allowed (length (heap p)) (set_heap p (heap p ++ [OArray []])) items q /\
    rec allowed q = Ok VEndBlock p' /\
    heap p' !! length (heap p) = Some (OArray items).


(** ** Example streams *)

(** An instance holding one class descriptor with a single int field
    [foo] and the given flags, positioned on four bytes of field data. *)
Definition one_class (flags : Z) : Parser :=
  mkParser [x00; x00; x00; x7b] 0 0x7e0001 (<[0x7e0000 := VRef 0]> ∅) []
    [OClassDesc (ClassDesc.mk (js "A") (js "0000000000001234") (Some flags) (Some false)
                   (Some [FieldDesc.mk (js "I") (js "foo") VUndefined]) VUndefined VNull)].

(** The body of an Object item (after its type code): class "D" with an
    int field [foo], whose super class "B" has an int field [foo] too;
    then the data of B (123) and of D (345). *)
Definition derived_object_item : list byte :=
  [x72; x00; x01; x44; x00; x00; x00; x00; x00; x00; x34; x56; x02; x00; x01;
   x49; x00; x03; x66; x6f; x6f; x78;
   x72; x00; x01; x42; x00; x00; x00; x00; x00; x00; x12; x34; x02; x00; x01;
   x49; x00; x03; x66; x6f; x6f; x78; x70;
   x00; x00; x00; x7b; x00; x00; x01; x59].

(** The instance after [parseObject] ran on [derived_object_item]. *)
Definition derived_object_parsed : Parser :=
  mkParser derived_object_item 53 0x7e0003
    (<[0x7e0002 := VRef 4]> (<[0x7e0001 := VRef 2]> (<[0x7e0000 := VRef 0]> ∅))) []
    [OClassDesc (ClassDesc.mk (js "D") (js "0000000000003456") (Some 2) (Some false)
                   (Some [FieldDesc.mk (js "I") (js "foo") VUndefined]) (VRef 1) (VRef 2));
     OArray [];
     OClassDesc (ClassDesc.mk (js "B") (js "0000000000001234") (Some 2) (Some false)
                   (Some [FieldDesc.mk (js "I") (js "foo") VUndefined]) (VRef 3) VNull);
     OArray [];
     OObjectDesc (ObjectDesc.mk (VRef 0)
                    (<[js "D" := <[js "foo" := VNumber 345]> ∅]>
                       (<[js "B" := <[js "foo" := VNumber 123]> ∅]> ∅))
                    (<[js "foo" := VNumber 345]> ∅))].

(** A stream whose only item is the class descriptor "X"; the annotation
    block of "X" holds an object of class "X" itself (by reference), and
    the super class "Y" of "X" follows that block. *)
Definition object_in_own_class_annotations : list byte :=
  [xac; xed; x00; x05;
   x72; x00; x01; x58; x00; x00; x00; x00; x00; x00; x00; x01; x02; x00; x00;
   x73; x71; x00; x7e; x00; x00; x78;
   x72; x00; x01; x59; x00; x00; x00; x00; x00; x00; x00; x02; x02; x00; x00; x78; x70].

(** The body of an Array item (after its type code): a class descriptor
    named "[I" with no fields, then the length -1. *)
Definition negative_array_item : list byte :=
  [x72; x00; x02; x5b; x49; x00; x00; x00; x00; x00; x00; x00; x01;
   x02; x00; x00; x78; x70; xff; xff; xff; xff].

(** A class descriptor "X" with no fields whose super class is a
    Reference to the handle of "X" itself. *)
Definition self_super_class : list byte :=
  [x72; x00; x01; x58; x00; x00; x00; x00; x00; x00; x00; x00; x02; x00; x00; x78;
   x71; x00; x7e; x00; x00].

(** The instance after [classDesc] ran on [self_super_class]. *)
Definition self_super_parsed : Parser :=
  mkParser self_super_class 21 0x7e0001 (<[0x7e0000 := VRef 0]> ∅) []
    [OClassDesc (ClassDesc.mk (js "X") (js "0000000000000000") (Some 2) (Some false)
                   (Some []) (VRef 1) (VRef 0));
     OArray []].

(** The body of an Object item: a class descriptor "X" with flags 0x02
    and one int field named "class", then the value 1. *)
Definition class_field_item : list byte :=
  [x72; x00; x01; x58; x00; x00; x00; x00; x00; x00; x00; x00; x02; x00; x01;
   x49; x00; x05; x63; x6c; x61; x73; x73; x78; x70; x00; x00; x00; x01].

(** The instance after [classDesc] ran on [class_field_item]. *)
Definition class_field_parsed : Parser :=
  mkParser class_field_item 25 0x7e0001 (<[0x7e0000 := VRef 0]> ∅) []
    [OClassDesc (ClassDesc.mk (js "X") (js "0000000000000000") (Some 2) (Some false)
                   (Some [FieldDesc.mk (js "I") (js "class") VUndefined]) (VRef 1) VNull);
     OArray []].

(** [one_class] followed by an annotation block: after the four bytes of
    the field [foo] there are a BlockData item of one byte and the
    EndBlockData item. *)
Definition class_with_block (flags : Z) : Parser :=
  mkParser [x00; x00; x00; x7b; x77; x01; xaa; x78] 0 0x7e0001 (<[0x7e0000 := VRef 0]> ∅) []
    [OClassDesc (ClassDesc.mk (js "A") (js "0000000000001234") (Some flags) (Some false)
                   (Some [FieldDesc.mk (js "I") (js "foo") VUndefined]) VUndefined VNull)].

(** [class_with_block] once the field and the annotation block are
    read. *)
Definition class_with_block_read (flags : Z) : Parser :=
  mkParser [x00; x00; x00; x7b; x77; x01; xaa; x78] 8 0x7e0001 (<[0x7e0000 := VRef 0]> ∅) []
    [OClassDesc (ClassDesc.mk (js "A") (js "0000000000001234") (Some flags) (Some false)
                   (Some [FieldDesc.mk (js "I") (js "foo") VUndefined]) VUndefined VNull);
     OArray [VBuffer [xaa]]].

(** A post-processor that keeps the annotation block only. *)
Definition keep_block : ParseFunc :=
  fun cls res data => ret {[ js "block" := data ]}.

(** The body of an Enum item: the class descriptor "E" (an enum class
    with no fields), then the constant as the String item "A". *)
Definition enum_item : list byte :=
  [x72; x00; x01; x45; x00; x00; x00; x00; x00; x00; x00; x00; x12; x00; x00; x78; x70;
   x74; x00; x01; x41].

(** The body of an Enum item with a null class whose constant is an
    Object item of class "X" with one int field named "toString". *)
Definition enum_toString_item : list byte :=
  [x70; x73; x72; x00; x01; x58; x00; x00; x00; x00; x00; x00; x00; x00; x02; x00; x01;
   x49; x00; x08; x74; x6f; x53; x74; x72; x69; x6e; x67; x78; x70; x00; x00; x00; x01].

(** * Reasoning about the monad *)

Lemma bind_Ok {A B} (m : M A) (k : A -> M B) p b p'' :
  bind m k p = Ok b p'' -> exists a p', m p = Ok a p' /\ k a p' = Ok b p''.
Proof.
  unfold bind. destruct (m p) as [a p'| | |]; try discriminate. eauto.
Qed.

Lemma bind_Ok_intro {A B} (m : M A) (k : A -> M B) p a p' :
  m p = Ok a p' -> bind m k p = k a p'.
Proof. unfold bind. intros ->. reflexivity. Qed.

Lemma bind_assoc {A B C} (m : M A) (f : A -> M B) (g : B -> M C) p :
  bind (bind m f) g p = bind m (fun a => bind (f a) g) p.
Proof. unfold bind. by destruct (m p). Qed.

Ltac inv_bind H :=
  let a := fresh "x" in
  let q := fresh "q" in
  let Hm := fresh "Hm" in
  apply bind_Ok in H as (a & q & Hm & H).

(** ** The cursor only moves *)

Lemma moved_trans p1 p2 p3 : moved p1 p2 -> moved p2 p3 -> moved p1 p3.
Proof. unfold moved. intros -> ->. reflexivity. Qed.

Lemma step_Ok len p o p' :
  step len p = Ok o p' ->
  o = pos p /\ p' = set_pos p (pos p + len) /\ pos p + len <= buf_length p.
Proof.
  unfold step. cbn. unfold buf_length. cbn.
  destruct (Z.ltb_spec (Z.of_nat (length (buf p))) (pos p + len)); [discriminate|].
  intros [= <- <-]. auto.
Qed.

Lemma step_moved len p o p' : step len p = Ok o p' -> moved p p'.
Proof. intros (_ & -> & _)%step_Ok. reflexivity. Qed.

Lemma readAt_Ok n o p x p' : readAt n o p = Ok x p' -> p' = p.
Proof.
  unfold readAt, this. cbn.
  destruct (_ && _); cbn; [intros [= _ <-]; reflexivity | discriminate].
Qed.

Lemma read_moved {A} n len (f : Z -> A) p x p' :
  (let* o := step len in let* x := readAt n o in ret (f x)) p = Ok x p' -> moved p p'.
Proof.
  intros H. inv_bind H. inv_bind H. injection H as _ <-.
  apply readAt_Ok in Hm0 as ->. eapply step_moved; eauto.
Qed.

Lemma readUInt8_moved p x p' : readUInt8 p = Ok x p' -> moved p p'.
Proof.
  unfold readUInt8. intros H. inv_bind H. apply readAt_Ok in H as ->.
  eapply step_moved; eauto.
Qed.

Lemma readUInt16_moved p x p' : readUInt16 p = Ok x p' -> moved p p'.
Proof.
  unfold readUInt16. intros H. inv_bind H. apply readAt_Ok in H as ->.
  eapply step_moved; eauto.
Qed.

Lemma readUInt32_moved p x p' : readUInt32 p = Ok x p' -> moved p p'.
Proof.
  unfold readUInt32. intros H. inv_bind H. apply readAt_Ok in H as ->.
  eapply step_moved; eauto.
Qed.

Lemma readInt8_moved p x p' : readInt8 p = Ok x p' -> moved p p'.
Proof. apply (read_moved 1 1 (toSigned 8)). Qed.

Lemma readInt16_moved p x p' : readInt16 p = Ok x p' -> moved p p'.
Proof. apply (read_moved 2 2 (toSigned 16)). Qed.

Lemma readInt32_moved p x p' : readInt32 p = Ok x p' -> moved p p'.
Proof. apply (read_moved 4 4 (toSigned 32)). Qed.

Lemma chunk_moved len enc p s p' : chunk len enc p = Ok s p' -> moved p p'.
Proof.
  unfold chunk. intros H. inv_bind H. inv_bind H. injection Hm0 as <- <-.
  injection H as _ <-. eapply step_moved; eauto.
Qed.

Lemma readHex_moved len p s p' : readHex len p = Ok s p' -> moved p p'.
Proof. apply chunk_moved. Qed.

Lemma utf_moved dec p s p' : utf dec p = Ok s p' -> moved p p'.
Proof.
  unfold utf. intros H. inv_bind H.
  eapply moved_trans; [eapply readUInt16_moved | eapply chunk_moved]; eauto.
Qed.

Lemma utfLong_moved dec p s p' : utfLong dec p = Ok s p' -> moved p p'.
Proof.
  unfold utfLong. intros H. inv_bind H.
  destruct (negb (x =? 0)); [discriminate|]. inv_bind H.
  eapply moved_trans; [eapply readUInt32_moved; eauto|].
  eapply moved_trans; [eapply readUInt32_moved | eapply chunk_moved]; eauto.
Qed.

(** ** The caller's view is a preorder *)

Lemma ext_refl p : ext p p.
Proof. split; auto; reflexivity. Qed.

Lemma ext_trans p1 p2 p3 : ext p1 p2 -> ext p2 p3 -> ext p1 p3.
Proof.
  intros [] []. split; try congruence; auto.
  - etrans; eauto.
  - lia.
  - intros k Hk. rewrite ext_handles1 by lia. auto.
Qed.

Lemma moved_ext p p' : moved p p' -> ext p p'.
Proof. intros ->. split; cbn; auto. lia. Qed.

Lemma alloc_Ok o p a p' :
  alloc o p = Ok a p' -> a = length (heap p) /\ p' = set_heap p (heap p ++ [o]).
Proof. intros [= <- <-]. auto. Qed.

Lemma alloc_ext o p a p' : alloc o p = Ok a p' -> ext p p'.
Proof.
  intros [-> ->]%alloc_Ok. split; cbn; auto; try lia.
  by apply prefix_app_r.
Qed.

Lemma alloc_lookup o p a p' : alloc o p = Ok a p' -> heap p' !! a = Some o.
Proof.
  intros [-> ->]%alloc_Ok. cbn. rewrite lookup_app_r by lia.
  by rewrite Nat.sub_diag.
Qed.

Lemma prefix_insert_ge {A} (l1 l2 : list A) a x :
  l1 `prefix_of` l2 -> (length l1 <= a)%nat -> l1 `prefix_of` <[a := x]> l2.
Proof.
  intros [k ->] Ha. rewrite insert_app_r_alt by done. by apply prefix_app_r.
Qed.

Lemma store_Ok a o p u p' :
  store a o p = Ok u p' -> p' = set_heap p (<[a := o]> (heap p)).
Proof. intros [= _ <-]. reflexivity. Qed.

(** An activation only writes to the cells it allocated itself. *)
Lemma ext_store p0 p a o u p' :
  ext p0 p -> (length (heap p0) <= a)%nat -> store a o p = Ok u p' -> ext p0 p'.
Proof.
  intros [] Ha ->%store_Ok. split; cbn; auto.
  by apply prefix_insert_ge.
Qed.

Lemma dense_insert_next p v :
  dense p ->
  dense (set_nextHandle (set_handles p (<[nextHandle p := v]> (handles p))) (nextHandle p + 1)).
Proof.
  intros [Hb Hd]. split; cbn; [lia|]. intros k.
  destruct (decide (k = nextHandle p)) as [->|Hne].
  - rewrite lookup_insert_eq. split; [lia | eauto].
  - rewrite lookup_insert_ne by done. rewrite Hd. lia.
Qed.

Lemma noEndBlock_insert p k v :
  noEndBlock p -> v <> VEndBlock -> noEndBlock (set_handles p (<[k := v]> (handles p))).
Proof.
  intros Hn Hv j. cbn. destruct (decide (j = k)) as [->|Hne].
  - rewrite lookup_insert_eq. congruence.
  - rewrite lookup_insert_ne by done. apply Hn.
Qed.

Lemma newHandle_Ok v p r p' :
  newHandle v p = Ok r p' ->
  r = v /\ handles p' = <[nextHandle p := v]> (handles p) /\
  nextHandle p' = nextHandle p + 1 /\ heap p' = heap p /\ pos p' = pos p.
Proof. intros [= <- <-]. cbn. auto. Qed.

Lemma ext_newHandle p0 p v r p' :
  ext p0 p -> (noEndBlock p0 -> v <> VEndBlock) -> newHandle v p = Ok r p' -> ext p0 p'.
Proof.
  intros [] Hv [= _ <-]. split; cbn; auto; try lia.
  - intros k Hk. rewrite lookup_insert_ne by lia. auto.
  - intros Hd. by apply dense_insert_next, ext_dense0.
  - intros Hn j. cbn. specialize (Hv Hn). specialize (ext_noEndBlock0 Hn).
    destruct (decide (j = nextHandle p)) as [->|Hne].
    + rewrite lookup_insert_eq. congruence.
    + rewrite lookup_insert_ne by done. apply ext_noEndBlock0.
Qed.

Lemma newDeferredHandle_Ok p idx p' :
  newDeferredHandle p = Ok idx p' ->
  idx = nextHandle p /\ handles p' = <[nextHandle p := VNull]> (handles p) /\
  nextHandle p' = nextHandle p + 1 /\ heap p' = heap p /\ pos p' = pos p.
Proof. intros [= <- <-]. cbn. auto. Qed.

Lemma newDeferredHandle_ext p idx p' : newDeferredHandle p = Ok idx p' -> ext p p'.
Proof.
  intros [= _ <-]. split; cbn; auto; try lia.
  - intros k Hk. by rewrite lookup_insert_ne by lia.
  - intros Hd. apply (dense_insert_next p VNull) in Hd. exact Hd.
  - intros Hn j. cbn. destruct (decide (j = nextHandle p)) as [->|Hne].
    + by rewrite lookup_insert_eq.
    + rewrite lookup_insert_ne by done. apply Hn.
Qed.

(** Filling a reserved slot. *)
Lemma ext_deferredHandle p0 p idx v u p' :
  ext p0 p -> nextHandle p0 <= idx -> is_Some (handles p !! idx) -> v <> VEndBlock ->
  deferredHandle idx v p = Ok u p' -> ext p0 p'.
Proof.
  intros [] Hidx Hsome Hv [= _ <-]. split; cbn; auto.
  - intros k Hk. rewrite lookup_insert_ne by lia. auto.
  - intros Hd. destruct (ext_dense0 Hd) as [Hb Hdom]. split; cbn; [done|].
    intros k. destruct (decide (k = idx)) as [->|Hne].
    + rewrite lookup_insert_eq. rewrite <- Hdom. split; eauto.
    + rewrite lookup_insert_ne by done. apply Hdom.
  - intros Hn. apply noEndBlock_insert; auto.
Qed.

Lemma load_Ok a p o p' : load a p = Ok o p' -> p' = p /\ o = heap p !! a.
Proof. intros [= <- <-]. auto. Qed.

Lemma loadClass_Ok a p c p' :
  loadClass a p = Ok c p' -> p' = p /\ heap p !! a = Some (OClassDesc c).
Proof.
  unfold loadClass. intros H. inv_bind H. apply load_Ok in Hm as [-> ->].
  destruct (heap p !! a) as [[]|] eqn:E; try discriminate.
  injection H as <- <-. auto.
Qed.

Lemma loadObject_Ok a p d p' :
  loadObject a p = Ok d p' -> p' = p /\ heap p !! a = Some (OObjectDesc d).
Proof.
  unfold loadObject. intros H. inv_bind H. apply load_Ok in Hm as [-> ->].
  destruct (heap p !! a) as [[]|] eqn:E; try discriminate.
  injection H as <- <-. auto.
Qed.

Lemma loadArrayDesc_Ok a p d p' :
  loadArrayDesc a p = Ok d p' -> p' = p /\ heap p !! a = Some (OArrayDesc d).
Proof.
  unfold loadArrayDesc. intros H. inv_bind H. apply load_Ok in Hm as [-> ->].
  destruct (heap p !! a) as [[]|] eqn:E; try discriminate.
  injection H as <- <-. auto.
Qed.

Lemma getClass_Ok cls p c p' :
  getClass cls p = Ok c p' ->
  p' = p /\ exists a, cls = VRef a /\ heap p !! a = Some (OClassDesc c).
Proof.
  destruct cls; try discriminate. cbn. intros [-> H]%loadClass_Ok. eauto.
Qed.

Lemma put_Ok {A} key (v : A) m p m' p' :
  put key v m p = Ok m' p' -> p' = p /\ m' = <[key := v]> m /\ key <> js "__proto__".
Proof.
  unfold put. destruct (decide _); [discriminate|]. intros [= <- <-]. auto.
Qed.

Lemma newString_Ok constant p u p' : newString constant p = Ok u p' -> p' = p.
Proof.
  destruct constant; try (by intros [= _ <-]). cbn [newString]. intros H.
  inv_bind H. apply load_Ok in Hm as [-> ->].
  destruct (heap p !! a) as [[| | | |]|]; try discriminate;
    try (by injection H as _ <-);
    match type of H with (if ?b then _ else _) _ = _ => destruct b end;
    try discriminate; by injection H as _ <-.
Qed.

Lemma ext_setClass q0 p a f u p' :
  ext q0 p -> (length (heap q0) <= a)%nat -> setClass a f p = Ok u p' -> ext q0 p'.
Proof.
  intros He Ha H. unfold setClass in H. inv_bind H.
  apply loadClass_Ok in Hm as [-> _]. eapply ext_store; eauto.
Qed.

Lemma ext_heap_length p p' : ext p p' -> (length (heap p) <= length (heap p'))%nat.
Proof. intros []. by apply prefix_length. Qed.

Lemma ext_lookup p p' a o : ext p p' -> heap p !! a = Some o -> heap p' !! a = Some o.
Proof. intros [] H. eapply prefix_lookup_Some; eauto. Qed.

Lemma endBlock_dec (v : Value) : {v = VEndBlock} + {v <> VEndBlock}.
Proof. destruct v; (by left) || (by right). Qed.

Lemma handleAt_noEndBlock p idx : noEndBlock p -> handleAt p idx <> VEndBlock.
Proof.
  intros Hn. unfold handleAt. specialize (Hn idx).
  destruct (handles p !! idx); congruence.
Qed.

Lemma moved_noEndBlock p p' : moved p p' -> noEndBlock p -> noEndBlock p'.
Proof. intros ->. auto. Qed.

Lemma moved_handles p p' : moved p p' -> handles p' = handles p.
Proof. intros ->. reflexivity. Qed.

Lemma moved_heap p p' : moved p p' -> heap p' = heap p.
Proof. intros ->. reflexivity. Qed.

Lemma moved_buf p p' : moved p p' -> buf p' = buf p.
Proof. intros ->. reflexivity. Qed.

(** The [default:] arm of the switch in [classdata]. *)
Lemma nibble_other {A} (z : Z) (a b c d e : A) :
  z <> 2 -> z <> 3 -> z <> 4 -> z <> 12 ->
  match z with 2 => a | 3 => b | 4 => c | 12 => d | _ => e end = e.
Proof.
  intros. destruct z as [|n|n]; try reflexivity.
  do 4 (try (destruct n as [n|n|]; try reflexivity; try congruence)).
Qed.

(** * The methods preserve the caller's view *)

Section Frame.

Variable utf8 : list byte -> jsstring.
Variable registered : jsstring -> option ParseFunc.
Variable rec : option (list string) -> M Value.
Hypothesis Hrec : rec_ok rec.
Hypothesis Hreg : registered_ok registered.

Lemma rec_ext allowed p v p' : rec allowed p = Ok v p' -> ext p p'.
Proof. intros H. by apply Hrec in H as [? _]. Qed.

Lemma classDesc_ok p v p' :
  classDesc rec p = Ok v p' -> ext p p' /\ (noEndBlock p -> v <> VEndBlock).
Proof.
  unfold classDesc. intros H. apply Hrec in H as [He Hs]. split; [done|].
  intros Hn ->. specialize (Hs Hn eq_refl). cbn in Hs. discriminate.
Qed.

Lemma primLookup_ext type h p v p' :
  primLookup (primMethods rec) type = Some h -> h p = Ok v p' -> ext p p'.
Proof.
  unfold primMethods. cbn.
  repeat (case_decide; [intros [= <-] | ]); try discriminate; intros Hh.
  - unfold primB in Hh. inv_bind Hh. injection Hh as _ <-.
    eapply moved_ext, readInt8_moved; eauto.
  - unfold primC in Hh. inv_bind Hh. injection Hh as _ <-.
    eapply moved_ext, readUInt16_moved; eauto.
  - unfold primD in Hh. eapply moved_ext, (read_moved 8 8 VDouble); eauto.
  - unfold primF in Hh. eapply moved_ext, (read_moved 4 4 VFloat); eauto.
  - unfold primI in Hh. inv_bind Hh. injection Hh as _ <-.
    eapply moved_ext, readInt32_moved; eauto.
  - unfold primJ in Hh. inv_bind Hh. inv_bind Hh. injection Hh as _ <-.
    eapply moved_ext, moved_trans; eapply readUInt32_moved; eauto.
  - unfold primS in Hh. inv_bind Hh. injection Hh as _ <-.
    eapply moved_ext, readInt16_moved; eauto.
  - unfold primZ in Hh. inv_bind Hh. injection Hh as _ <-.
    eapply moved_ext, readInt8_moved; eauto.
  - eapply rec_ext; eauto.
  - eapply rec_ext; eauto.
Qed.

Lemma primHandler_Ok type p h p' :
  primHandler rec type p = Ok h p' ->
  p' = p /\ primLookup (primMethods rec) type = Some h.
Proof.
  unfold primHandler. destruct (primLookup _ _); [|discriminate].
  intros [= <- <-]. auto.
Qed.

(** The annotation block under construction is the activation's own
    cell [a]; the sentinel ends the loop and is never pushed. *)
Lemma annotationsLoop_ok fuel allowed a q0 p v p' items :
  ext q0 p -> (length (heap q0) <= a)%nat ->
  heap p !! a = Some (OArray items) -> VEndBlock ∉ items ->
  annotationsLoop rec fuel allowed a p = Ok v p' ->
  ext q0 p' /\ v = VRef a /\
  exists items', heap p' !! a = Some (OArray items') /\ VEndBlock ∉ items'.
Proof.
  revert p items. induction fuel as [|fuel IH]; intros p items He Ha Hc Hi H; [discriminate|].
  cbn [annotationsLoop] in H. inv_bind H.
  pose proof (rec_ext _ _ _ _ Hm) as He1.
  pose proof (ext_lookup _ _ _ _ He1 Hc) as Hc1.
  assert (ext q0 q) as He2 by (eapply ext_trans; eauto).
  destruct (endBlock_dec x) as [->|Hne].
  { injection H as <- <-. eauto. }
  assert ((let* o := load a in
           match o with
           | Some (OArray items0) =>
               store a (OArray (items0 ++ [x]));;; annotationsLoop rec fuel allowed a
           | _ => unmodelled
           end) q = Ok v p') as H' by (destruct x; done).
  clear H. inv_bind H'. apply load_Ok in Hm0 as [-> ->]. rewrite Hc1 in H'.
  inv_bind H'. pose proof (ext_store _ _ _ _ _ _ He2 Ha Hm0) as He3.
  apply store_Ok in Hm0 as ->.
  eapply (IH _ (items ++ [x])) in H'; eauto.
  - cbn. apply list_lookup_insert_eq. eapply lookup_lt_Some; eauto.
  - intros [Hin | Hin%list_elem_of_singleton]%elem_of_app; [done | congruence].
Qed.

Lemma annotations_ok fuel allowed p v p' :
  annotations rec fuel allowed p = Ok v p' ->
  ext p p' /\
  exists a items, v = VRef a /\ heap p' !! a = Some (OArray items) /\ VEndBlock ∉ items.
Proof.
  unfold annotations. intros H. inv_bind H.
  pose proof (alloc_ext _ _ _ _ Hm) as He.
  pose proof (alloc_lookup _ _ _ _ Hm) as Hc.
  apply alloc_Ok in Hm as [-> _].
  eapply (annotationsLoop_ok _ _ _ p q _ _ []) in H as (He' & -> & items & ? & ?);
    eauto using ext_refl.
  - split; [|eauto]. done.
  - apply not_elem_of_nil.
Qed.

Lemma fieldDesc_ext p f p' : fieldDesc utf8 rec p = Ok f p' -> ext p p'.
Proof.
  unfold fieldDesc. intros H. inv_bind H. inv_bind H.
  assert (ext p q0) as He.
  { eapply moved_ext, moved_trans; [eapply readUInt8_moved | eapply utf_moved]; eauto. }
  destruct (_ || _).
  - inv_bind H. injection H as _ <-. eapply ext_trans; eauto using rec_ext.
  - injection H as _ <-. done.
Qed.

Lemma fieldsLoop_ext count a q0 p u p' :
  ext q0 p -> (length (heap q0) <= a)%nat ->
  fieldsLoop utf8 rec count a p = Ok u p' -> ext q0 p'.
Proof.
  revert p. induction count as [|count IH]; intros p He Ha H.
  { injection H as _ <-. done. }
  cbn [fieldsLoop] in H. inv_bind H. inv_bind H.
  apply loadClass_Ok in Hm0 as [-> _].
  apply fieldDesc_ext in Hm.
  destruct (ClassDesc.fields x0); [|discriminate].
  inv_bind H. eapply IH; [|done|eauto]. eapply ext_store; [|done|eauto].
  eapply ext_trans; eauto.
Qed.

Lemma classDescBody_ok fuel res q0 p v p' :
  ext q0 p -> (length (heap q0) <= res)%nat ->
  classDescBody utf8 rec fuel res p = Ok v p' -> ext q0 p' /\ v = VRef res.
Proof.
  intros He Ha H. unfold classDescBody in H.
  inv_bind H. apply readUInt8_moved, moved_ext in Hm.
  assert (ext q0 q) as He1 by (eapply ext_trans; eauto).
  inv_bind H. pose proof (ext_setClass _ _ _ _ _ _ He1 Ha Hm0) as He2.
  inv_bind H. pose proof (ext_setClass _ _ _ _ _ _ He2 Ha Hm1) as He3.
  inv_bind H. apply readUInt16_moved, moved_ext in Hm2.
  assert (ext q0 q3) as He4 by (eapply ext_trans; eauto).
  inv_bind H. pose proof (ext_setClass _ _ _ _ _ _ He4 Ha Hm3) as He5.
  inv_bind H. pose proof (fieldsLoop_ext _ _ _ _ _ _ He5 Ha Hm4) as He6.
  inv_bind H. apply annotations_ok in Hm5 as [He7 _].
  assert (ext q0 q6) as He8 by (eapply ext_trans; eauto).
  inv_bind H. pose proof (ext_setClass _ _ _ _ _ _ He8 Ha Hm5) as He9.
  inv_bind H. apply classDesc_ok in Hm6 as [He10 _].
  assert (ext q0 q8) as He11 by (eapply ext_trans; eauto).
  inv_bind H. pose proof (ext_setClass _ _ _ _ _ _ He11 Ha Hm6) as He12.
  injection H as <- <-. auto.
Qed.

Lemma parseClassDesc_ok fuel : handler_ok (parseClassDesc utf8 rec fuel).
Proof.
  intros p v p' H. unfold parseClassDesc in H.
  inv_bind H. apply utf_moved in Hm.
  inv_bind H. apply readHex_moved in Hm0.
  pose proof (moved_ext _ _ (moved_trans _ _ _ Hm Hm0)) as He.
  inv_bind H. pose proof (alloc_ext _ _ _ _ Hm1) as He1.
  apply alloc_Ok in Hm1 as [Hx1 _].
  inv_bind H. eapply (ext_newHandle p) in Hm1; [| eauto using ext_trans | done].
  eapply classDescBody_ok in H as [He3 ->]; [| exact Hm1 |].
  - split; [done | done].
  - rewrite Hx1. apply moved_heap in Hm, Hm0. rewrite Hm0, Hm. done.
Qed.

Lemma parseClass_ok : handler_ok (parseClass rec).
Proof.
  intros p v p' H. unfold parseClass in H. inv_bind H.
  apply classDesc_ok in Hm as [He Hs].
  pose proof H as [-> _]%newHandle_Ok.
  eapply ext_newHandle in H; eauto.
Qed.

Lemma parseString_ok : handler_ok (parseString utf8).
Proof.
  intros p v p' H. unfold parseString in H. inv_bind H.
  apply utf_moved, moved_ext in Hm.
  pose proof H as [-> _]%newHandle_Ok.
  eapply ext_newHandle in H; eauto.
Qed.

Lemma parseLongString_ok : handler_ok (parseLongString utf8).
Proof.
  intros p v p' H. unfold parseLongString in H. inv_bind H.
  apply utfLong_moved, moved_ext in Hm.
  pose proof H as [-> _]%newHandle_Ok.
  eapply ext_newHandle in H; eauto.
Qed.

Lemma parseNull_ok : handler_ok parseNull.
Proof. intros p v p' [= <- <-]. split; [apply ext_refl | done]. Qed.

Lemma parseReference_ok : handler_ok parseReference.
Proof.
  intros p v p' H. unfold parseReference in H. inv_bind H. inv_bind H.
  injection Hm0 as <- <-. injection H as <- <-.
  apply readInt32_moved in Hm. split; [by apply moved_ext|].
  intros Hn. apply handleAt_noEndBlock. eapply moved_noEndBlock; eauto.
Qed.

Lemma parseBlockData_ok : handler_ok parseBlockData.
Proof.
  intros p v p' H. unfold parseBlockData in H. inv_bind H.
  injection H as <- <-. apply readUInt8_moved in Hm. split; [|done].
  eapply moved_ext, moved_trans; [exact Hm | reflexivity].
Qed.

Lemma parseBlockDataLong_ok : handler_ok parseBlockDataLong.
Proof.
  intros p v p' H. unfold parseBlockDataLong in H. inv_bind H.
  injection H as <- <-. apply readUInt32_moved in Hm. split; [|done].
  eapply moved_ext, moved_trans; [exact Hm | reflexivity].
Qed.

Lemma valuesLoop_ext fields vals p g p' :
  valuesLoop rec fields vals p = Ok g p' -> ext p p'.
Proof.
  revert vals p. induction fields as [|f fields IH]; intros vals p H.
  { injection H as _ <-. apply ext_refl. }
  cbn [valuesLoop] in H. inv_bind H. apply primHandler_Ok in Hm as [-> Hl].
  inv_bind H. eapply primLookup_ext in Hm; [|exact Hl].
  inv_bind H. apply put_Ok in Hm0 as (-> & -> & _).
  eapply ext_trans; eauto.
Qed.

Lemma values_ext cls p g p' : values rec cls p = Ok g p' -> ext p p'.
Proof.
  unfold values. intros H. inv_bind H. apply getClass_Ok in Hm as [-> _].
  destruct (ClassDesc.fields x); [|discriminate]. eapply valuesLoop_ext; eauto.
Qed.

Lemma classdata_ext fuel cls p g p' :
  classdata registered rec fuel cls p = Ok g p' -> ext p p'.
Proof.
  unfold classdata. intros H. inv_bind H. apply getClass_Ok in Hm as [-> _].
  destruct (ClassDesc.flags x) as [flags|]; [|discriminate].
  destruct (decide (Z.land flags 15 = 2)) as [E|N2]; [rewrite E in H|].
  { eapply values_ext; eauto. }
  destruct (decide (Z.land flags 15 = 3)) as [E|N3]; [rewrite E in H|].
  { inv_bind H. apply values_ext in Hm. inv_bind H. apply annotations_ok in Hm0 as [He _].
    assert (ext p q0) by eauto using ext_trans.
    destruct (registered _) as [f|] eqn:Hf.
    + eapply ext_trans; [eassumption|]. eapply Hreg; eauto.
    + by injection H as _ <-. }
  destruct (decide (Z.land flags 15 = 4)) as [E|N4]; [rewrite E in H; discriminate|].
  destruct (decide (Z.land flags 15 = 12)) as [E|N12]; [rewrite E in H|].
  { inv_bind H. apply annotations_ok in Hm as [He _]. by injection H as _ <-. }
  rewrite nibble_other in H by done. discriminate.
Qed.

Lemma ext_setProp q0 p obj name v u p' :
  ext q0 p -> (length (heap q0) <= obj)%nat ->
  setProp obj name v p = Ok u p' -> ext q0 p'.
Proof.
  intros He Ha H. unfold setProp in H. destruct (_ || _); [discriminate|].
  inv_bind H. apply loadObject_Ok in Hm as [-> _].
  inv_bind H. apply put_Ok in Hm as (-> & -> & _).
  eapply ext_store; eauto.
Qed.

Lemma ext_forIn q0 fields p obj u p' :
  ext q0 p -> (length (heap q0) <= obj)%nat ->
  forIn fields obj p = Ok u p' -> ext q0 p'.
Proof.
  revert p. induction fields as [|[name v] fields IH]; intros p He Ha H.
  { by injection H as _ <-. }
  cbn [forIn] in H. inv_bind H. eapply IH; [|done|eauto].
  eapply ext_setProp; eauto.
Qed.

Lemma ext_recursiveClassData fuel q0 cls obj p u p' :
  ext q0 p -> (length (heap q0) <= obj)%nat ->
  recursiveClassData registered rec fuel cls obj p = Ok u p' -> ext q0 p'.
Proof.
  revert cls p u p'.
  induction fuel as [|fuel IH]; intros cls p u p' He Ha H; [discriminate|].
  cbn [recursiveClassData] in H.
  inv_bind H. apply getClass_Ok in Hm as [-> _].
  inv_bind H.
  assert (ext q0 q) as He1.
  { destruct (truthy _); [eapply IH; eauto | by injection Hm as _ <-]. }
  inv_bind H. apply getClass_Ok in Hm0 as [-> _].
  inv_bind H. apply classdata_ext in Hm0.
  assert (ext q0 q1) as He2 by eauto using ext_trans.
  inv_bind H. apply loadObject_Ok in Hm1 as [-> _].
  inv_bind H. apply put_Ok in Hm1 as (-> & -> & _).
  inv_bind H. eapply ext_forIn; [|done|eauto]. eapply ext_store; eauto.
Qed.

Lemma parseObject_ok fuel : handler_ok (parseObject registered rec fuel).
Proof.
  intros p v p' H. unfold parseObject in H. inv_bind H.
  apply classDesc_ok in Hm as [He _].
  inv_bind H. pose proof (alloc_ext _ _ _ _ Hm) as He1.
  apply alloc_Ok in Hm as [-> _].
  inv_bind H. eapply (ext_newHandle p) in Hm; [| eauto using ext_trans | done].
  unfold objectBody in H. inv_bind H. injection H as <- <-.
  split; [|done]. eapply (ext_recursiveClassData _ p); [exact Hm | | exact Hm0].
  by apply ext_heap_length.
Qed.

Lemma ext_arrayLoop count i handler res q0 p u p' :
  (forall q v q', handler q = Ok v q' -> ext q q') ->
  ext q0 p -> (length (heap q0) <= res)%nat ->
  arrayLoop count i handler res p = Ok u p' -> ext q0 p'.
Proof.
  intros Hh. revert i p. induction count as [|count IH]; intros i p He Ha H.
  { by injection H as _ <-. }
  cbn [arrayLoop] in H. inv_bind H. apply Hh in Hm.
  inv_bind H. apply loadArrayDesc_Ok in Hm0 as [-> _].
  inv_bind H. eapply IH; [|done|eauto]. eapply ext_store; [|done|eauto].
  eauto using ext_trans.
Qed.

Lemma ext_setLength q0 p res len u p' :
  ext q0 p -> (length (heap q0) <= res)%nat -> setLength res len p = Ok u p' -> ext q0 p'.
Proof.
  intros He Ha H. unfold setLength in H. destruct (len <? 0); [discriminate|].
  inv_bind H. apply loadArrayDesc_Ok in Hm as [-> _]. eapply ext_store; eauto.
Qed.

Lemma arrayBody_ok cls res q0 p v p' :
  ext q0 p -> (length (heap q0) <= res)%nat ->
  arrayBody rec cls res p = Ok v p' -> ext q0 p' /\ v = VRef res.
Proof.
  intros He Ha H. unfold arrayBody in H.
  inv_bind H. apply readInt32_moved, moved_ext in Hm.
  inv_bind H. apply getClass_Ok in Hm0 as [-> _].
  inv_bind H. apply primHandler_Ok in Hm0 as [-> Hl].
  inv_bind H. eapply (ext_setLength q0) in Hm0; [| eauto using ext_trans | done].
  inv_bind H. injection H as <- <-. split; [|done].
  eapply (ext_arrayLoop _ _ _ _ q0); [| exact Hm0 | done | eauto].
  intros ? ? ?. by eapply primLookup_ext.
Qed.

Lemma parseArray_ok : handler_ok (parseArray rec).
Proof.
  intros p v p' H. unfold parseArray in H. inv_bind H.
  apply classDesc_ok in Hm as [He _].
  inv_bind H. pose proof (alloc_ext _ _ _ _ Hm) as He1.
  apply alloc_Ok in Hm as [-> _].
  inv_bind H. eapply (ext_newHandle p) in Hm; [| eauto using ext_trans | done].
  eapply arrayBody_ok in H as [? ->]; [split; done | exact Hm |].
  by apply ext_heap_length.
Qed.

Lemma enumBody_ok clazz idx q0 p v p' :
  ext q0 p -> nextHandle q0 <= idx < nextHandle p -> is_Some (handles p !! idx) ->
  enumBody rec clazz idx p = Ok v p' -> ext q0 p' /\ v <> VEndBlock.
Proof.
  intros He Hidx Hs H. unfold enumBody in H.
  inv_bind H. apply rec_ext in Hm.
  inv_bind H. apply newString_Ok in Hm0 as ->.
  inv_bind H. pose proof (alloc_ext _ _ _ _ Hm0) as He1.
  inv_bind H. injection H as <- <-. split; [|done].
  assert (ext p q1) as He2 by eauto using ext_trans.
  eapply (ext_deferredHandle q0); [| | | | exact Hm1]; eauto using ext_trans; [lia|].
  destruct He2. rewrite ext_handles0 by lia. done.
Qed.

Lemma parseEnum_ok : handler_ok (parseEnum rec).
Proof.
  intros p v p' H. unfold parseEnum in H. inv_bind H.
  apply classDesc_ok in Hm as [He _].
  inv_bind H. pose proof (newDeferredHandle_ext _ _ _ Hm) as He1.
  apply newDeferredHandle_Ok in Hm as (-> & Hh & Hn & _).
  eapply (enumBody_ok _ _ p) in H as [? ?]; [split; [eassumption | done] | eauto using ext_trans | |].
  - destruct He. lia.
  - rewrite Hh, lookup_insert_eq. eauto.
Qed.

Lemma names_lookup i n :
  names !! i = Some n -> n ∈ names.
Proof. intros H. eapply list_elem_of_lookup_2; eauto. Qed.

(** [content] built on a [content] that keeps the caller's view keeps it. *)
Lemma contentBody_ok fuel : rec_ok (contentBody utf8 registered rec fuel).
Proof.
  intros allowed p v p' H. unfold contentBody in H.
  inv_bind H. apply readUInt8_moved in Hm.
  destruct (_ || _); [discriminate|].
  inv_bind H.
  assert (q0 = q /\ (v = VEndBlock -> names !! Z.to_nat (x - 112) = Some "EndBlockData"%string
                     -> permitsEndBlock allowed)) as [-> Hadm].
  { destruct allowed as [l|]; cbn.
    - destruct (indexOf l (names !! Z.to_nat (x - 112))) eqn:Hi; [|discriminate].
      injection Hm0 as _ <-. split; [done|]. intros _ Hn. by rewrite Hn in Hi.
    - injection Hm0 as _ <-. done. }
  clear Hm0.
  destruct (names !! Z.to_nat (x - 112)) as [n|] eqn:Hn; [|discriminate].
  pose proof (moved_ext _ _ Hm) as He.
  assert (forall h, handler_ok h -> h q = Ok v p' ->
            ext p p' /\ (noEndBlock p -> v = VEndBlock -> permitsEndBlock allowed)) as Hok.
  { intros h Hh Hq. apply Hh in Hq as [He' Hv]. split; [eauto using ext_trans|].
    intros Hnb ->. exfalso. apply Hv; [|done]. eapply moved_noEndBlock; eauto. }
  apply names_lookup in Hn as Hin. unfold names in Hin.
  repeat (apply elem_of_cons in Hin as [->|Hin]); cbn in H; try discriminate.
  - eapply Hok; eauto using parseNull_ok.
  - eapply Hok; eauto using parseReference_ok.
  - eapply Hok; eauto using parseClassDesc_ok.
  - eapply Hok; eauto using parseObject_ok.
  - eapply Hok; eauto using parseString_ok.
  - eapply Hok; eauto using parseArray_ok.
  - eapply Hok; eauto using parseClass_ok.
  - eapply Hok; eauto using parseBlockData_ok.
  - injection H as <- <-. split; [done|]. intros _ _. by apply Hadm.
  - eapply Hok; eauto using parseBlockDataLong_ok.
  - eapply Hok; eauto using parseLongString_ok.
  - eapply Hok; eauto using parseEnum_ok.
  - by apply elem_of_nil in Hin.
Qed.

End Frame.

Lemma content_ok utf8 registered fuel :
  registered_ok registered -> rec_ok (content utf8 registered fuel).
Proof.
  intros Hreg. induction fuel as [|fuel IH]; [intros ? ? ? ? [=]|].
  cbn [content]. by apply contentBody_ok.
Qed.

(** * Annotation blocks *)

Section AnnotationBlocks.

Variable rec : option (list string) -> M Value.
Hypothesis Hrec : rec_ok rec.

Lemma pushItem_eq a v p its :
  heap p !! a = Some (OArray its) ->
  pushItem a v p = set_heap p (<[a := OArray (its ++ [v])]> (heap p)).
Proof. intros H. unfold pushItem. by rewrite H. Qed.

Lemma pushItem_lookup a v p its :
  heap p !! a = Some (OArray its) ->
  heap (pushItem a v p) !! a = Some (OArray (its ++ [v])).
Proof.
  intros H. rewrite (pushItem_eq _ _ _ _ H). cbn.
  apply list_lookup_insert_eq. eapply lookup_lt_Some; eauto.
Qed.

Lemma annotationsLoop_step fuel allowed a p v p1 its :
  rec allowed p = Ok v p1 -> v <> VEndBlock -> heap p !! a = Some (OArray its) ->
  annotationsLoop rec (S fuel) allowed a p
  = annotationsLoop rec fuel allowed a (pushItem a v p1) /\
  heap (pushItem a v p1) !! a = Some (OArray (its ++ [v])).
Proof.
  intros Hr Hv Hc.
  assert (heap p1 !! a = Some (OArray its)) as Hc1.
  { apply Hrec in Hr as [He _]. by apply (ext_lookup _ _ _ _ He). }
  split; [|by apply pushItem_lookup].
  cbn [annotationsLoop]. rewrite (bind_Ok_intro _ _ _ _ _ Hr).
  rewrite (pushItem_eq _ _ _ _ Hc1).
  destruct v; try congruence; unfold bind, load, store; by rewrite Hc1.
Qed.

Lemma annotationsLoop_trace fuel allowed a p v p' its0 :
  heap p !! a = Some (OArray its0) ->
  annotationsLoop rec fuel allowed a p = Ok v p' ->
  exists items q,
    (length items < fuel)%nat /\ itemsRead rec allowed a p items q /\
    rec allowed q = Ok VEndBlock p' /\ v = VRef a /\
    heap p' !! a = Some (OArray (its0 ++ items)).
Proof.
  revert p its0. induction fuel as [|fuel IH]; intros p its0 Hc H; [discriminate|].
  destruct (rec allowed p) as [x p1| | |] eqn:Hr;
    try (cbn [annotationsLoop] in H; unfold bind in H; rewrite Hr in H; discriminate).
  destruct (endBlock_dec x) as [->|Hne].
  - cbn [annotationsLoop] in H. rewrite (bind_Ok_intro _ _ _ _ _ Hr) in H.
    injection H as <- <-. exists [], p. split; [cbn; lia|]. split; [constructor|].
    split; [done|]. split; [done|]. rewrite app_nil_r.
    apply Hrec in Hr as [He _]. by apply (ext_lookup _ _ _ _ He).
  - destruct (annotationsLoop_step fuel allowed a p x p1 its0 Hr Hne Hc) as [E Hc1].
    rewrite E in H. apply (IH _ _ Hc1) in H as (items & q & Hlen & Hit & Hend & -> & Hfin).
    exists (x :: items), q. split; [cbn; lia|]. split; [by econstructor|].
    split; [done|]. split; [done|]. by rewrite <- app_assoc in Hfin.
Qed.

Lemma annotationsLoop_intro allowed a p items q p' :
  itemsRead rec allowed a p items q -> rec allowed q = Ok VEndBlock p' ->
  forall fuel its0, heap p !! a = Some (OArray its0) -> (length items < fuel)%nat ->
  annotationsLoop rec fuel allowed a p = Ok (VRef a) p'.
Proof.
  intros Hit Hend. induction Hit as [p|p v p1 items q Hr Hv Hit IH];
    intros fuel its0 Hc Hlen; (destruct fuel as [|fuel]; [cbn in Hlen; lia|]).
  - cbn [annotationsLoop]. by rewrite (bind_Ok_intro _ _ _ _ _ Hend).
  - destruct (annotationsLoop_step fuel allowed a p v p1 its0 Hr Hv Hc) as [E Hc1].
    rewrite E. eapply IH; eauto. cbn in Hlen. lia.
Qed.

(** [annotations] returns exactly when a block is read as [blockRead]
    says. *)
Lemma annotations_blockRead fuel allowed p data p' :
  annotations rec fuel allowed p = Ok data p' <-> blockRead rec fuel allowed p data p'.
Proof.
  assert (heap (set_heap p (heap p ++ [OArray []])) !! length (heap p) = Some (OArray []))
    as Hc.
  { cbn. rewrite lookup_app_r by lia. by rewrite Nat.sub_diag. }
  unfold annotations, bind at 1, alloc. split.
  - intros H. apply (annotationsLoop_trace _ _ _ _ _ _ _ Hc) in H
      as (items & q & Hlen & Hit & Hend & -> & Hfin).
    exists items, q. auto.
  - intros (items & q & Hlen & -> & Hit & Hend & _).
    eapply annotationsLoop_intro; eauto.
Qed.

Lemma itemsRead_sentinel allowed a p items q :
  itemsRead rec allowed a p items q -> VEndBlock ∉ items.
Proof.
  induction 1; [apply not_elem_of_nil|].
  intros [?|?]%elem_of_cons; [congruence | done].
Qed.

Lemma itemsRead_noEndBlock allowed a p items q :
  itemsRead rec allowed a p items q -> noEndBlock p -> noEndBlock q.
Proof.
  induction 1 as [|p v p1 items q Hr Hv Hit IH]; [done|]. intros Hn. apply IH.
  apply Hrec in Hr as [He _]. apply (ext_noEndBlock _ _ He) in Hn.
  unfold pushItem. by destruct (heap p1 !! a) as [[]|].
Qed.

End AnnotationBlocks.

(** * Type codes *)

(** The range test of [content] rejects what lies outside 0x70..0x7F. *)
Lemma content_unknown_type utf8 registered fuel allowed p b p1 :
  readUInt8 p = Ok b p1 -> b < 0x70 \/ 0x7f < b ->
  content utf8 registered (S fuel) allowed p = Throw (UnknownType b).
Proof.
  intros Hb Hr. cbn [content]. unfold contentBody.
  rewrite (bind_Ok_intro _ _ _ _ _ Hb).
  assert ((b - 112 <? 0) || (Z.of_nat (length names) <? b - 112) = true) as ->.
  { apply orb_true_iff. rewrite Z.ltb_lt, Z.ltb_lt. cbn. lia. }
  unfold throw. f_equal. f_equal. lia.
Qed.

(** C5 (code at the failing input): the type code 0x7F passes the range
    test [tc > names.length], [names[15]] is [undefined], and the error is
    the missing-handler one, "Don't know how to handle undefined", not the
    unknown-type one. *)
Theorem content_type_0x7f utf8 registered fuel :
  constructor utf8 registered (S (S fuel)) [xac; xed; x00; x05; x7f] = Throw (NoHandler None)
  /\ constructor utf8 registered (S (S fuel)) [xac; xed; x00; x05; x7f]
     <> Throw (UnknownType 0x7f).
Proof. split; [reflexivity | discriminate]. Qed.

(** * Block data *)

(** C6 (code at the failing input): a BlockData item that declares five
    bytes where none is left is accepted, and the constructor returns
    with the cursor at 11 in a buffer of 6 bytes. *)
Theorem constructor_cursor_past_end utf8 registered fuel :
  exists p,
    constructor utf8 registered (S (S fuel)) [xac; xed; x00; x05; x77; x05] = Ok tt p /\
    buf_length p = 6 /\ pos p = 11.
Proof. eexists. split; [reflexivity | split; reflexivity]. Qed.

(** C7 (code at the failing input): BlockData and BlockDataLong items
    whose declared length exceeds what is left decode to the truncated
    slice; no error is raised and [pos] is advanced by the declared
    length. *)
Theorem blockData_length_unchecked utf8 registered fuel :
  (exists p,
     constructor utf8 registered (S (S fuel)) [xac; xed; x00; x05; x77; x05] = Ok tt p /\
     contents p = [VBuffer []] /\ pos p = 11) /\
  (exists p,
     constructor utf8 registered (S (S fuel))
       [xac; xed; x00; x05; x7a; x00; x00; x00; x09; x01] = Ok tt p /\
     contents p = [VBuffer [x01]] /\ pos p = 18).
Proof. split; eexists; (split; [reflexivity | split; reflexivity]). Qed.

(** * References *)

Lemma readInt32_handles p idx p1 : readInt32 p = Ok idx p1 -> handles p1 = handles p.
Proof. intros H. by apply readInt32_moved, moved_handles in H. Qed.

(** C8 (counterexample): a Reference to index 0x7E0000 in a stream that
    allocated no handle decodes without error; the item is [undefined]. *)
Lemma reference_unallocated_no_error :
  constructor utf8_7bit nothing_registered 3 [xac; xed; x00; x05; x71; x00; x7e; x00; x00]
  = Ok tt (mkParser [xac; xed; x00; x05; x71; x00; x7e; x00; x00] 9 0x7e0000 ∅ [VUndefined] []).
Proof. reflexivity. Qed.

(** C8 (amended): a Reference never fails on its index.  With a dense
    table, an index in the allocated range yields the value stored in its
    slot, and any other index yields [undefined]. *)
Theorem parseReference_lookup p idx p1 :
  readInt32 p = Ok idx p1 -> dense p ->
  (0x7e0000 <= idx < nextHandle p ->
     exists v, handles p !! idx = Some v /\ parseReference p = Ok v p1) /\
  (~ (0x7e0000 <= idx < nextHandle p) ->
     handles p !! idx = None /\ parseReference p = Ok VUndefined p1).
Proof.
  intros Hr [_ Hd].
  assert (parseReference p = Ok (handleAt p idx) p1) as Hp.
  { unfold parseReference. rewrite (bind_Ok_intro _ _ _ _ _ Hr). cbn.
    unfold ret, handleAt. by rewrite (readInt32_handles _ _ _ Hr). }
  split; intros Hi.
  - apply Hd in Hi as [v Hv]. exists v. split; [done|].
    rewrite Hp. unfold handleAt. by rewrite Hv.
  - assert (handles p !! idx = None) as Hn.
    { destruct (handles p !! idx) eqn:E; [|done]. exfalso. apply Hi, Hd. eauto. }
    split; [done|]. rewrite Hp. unfold handleAt. by rewrite Hn.
Qed.

Lemma dense_newParser b : dense (newParser b).
Proof.
  split; cbn; [lia|]. intros k. rewrite lookup_empty. split; [intros [? [=]] | lia].
Qed.

Lemma parseReference_lookup_witness :
  handles (newParser [x00; x7e; x00; x00]) !! 0x7e0000 = None /\
  parseReference (newParser [x00; x7e; x00; x00])
  = Ok VUndefined (set_pos (newParser [x00; x7e; x00; x00]) 4).
Proof.
  apply (parseReference_lookup (newParser [x00; x7e; x00; x00]) 0x7e0000
           (set_pos (newParser [x00; x7e; x00; x00]) 4) eq_refl (dense_newParser _)).
  cbn. lia.
Defined.

(** * The end-of-block sentinel *)

(** C4 (counterexample): an EndBlockData item at top level puts the
    sentinel into the exposed sequence. *)
Lemma endBlock_at_top_level :
  constructor utf8_7bit nothing_registered 3 [xac; xed; x00; x05; x78]
  = Ok tt (mkParser [xac; xed; x00; x05; x78] 5 0x7e0000 ∅ [VEndBlock] []).
Proof. reflexivity. Qed.

(** * Arrays *)

Lemma published_alloc_newHandle {A} o (k : addr -> M A) p :
  (let* res := alloc o in newHandle (VRef res) ;;; k res) p
  = k (length (heap p)) (published o p).
Proof. reflexivity. Qed.

Lemma parseArray_published rec p cls p1 :
  classDesc rec p = Ok cls p1 ->
  parseArray rec p
  = arrayBody rec cls (length (heap p1)) (published (OArrayDesc (ArrayDesc.mk cls [])) p1).
Proof.
  intros H. unfold parseArray. rewrite (bind_Ok_intro _ _ _ _ _ H).
  apply published_alloc_newHandle.
Qed.

Section Arrays.

Variable rec : option (list string) -> M Value.
Hypothesis Hrec : rec_ok rec.

Lemma arrayLoop_elements count handler res cls :
  (forall q v q', handler q = Ok v q' -> ext q q') ->
  forall done p u p',
    heap p !! res = Some (OArrayDesc (ArrayDesc.mk cls (done ++ replicate count VUndefined))) ->
    arrayLoop count (length done) handler res p = Ok u p' ->
    exists vs,
      length vs = count /\
      elementsRead handler res (length done) p vs p' /\
      heap p' !! res = Some (OArrayDesc (ArrayDesc.mk cls (done ++ vs))).
Proof.
  intros Hh. induction count as [|count IH]; intros done p u p' Hc H.
  { injection H as _ <-. exists []. split; [done|]. split; [constructor | done]. }
  cbn [arrayLoop] in H. inv_bind H. pose proof (Hh _ _ _ Hm) as He.
  pose proof (ext_lookup _ _ _ _ He Hc) as Hc1.
  inv_bind H. apply loadArrayDesc_Ok in Hm0 as [-> Hc2].
  rewrite Hc1 in Hc2. injection Hc2 as <-. cbn [ArrayDesc.class ArrayDesc.items] in H.
  inv_bind H. apply store_Ok in Hm0 as ->.
  change (replicate (S count) VUndefined) with (VUndefined :: replicate count VUndefined)
    in Hc1.
  assert (<[length done := x]> (done ++ VUndefined :: replicate count VUndefined)
          = (done ++ [x]) ++ replicate count VUndefined) as Hins.
  { rewrite insert_app_r_alt by lia. rewrite Nat.sub_diag. cbn. by rewrite <- app_assoc. }
  rewrite Hins in H.
  replace (S (length done)) with (length (done ++ [x])) in H by (rewrite length_app; cbn; lia).
  eapply IH in H as (vs & Hlen & Hread & Hfin).
  - exists (x :: vs). split; [cbn; lia|]. split.
    + econstructor; [exact Hm|]. unfold storeItem. rewrite Hc1.
      cbn [ArrayDesc.class ArrayDesc.items]. rewrite Hins.
      replace (S (length done)) with (length (done ++ [x])) by (rewrite length_app; cbn; lia).
      exact Hread.
    + by rewrite <- app_assoc in Hfin.
  - cbn. apply list_lookup_insert_eq. eapply lookup_lt_Some; eauto.
Qed.

(** What a successful [arrayBody] did, step by step. *)
Lemma arrayBody_Ok cls res p v p' :
  heap p !! res = Some (OArrayDesc (ArrayDesc.mk cls [])) ->
  arrayBody rec cls res p = Ok v p' ->
  exists len p2 c handler vs,
    readInt32 p = Ok len p2 /\
    getClass cls p2 = Ok c p2 /\
    primLookup (primMethods rec) (charAt (ClassDesc.name c) 1) = Some handler /\
    0 <= len /\
    elementsRead handler res 0
      (set_heap p2 (<[res := OArrayDesc (ArrayDesc.mk cls (replicate (Z.to_nat len) VUndefined))]>
                      (heap p2))) vs p' /\
    v = VRef res /\
    length vs = Z.to_nat len /\
    heap p' !! res = Some (OArrayDesc (ArrayDesc.mk cls vs)).
Proof.
  intros Hc H. unfold arrayBody in H.
  inv_bind H. pose proof (readInt32_moved _ _ _ Hm) as Hmv.
  inv_bind H. pose proof Hm0 as [-> _]%getClass_Ok.
  inv_bind H. apply primHandler_Ok in Hm1 as [-> Hl].
  inv_bind H. unfold setLength in Hm1.
  destruct (Z.ltb_spec x 0) as [|Hlen]; [discriminate|].
  inv_bind Hm1. apply loadArrayDesc_Ok in Hm2 as [-> Hc2].
  assert (heap q !! res = Some (OArrayDesc (ArrayDesc.mk cls []))) as Hc1.
  { by rewrite (moved_heap _ _ Hmv). }
  rewrite Hc1 in Hc2. injection Hc2 as <-. cbn [ArrayDesc.class] in Hm1.
  apply store_Ok in Hm1 as ->.
  inv_bind H. injection H as <- <-.
  eapply (arrayLoop_elements _ _ _ cls _ []) in Hm1 as (vs & Hl1 & Hread & Hfin).
  - exists x, q, x0, x1, vs. repeat split; eauto.
  - cbn. apply list_lookup_insert_eq. eapply lookup_lt_Some; eauto.
Unshelve.
  intros ? ? ?. by eapply primLookup_ext.
Qed.

Lemma arrayBody_negative cls res p len p2 c :
  readInt32 p = Ok len p2 -> getClass cls p2 = Ok c p2 -> len < 0 ->
  arrayBody rec cls res p = Throw RangeError \/
  arrayBody rec cls res p = Throw (UnknownFieldType (charAt (ClassDesc.name c) 1)).
Proof.
  intros Hr Hg Hlen. unfold arrayBody.
  rewrite (bind_Ok_intro _ _ _ _ _ Hr), (bind_Ok_intro _ _ _ _ _ Hg).
  unfold primHandler. destruct (primLookup _ _) as [h|]; [left | by right].
  cbn. unfold bind, ret, setLength.
  destruct (Z.ltb_spec len 0); [done | lia].
Qed.

End Arrays.

Lemma nothing_registered_ok : registered_ok nothing_registered.
Proof. intros ? ? ? ? ? ? ? ? [=]. Qed.

Lemma published_lookup o p : heap (published o p) !! length (heap p) = Some o.
Proof. cbn. rewrite lookup_app_r by lia. by rewrite Nat.sub_diag. Qed.

(** C9 (counterexample): an Array item whose class descriptor is named
    "XI" decodes to an array descriptor of one int; nothing checks that
    the name starts with '['. *)
Lemma array_class_name_unchecked :
  exists p c,
    constructor utf8_7bit nothing_registered 4
      [xac; xed; x00; x05; x75; x72; x00; x02; x58; x49;
       x00; x00; x00; x00; x00; x00; x00; x01; x02; x00; x00; x78; x70;
       x00; x00; x00; x01; x00; x00; x00; x07] = Ok tt p /\
    contents p = [VRef 2] /\
    heap p !! 2%nat = Some (OArrayDesc (ArrayDesc.mk (VRef 0) [VNumber 7])) /\
    heap p !! 0%nat = Some (OClassDesc c) /\
    ClassDesc.name c = js "XI" /\
    ClassDesc.name c !! 0%nat <> Some 91.
Proof.
  eexists. eexists. split; [vm_compute; reflexivity|].
  split; [reflexivity|]. split; [reflexivity|]. split; [reflexivity|].
  split; [reflexivity | discriminate].
Qed.

(** C9 (amended): a successful [parseArray] read a class descriptor [c] at
    the class-descriptor position, then the i32 [len]; the reader was
    selected by the second character of [c]'s name, the elements are the
    results of its consecutive calls, and the array descriptor holds
    exactly [len] of them.  The first character of the name plays no
    part. *)
Theorem parseArray_length_and_elements utf8 registered fuel p v p' :
  registered_ok registered ->
  parseArray (content utf8 registered fuel) p = Ok v p' ->
  exists cls p1 len p2 c handler vs,
    classDesc (content utf8 registered fuel) p = Ok cls p1 /\
    readInt32 (published (OArrayDesc (ArrayDesc.mk cls [])) p1) = Ok len p2 /\
    getClass cls p2 = Ok c p2 /\
    primLookup (primMethods (content utf8 registered fuel)) (charAt (ClassDesc.name c) 1)
      = Some handler /\
    elementsRead handler (length (heap p1)) 0
      (set_heap p2 (<[length (heap p1) :=
                        OArrayDesc (ArrayDesc.mk cls (replicate (Z.to_nat len) VUndefined))]>
                      (heap p2))) vs p' /\
    v = VRef (length (heap p1)) /\
    heap p' !! length (heap p1) = Some (OArrayDesc (ArrayDesc.mk cls vs)) /\
    Z.of_nat (length vs) = len.
Proof.
  intros Hreg H.
  destruct (classDesc (content utf8 registered fuel) p) as [cls p1| | |] eqn:Hc;
    try (unfold parseArray in H; rewrite (bind_Ok_intro _ _ _ _ _ Hc) in H);
    try (unfold parseArray, bind in H; rewrite Hc in H; discriminate).
  rewrite published_alloc_newHandle in H.
  eapply arrayBody_Ok in H as (len & p2 & c & h & vs & ? & ? & ? & ? & ? & ? & Hl & ?);
    [| by apply content_ok | apply published_lookup].
  exists cls, p1, len, p2, c, h, vs. repeat split; try done. lia.
Qed.

Lemma parseArray_length_and_elements_witness :
  exists cls p1 len p2 c handler vs,
    classDesc (content utf8_7bit nothing_registered 3)
      (newParser [x72; x00; x02; x58; x49; x00; x00; x00; x00; x00; x00; x00; x01;
                  x02; x00; x00; x78; x70; x00; x00; x00; x01; x00; x00; x00; x07])
      = Ok cls p1 /\
    readInt32 (published (OArrayDesc (ArrayDesc.mk cls [])) p1) = Ok len p2 /\
    getClass cls p2 = Ok c p2 /\
    primLookup (primMethods (content utf8_7bit nothing_registered 3))
      (charAt (ClassDesc.name c) 1) = Some handler /\
    elementsRead handler (length (heap p1)) 0
      (set_heap p2 (<[length (heap p1) :=
                        OArrayDesc (ArrayDesc.mk cls (replicate (Z.to_nat len) VUndefined))]>
                      (heap p2))) vs
      (mkParser [x72; x00; x02; x58; x49; x00; x00; x00; x00; x00; x00; x00; x01;
                 x02; x00; x00; x78; x70; x00; x00; x00; x01; x00; x00; x00; x07]
         26 0x7e0002 (<[0x7e0001 := VRef 2]> (<[0x7e0000 := VRef 0]> ∅)) []
         [OClassDesc (ClassDesc.mk (js "XI") (js "0000000000000001") (Some 2) (Some false)
                        (Some []) (VRef 1) VNull);
          OArray [];
          OArrayDesc (ArrayDesc.mk (VRef 0) [VNumber 7])]) /\
    VRef 2 = VRef (length (heap p1)) /\
    heap (mkParser [x72; x00; x02; x58; x49; x00; x00; x00; x00; x00; x00; x00; x01;
                    x02; x00; x00; x78; x70; x00; x00; x00; x01; x00; x00; x00; x07]
            26 0x7e0002 (<[0x7e0001 := VRef 2]> (<[0x7e0000 := VRef 0]> ∅)) []
            [OClassDesc (ClassDesc.mk (js "XI") (js "0000000000000001") (Some 2) (Some false)
                           (Some []) (VRef 1) VNull);
             OArray [];
             OArrayDesc (ArrayDesc.mk (VRef 0) [VNumber 7])]) !! length (heap p1)
      = Some (OArrayDesc (ArrayDesc.mk cls vs)) /\
    Z.of_nat (length vs) = len.
Proof.
  apply (parseArray_length_and_elements utf8_7bit nothing_registered 3).
  - apply nothing_registered_ok.
  - vm_compute. reflexivity.
Defined.

(** C10: once the class descriptor and the i32 length of an Array item
    are read, a negative length makes [parseArray] throw, with the
    [RangeError] of [res.length = len] when the element reader exists (the
    lookup of the reader comes first and has its own error); and whenever
    [parseArray] returns, the length read was non-negative and is the
    number of elements of the array descriptor. *)
Theorem parseArray_negative_length utf8 registered fuel p cls p1 len p2 :
  registered_ok registered ->
  classDesc (content utf8 registered fuel) p = Ok cls p1 ->
  readInt32 (published (OArrayDesc (ArrayDesc.mk cls [])) p1) = Ok len p2 ->
  (forall c, len < 0 -> getClass cls p2 = Ok c p2 ->
     parseArray (content utf8 registered fuel) p = Throw RangeError \/
     parseArray (content utf8 registered fuel) p
       = Throw (UnknownFieldType (charAt (ClassDesc.name c) 1))) /\
  (forall v p', parseArray (content utf8 registered fuel) p = Ok v p' ->
     0 <= len /\
     exists vs, heap p' !! length (heap p1) = Some (OArrayDesc (ArrayDesc.mk cls vs)) /\
                Z.of_nat (length vs) = len).
Proof.
  intros Hreg Hc Hr. rewrite (parseArray_published _ _ _ _ Hc). split.
  - intros c Hlen Hg. eapply arrayBody_negative; eauto.
  - intros v p' H.
    eapply arrayBody_Ok in H as (len' & p2' & c & h & vs & Hr' & _ & _ & ? & _ & _ & Hl & ?);
      [| by apply content_ok | apply published_lookup].
    rewrite Hr in Hr'. injection Hr' as <- <-. split; [done|]. exists vs. split; [done | lia].
Qed.

Lemma parseArray_negative_length_witness :
  parseArray (content utf8_7bit nothing_registered 3) (newParser negative_array_item)
  = Throw RangeError.
Proof.
  destruct (parseArray_negative_length utf8_7bit nothing_registered 3
              (newParser negative_array_item) (VRef 0)
              (mkParser negative_array_item 18 0x7e0001 (<[0x7e0000 := VRef 0]> ∅) []
                 [OClassDesc (ClassDesc.mk (js "[I") (js "0000000000000001") (Some 2)
                                (Some false) (Some []) (VRef 1) VNull);
                  OArray []])
              (-1)
              (mkParser negative_array_item 22 0x7e0002
                 (<[0x7e0001 := VRef 2]> (<[0x7e0000 := VRef 0]> ∅)) []
                 [OClassDesc (ClassDesc.mk (js "[I") (js "0000000000000001") (Some 2)
                                (Some false) (Some []) (VRef 1) VNull);
                  OArray [];
                  OArrayDesc (ArrayDesc.mk (VRef 0) [])])
              nothing_registered_ok)
    as [Hneg _]; [vm_compute; reflexivity | vm_compute; reflexivity |].
  destruct (Hneg (ClassDesc.mk (js "[I") (js "0000000000000001") (Some 2)
                    (Some false) (Some []) (VRef 1) VNull))
    as [H | H]; [reflexivity | reflexivity | exact H | vm_compute in H; discriminate H].
Defined.

(** * Per-class data *)

Lemma valuesLoop_Ok rec fs vals p g p' :
  valuesLoop rec fs vals p = Ok g p' ->
  exists vs, fieldsRead rec fs p vs p' /\ length vs = length fs /\ g = assigned vals fs vs.
Proof.
  revert vals p. induction fs as [|f fs IH]; intros vals p H.
  { injection H as <- <-. exists []. split; [constructor | done]. }
  cbn [valuesLoop] in H. inv_bind H. apply primHandler_Ok in Hm as [-> Hl].
  inv_bind H. inv_bind H. apply put_Ok in Hm0 as (-> & -> & _).
  apply IH in H as (vs & Hr & Hlen & ->).
  exists (x0 :: vs). split; [econstructor; eauto|]. split; [cbn; lia | done].
Qed.

Lemma values_Ok rec cls c p g p' :
  getClass cls p = Ok c p -> values rec cls p = Ok g p' ->
  exists fs vs,
    ClassDesc.fields c = Some fs /\ fieldsRead rec fs p vs p' /\
    length vs = length fs /\ g = assigned ∅ fs vs.
Proof.
  intros Hg H. unfold values in H. rewrite (bind_Ok_intro _ _ _ _ _ Hg) in H.
  destruct (ClassDesc.fields c) as [fs|]; [|discriminate].
  apply valuesLoop_Ok in H as (vs & ? & ? & ?). eauto 10.
Qed.

(** After [Parser.register(className, uid, parser)], a class whose
    serialVersionUID has the 16 digits that [readHex(8)] produces finds
    [parser] exactly when both its name and its serialVersionUID are the
    registered ones. *)
Lemma register_lookup className uid parser r0 r1 name uid' :
  register className uid parser r0 = Some r1 ->
  length uid' = 16%nat ->
  r1 (name ++ js "@" ++ uid')
  = if decide (name = className /\ uid' = uid) then Some parser
    else r0 (name ++ js "@" ++ uid').
Proof.
  unfold register. destruct (Nat.eqb_spec (length uid) 16) as [Hl|]; [|discriminate].
  intros [= <-] Hl'. destruct (decide (name = className /\ uid' = uid)) as [[-> ->]|Hne].
  - by rewrite decide_True.
  - rewrite decide_False; [done|]. intros Heq. apply Hne.
    apply app_inj_2 in Heq as [? Heq]; [|cbn; lia]. by injection Heq.
Qed.


(** [this["prim" + type]]: the ten readers by type code. *)
Lemma primLookup_table rec type handler :
  primLookup (primMethods rec) type = Some handler <->
  (type, handler) ∈ [(js "B", primB); (js "C", primC); (js "D", primD); (js "F", primF);
                     (js "I", primI); (js "J", primJ); (js "S", primS); (js "Z", primZ);
                     (js "L", rec None); (js "[", rec None)].
Proof.
  split.
  - unfold primMethods. cbn [primLookup].
    repeat (case_decide; [intros [= <-]; subst type; rewrite !elem_of_cons; tauto|]).
    discriminate.
  - intros Hin. repeat (apply elem_of_cons in Hin as [[= -> ->]|Hin]); try reflexivity.
    by apply elem_of_nil in Hin.
Qed.

Lemma primHandler_intro rec type h p :
  primLookup (primMethods rec) type = Some h -> primHandler rec type p = Ok h p.
Proof. intros H. unfold primHandler. by rewrite H. Qed.

(** [values] returns exactly when every declared field, in order, finds
    its reader and the reader returns; it returns the map of the field
    names to the values read. *)
Lemma valuesLoop_iff rec fs vals p g p' :
  valuesLoop rec fs vals p = Ok g p' <->
  exists vs, fieldsRead rec fs p vs p' /\ length vs = length fs /\
             Forall (fun f => FieldDesc.name f <> js "__proto__") fs /\
             g = assigned vals fs vs.
Proof.
  split.
  - revert vals p. induction fs as [|f fs IH]; intros vals p H.
    { injection H as <- <-. exists []. split; [constructor | done]. }
    cbn [valuesLoop] in H. inv_bind H. apply primHandler_Ok in Hm as [-> Hl].
    inv_bind H. inv_bind H. apply put_Ok in Hm0 as (-> & -> & Hk).
    apply IH in H as (vs & Hr & Hlen & Hf & ->).
    exists (x0 :: vs). split; [econstructor; eauto|]. split; [cbn; lia|].
    split; [by constructor | done].
  - intros (vs & Hr & _ & Hf & ->). revert vals.
    induction Hr as [p|f fs h p v p1 vs p2 Hl Hh Hr IH]; intros vals; [done|].
    apply Forall_cons in Hf as [Hk Hf].
    cbn [valuesLoop]. rewrite (bind_Ok_intro _ _ _ _ _ (primHandler_intro _ _ _ _ Hl)).
    rewrite (bind_Ok_intro _ _ _ _ _ Hh).
    unfold bind at 1, put. rewrite decide_False by done. unfold ret at 1.
    by apply IH.
Qed.

Lemma values_iff rec cls c p g p' :
  getClass cls p = Ok c p ->
  values rec cls p = Ok g p' <->
  exists fs vs,
    ClassDesc.fields c = Some fs /\ fieldsRead rec fs p vs p' /\ length vs = length fs /\
    Forall (fun f => FieldDesc.name f <> js "__proto__") fs /\ g = assigned ∅ fs vs.
Proof.
  intros Hg. unfold values. rewrite (bind_Ok_intro _ _ _ _ _ Hg).
  destruct (ClassDesc.fields c) as [fs|].
  - rewrite valuesLoop_iff. split.
    + intros (vs & ?). exists fs, vs. auto.
    + intros (fs' & vs & [= <-] & ?). exists vs. auto.
  - split; [discriminate | by intros (? & ? & [=] & _)].
Qed.

(** C1: [classdata] dispatches on the low nibble of the flags of the class
    descriptor.  0x02: it returns exactly when one value per declared
    field has been read, in field order, each by the reader of the field's
    type, and returns the map of the field names to these values.  0x03:
    the same values are read, then an annotation block (items up to the
    EndBlockData item that ends it), which is stored under "@"; the
    post-processor registered under name@serialVersionUID, if any, is then
    called with the class, the map and the block, and its result replaces
    the map.  0x04: the version-1 external content error.  0x0C: an
    annotation block only is read, from where the class data starts, and
    returned as the sole entry "@"; no field is read.  Anything else: the
    unknown-flags error.  The post-processor found under
    name@serialVersionUID is the one registered for that pair of name and
    serialVersionUID, and the reader of a field is the one of the ten
    readers that its type code names.  (A field named "__proto__" is
    outside the embedding.) *)
Theorem classdata_by_flags registered rec fuel cls c flags p :
  rec_ok rec ->
  getClass cls p = Ok c p ->
  ClassDesc.flags c = Some flags ->
  (Z.land flags 0x0f = 0x02 ->
     forall g p',
       classdata registered rec fuel cls p = Ok g p' <->
       exists fs vs,
         ClassDesc.fields c = Some fs /\ fieldsRead rec fs p vs p' /\
         length vs = length fs /\
         Forall (fun f => FieldDesc.name f <> js "__proto__") fs /\
         g = assigned ∅ fs vs) /\
  (Z.land flags 0x0f = 0x03 ->
     forall g p',
       classdata registered rec fuel cls p = Ok g p' <->
       exists fs vs p1 data p2,
         ClassDesc.fields c = Some fs /\ fieldsRead rec fs p vs p1 /\
         length vs = length fs /\
         Forall (fun f => FieldDesc.name f <> js "__proto__") fs /\
         blockRead rec fuel None p1 data p2 /\
         match registered (ClassDesc.name c ++ js "@" ++ ClassDesc.serialVersionUID c) with
         | Some postproc =>
             postproc cls (<[js "@" := data]> (assigned ∅ fs vs)) data p2 = Ok g p'
         | None => g = <[js "@" := data]> (assigned ∅ fs vs) /\ p' = p2
         end) /\
  (Z.land flags 0x0f = 0x04 ->
     classdata registered rec fuel cls p = Throw ExternalV1) /\
  (Z.land flags 0x0f = 0x0c ->
     forall g p',
       classdata registered rec fuel cls p = Ok g p' <->
       exists data, blockRead rec fuel None p data p' /\ g = {[ js "@" := data ]}) /\
  (Z.land flags 0x0f <> 0x02 -> Z.land flags 0x0f <> 0x03 ->
   Z.land flags 0x0f <> 0x04 -> Z.land flags 0x0f <> 0x0c ->
     classdata registered rec fuel cls p = Throw (UnknownFlags flags)) /\
  (forall className uid parser r0,
     register className uid parser r0 = Some registered ->
     length (ClassDesc.serialVersionUID c) = 16%nat ->
     registered (ClassDesc.name c ++ js "@" ++ ClassDesc.serialVersionUID c)
     = if decide (ClassDesc.name c = className /\ ClassDesc.serialVersionUID c = uid)
       then Some parser
       else r0 (ClassDesc.name c ++ js "@" ++ ClassDesc.serialVersionUID c)) /\
  (forall type handler,
     primLookup (primMethods rec) type = Some handler <->
     (type, handler) ∈ [(js "B", primB); (js "C", primC); (js "D", primD); (js "F", primF);
                        (js "I", primI); (js "J", primJ); (js "S", primS); (js "Z", primZ);
                        (js "L", rec None); (js "[", rec None)]).
Proof.
  intros Hrec Hg Hf. unfold classdata. rewrite (bind_Ok_intro _ _ _ _ _ Hg), Hf.
  split; [|split; [|split; [|split; [|split;
    [|split; [intros className uid parser r0; apply register_lookup
             |apply primLookup_table]]]]]].
  - intros -> g p'. by apply values_iff.
  - intros -> g p'. split.
    + intros H. apply bind_Ok in H as (g0 & p1 & Hv & H).
      apply (values_iff _ _ _ _ _ _ Hg) in Hv as (fs & vs & Hfs & Hr & Hlen & Hk & ->).
      apply bind_Ok in H as (data & p2 & Hb & H).
      apply (annotations_blockRead _ Hrec) in Hb.
      exists fs, vs, p1, data, p2. repeat (split; [done|]).
      destruct (registered _); [done|]. by injection H as <- <-.
    + intros (fs & vs & p1 & data & p2 & Hfs & Hr & Hlen & Hk & Hb & Hpost).
      assert (values rec cls p = Ok (assigned ∅ fs vs) p1) as Hv.
      { apply (values_iff _ _ _ _ _ _ Hg). exists fs, vs. auto. }
      apply (annotations_blockRead _ Hrec) in Hb.
      rewrite (bind_Ok_intro _ _ _ _ _ Hv), (bind_Ok_intro _ _ _ _ _ Hb).
      destruct (registered _); [done|]. by destruct Hpost as [-> ->].
  - by intros ->.
  - intros -> g p'. split.
    + intros H. apply bind_Ok in H as (data & p2 & Hb & H).
      apply (annotations_blockRead _ Hrec) in Hb.
      injection H as <- <-. eauto.
    + intros (data & Hb & ->). apply (annotations_blockRead _ Hrec) in Hb.
      by rewrite (bind_Ok_intro _ _ _ _ _ Hb).
  - intros. by rewrite nibble_other.
Qed.

Lemma keep_block_registered_ok r1 :
  register (js "A") (js "0000000000001234") keep_block nothing_registered = Some r1 ->
  registered_ok r1.
Proof.
  intros [= <-] key f cls res data p g p' Hk Hf.
  destruct (decide _); [|discriminate]. injection Hk as <-.
  injection Hf as _ <-. apply ext_refl.
Qed.

Lemma classdata_by_flags_witness :
  classdata nothing_registered (content utf8_7bit nothing_registered 2) 2 (VRef 0)
    (one_class 0x02)
  = Ok {[ js "foo" := VNumber 123 ]} (set_pos (one_class 0x02) 4) /\
  classdata nothing_registered (content utf8_7bit nothing_registered 2) 2 (VRef 0)
    (class_with_block 0x03)
  = Ok (<[js "@" := VRef 1]> {[ js "foo" := VNumber 123 ]}) (class_with_block_read 0x03) /\
  (exists r1,
     register (js "A") (js "0000000000001234") keep_block nothing_registered = Some r1 /\
     r1 (js "A" ++ js "@" ++ js "0000000000001234") = Some keep_block /\
     classdata r1 (content utf8_7bit r1 2) 2 (VRef 0) (class_with_block 0x03)
     = Ok {[ js "block" := VRef 1 ]} (class_with_block_read 0x03)) /\
  classdata nothing_registered (content utf8_7bit nothing_registered 2) 2 (VRef 0)
    (set_pos (class_with_block 0x0c) 4)
  = Ok {[ js "@" := VRef 1 ]} (class_with_block_read 0x0c) /\
  classdata nothing_registered (content utf8_7bit nothing_registered 2) 2 (VRef 0)
    (one_class 0x04)
  = Throw ExternalV1.
Proof.
  assert (forall registered fl,
            fieldsRead (content utf8_7bit registered 2)
              [FieldDesc.mk (js "I") (js "foo") VUndefined]
              (class_with_block fl) [VNumber 123] (set_pos (class_with_block fl) 4)) as Hfields.
  { intros registered fl.
    apply (fieldsRead_cons _ _ _ primI _ _ (set_pos (class_with_block fl) 4));
      [reflexivity | reflexivity | constructor]. }
  assert (forall registered fl,
            blockRead (content utf8_7bit registered 2) 2 None
              (set_pos (class_with_block fl) 4) (VRef 1) (class_with_block_read fl)) as Hblock.
  { intros registered fl. exists [VBuffer [xaa]].
    exists (mkParser [x00; x00; x00; x7b; x77; x01; xaa; x78] 7 0x7e0001
              (<[0x7e0000 := VRef 0]> ∅) []
              [OClassDesc (ClassDesc.mk (js "A") (js "0000000000001234") (Some fl) (Some false)
                             (Some [FieldDesc.mk (js "I") (js "foo") VUndefined])
                             VUndefined VNull);
               OArray [VBuffer [xaa]]]).
    split; [cbn; lia|]. split; [reflexivity|]. split; [|split; reflexivity].
    apply (itemsRead_cons _ _ _ _ _
             (mkParser [x00; x00; x00; x7b; x77; x01; xaa; x78] 7 0x7e0001
                (<[0x7e0000 := VRef 0]> ∅) []
                [OClassDesc (ClassDesc.mk (js "A") (js "0000000000001234") (Some fl)
                               (Some false)
                               (Some [FieldDesc.mk (js "I") (js "foo") VUndefined])
                               VUndefined VNull);
                 OArray []]));
      [vm_compute; reflexivity | discriminate | apply itemsRead_nil]. }
  split; [|split; [|split; [|split]]].
  - destruct (classdata_by_flags nothing_registered (content utf8_7bit nothing_registered 2) 2
                (VRef 0) _ 0x02 (one_class 0x02)
                (content_ok _ _ _ nothing_registered_ok) eq_refl eq_refl) as (H2 & _).
    apply (proj2 (H2 eq_refl _ _)).
    exists [FieldDesc.mk (js "I") (js "foo") VUndefined], [VNumber 123].
    split; [reflexivity|]. split.
    { apply (fieldsRead_cons _ _ _ primI _ _ (set_pos (one_class 0x02) 4));
        [reflexivity | reflexivity | constructor]. }
    split; [reflexivity|]. split; [|reflexivity].
    constructor; [discriminate | constructor].
  - destruct (classdata_by_flags nothing_registered (content utf8_7bit nothing_registered 2) 2
                (VRef 0) _ 0x03 (class_with_block 0x03)
                (content_ok _ _ _ nothing_registered_ok) eq_refl eq_refl) as (_ & H3 & _).
    apply (proj2 (H3 eq_refl _ _)).
    exists [FieldDesc.mk (js "I") (js "foo") VUndefined], [VNumber 123],
      (set_pos (class_with_block 0x03) 4), (VRef 1), (class_with_block_read 0x03).
    split; [reflexivity|]. split; [apply Hfields|]. split; [reflexivity|].
    split; [constructor; [discriminate | constructor]|].
    split; [apply Hblock|]. split; reflexivity.
  - assert (exists r1, register (js "A") (js "0000000000001234") keep_block
                         nothing_registered = Some r1) as [r1 Hr1]
      by (eexists; reflexivity).
    exists r1. split; [exact Hr1|].
    destruct (classdata_by_flags r1 (content utf8_7bit r1 2) 2 (VRef 0) _ 0x03
                (class_with_block 0x03)
                (content_ok _ _ _ (keep_block_registered_ok r1 Hr1)) eq_refl eq_refl)
      as (_ & H3 & _ & _ & _ & Hreg & _).
    assert (r1 (js "A" ++ js "@" ++ js "0000000000001234") = Some keep_block) as Hk.
    { etrans; [exact (Hreg _ _ _ _ Hr1 eq_refl) | reflexivity]. }
    split; [exact Hk|].
    apply (proj2 (H3 eq_refl _ _)).
    exists [FieldDesc.mk (js "I") (js "foo") VUndefined], [VNumber 123],
      (set_pos (class_with_block 0x03) 4), (VRef 1), (class_with_block_read 0x03).
    split; [reflexivity|]. split; [apply Hfields|]. split; [reflexivity|].
    split; [constructor; [discriminate | constructor]|].
    split; [apply Hblock|].
    cbn [ClassDesc.name ClassDesc.serialVersionUID]. rewrite Hk. reflexivity.
  - destruct (classdata_by_flags nothing_registered (content utf8_7bit nothing_registered 2) 2
                (VRef 0) _ 0x0c (set_pos (class_with_block 0x0c) 4)
                (content_ok _ _ _ nothing_registered_ok) eq_refl eq_refl)
      as (_ & _ & _ & Hc & _).
    apply (proj2 (Hc eq_refl _ _)).
    exists (VRef 1). split; [apply Hblock | reflexivity].
  - destruct (classdata_by_flags nothing_registered (content utf8_7bit nothing_registered 2) 2
                (VRef 0) _ 0x04 (one_class 0x04)
                (content_ok _ _ _ nothing_registered_ok) eq_refl eq_refl)
      as (_ & _ & H4 & _).
    apply (H4 eq_refl).
Defined.

(** * Where the sentinel can appear *)

Lemma magic_moved p u p' : magic p = Ok u p' -> moved p p'.
Proof.
  unfold magic. intros H. inv_bind H. apply readUInt16_moved in Hm.
  destruct (negb _); [discriminate | by injection H as _ <-].
Qed.

Lemma version_moved p u p' : version p = Ok u p' -> moved p p'.
Proof.
  unfold version. intros H. inv_bind H. apply readUInt16_moved in Hm.
  destruct (negb _); [discriminate | by injection H as _ <-].
Qed.

Lemma byteZ_0x78 y : byteZ y = 0x78 -> y = x78.
Proof. destruct y; intros H; vm_compute in H; (reflexivity || discriminate H). Qed.

Lemma readUInt8_byte p b p1 :
  readUInt8 p = Ok b p1 ->
  exists y, buf p !! Z.to_nat (pos p) = Some y /\ b = byteZ y /\ p1 = set_pos p (pos p + 1).
Proof.
  unfold readUInt8. intros H. inv_bind H. apply step_Ok in Hm as (-> & -> & Hle).
  unfold readAt in H. inv_bind H. injection Hm as <- <-.
  destruct (Z.leb_spec 0 (pos p)) as [Hp|]; [|discriminate]. cbn [andb] in H.
  cbn [buf set_pos] in H. unfold slice in H.
  replace (Z.to_nat (pos p + Z.of_nat 1 - pos p)) with 1%nat in H by lia.
  destruct (drop (Z.to_nat (pos p)) (buf p)) as [|y l] eqn:Hd; [discriminate|].
  cbn in H. injection H as <- <-.
  exists y. split; [|split; [|done]].
  - rewrite <- (Nat.add_0_r (Z.to_nat (pos p))), <- lookup_drop, Hd. done.
  - unfold unsignedBE. cbn. by destruct (byteZ y).
Qed.

Ltac upto i H n :=
  lazymatch n with
  | O => idtac
  | S ?n' => destruct i as [|i]; [cbn in H | upto i H n']
  end.

Section Sentinel.

Variable utf8 : list byte -> jsstring.
Variable registered : jsstring -> option ParseFunc.
Variable rec : option (list string) -> M Value.
Hypothesis Hrec : rec_ok rec.
Hypothesis Hreg : registered_ok registered.

(** With no sentinel in the handle table, an item decodes to the sentinel
    exactly when its type code is 0x78. *)
Lemma contentBody_endBlock fuel allowed p v p' :
  noEndBlock p ->
  contentBody utf8 registered rec fuel allowed p = Ok v p' ->
  (v = VEndBlock <-> buf p !! Z.to_nat (pos p) = Some x78).
Proof.
  intros Hn H. unfold contentBody in H.
  inv_bind H. pose proof (readUInt8_moved _ _ _ Hm) as Hmv.
  apply readUInt8_byte in Hm as (y & Hy & -> & _). rewrite Hy.
  destruct (Z.ltb_spec (byteZ y - 112) 0) as [|Hlo]; [discriminate|].
  destruct (Z.ltb_spec (Z.of_nat (length names)) (byteZ y - 112)) as [|Hhi]; [discriminate|].
  cbn [orb] in H. inv_bind H.
  assert (q0 = q) as ->.
  { destruct allowed as [l|]; [|by injection Hm as _ <-].
    destruct (negb _); [discriminate | by injection Hm as _ <-]. }
  clear Hm.
  assert (noEndBlock q) as Hnq by (eapply moved_noEndBlock; eauto).
  cbn in Hhi.
  assert (exists i, (i <= 15)%nat /\ byteZ y = 112 + Z.of_nat i) as (i & Hi & Hb).
  { exists (Z.to_nat (byteZ y - 112)). lia. }
  rewrite Hb in H. replace (Z.to_nat (112 + Z.of_nat i - 112)) with i in H by lia.
  assert (forall h, handler_ok h -> h q = Ok v p' ->
            (v = VEndBlock <-> Some y = Some x78) \/ byteZ y = 120) as Hok.
  { intros h Hh Hq. apply Hh in Hq as [_ Hv]. specialize (Hv Hnq).
    destruct (decide (byteZ y = 120)); [by right | left].
    split; [done | intros [= ->]; done]. }
  assert (forall h, handler_ok h -> h q = Ok v p' -> byteZ y <> 120 ->
            (v = VEndBlock <-> Some y = Some x78)) as Hok'.
  { intros h Hh Hq Hne. by destruct (Hok h Hh Hq). }
  upto i H 16%nat; try lia; try discriminate.
  - eapply Hok'; eauto using parseNull_ok; lia.
  - eapply Hok'; eauto using parseReference_ok; lia.
  - eapply Hok'; eauto using parseClassDesc_ok; lia.
  - eapply Hok'; eauto using parseObject_ok; lia.
  - eapply Hok'; eauto using parseString_ok; lia.
  - eapply Hok'; eauto using parseArray_ok; lia.
  - eapply Hok'; eauto using parseClass_ok; lia.
  - eapply Hok'; eauto using parseBlockData_ok; lia.
  - injection H as <- <-. split; [intros _ | done]. f_equal. apply byteZ_0x78. lia.
  - eapply Hok'; eauto using parseBlockDataLong_ok; lia.
  - eapply Hok'; eauto using parseLongString_ok; lia.
  - eapply Hok'; eauto using parseEnum_ok; lia.
Qed.

(** The item that decodes to the sentinel is the one byte of its type
    code. *)
Lemma contentBody_sentinel fuel allowed p p' :
  noEndBlock p ->
  contentBody utf8 registered rec fuel allowed p = Ok VEndBlock p' ->
  p' = set_pos p (pos p + 1).
Proof.
  intros Hn H. unfold contentBody in H.
  inv_bind H. pose proof (readUInt8_moved _ _ _ Hm) as Hmv.
  apply readUInt8_byte in Hm as (y & Hy & -> & Hq).
  destruct (Z.ltb_spec (byteZ y - 112) 0) as [|Hlo]; [discriminate|].
  destruct (Z.ltb_spec (Z.of_nat (length names)) (byteZ y - 112)) as [|Hhi]; [discriminate|].
  cbn [orb] in H. inv_bind H.
  assert (q0 = q) as ->.
  { destruct allowed as [l|]; [|by injection Hm as _ <-].
    destruct (negb _); [discriminate | by injection Hm as _ <-]. }
  clear Hm.
  assert (noEndBlock q) as Hnq by (eapply moved_noEndBlock; eauto).
  cbn in Hhi.
  assert (exists i, (i <= 15)%nat /\ byteZ y = 112 + Z.of_nat i) as (i & Hi & Hb).
  { exists (Z.to_nat (byteZ y - 112)). lia. }
  rewrite Hb in H. replace (Z.to_nat (112 + Z.of_nat i - 112)) with i in H by lia.
  assert (forall h, h q = Ok VEndBlock p' -> handler_ok h -> p' = set_pos p (pos p + 1))
    as Hok.
  { intros h Hq' Hh. apply Hh in Hq' as [_ Hv]. by specialize (Hv Hnq). }
  upto i H 16%nat; try lia; try discriminate.
  - eapply Hok; [exact H|]. apply parseReference_ok.
  - eapply Hok; [exact H|]. by apply parseClassDesc_ok.
  - eapply Hok; [exact H|]. by apply parseObject_ok.
  - eapply Hok; [exact H|]. apply parseString_ok.
  - eapply Hok; [exact H|]. by apply parseArray_ok.
  - eapply Hok; [exact H|]. by apply parseClass_ok.
  - eapply Hok; [exact H|]. apply parseBlockData_ok.
  - injection H as <-. done.
  - eapply Hok; [exact H|]. apply parseBlockDataLong_ok.
  - eapply Hok; [exact H|]. apply parseLongString_ok.
  - eapply Hok; [exact H|]. by apply parseEnum_ok.
Qed.

End Sentinel.

Lemma content_sentinel utf8 registered fuel allowed p p' :
  registered_ok registered -> noEndBlock p ->
  content utf8 registered fuel allowed p = Ok VEndBlock p' ->
  p' = set_pos p (pos p + 1).
Proof.
  intros Hreg Hn H. destruct fuel as [|fuel]; [discriminate|].
  cbn [content] in H. eapply contentBody_sentinel; eauto using content_ok.
Qed.

Lemma content_endBlock utf8 registered fuel allowed p v p' :
  registered_ok registered -> noEndBlock p ->
  content utf8 registered fuel allowed p = Ok v p' ->
  (v = VEndBlock <-> buf p !! Z.to_nat (pos p) = Some x78).
Proof.
  intros Hreg Hn H. destruct fuel as [|fuel]; [discriminate|].
  cbn [content] in H. eapply contentBody_endBlock; eauto using content_ok.
Qed.

Lemma mainLoop_topLevel utf8 registered fuel p u p' :
  registered_ok registered -> noEndBlock p ->
  mainLoop utf8 registered fuel p = Ok u p' ->
  exists items,
    topLevel utf8 registered p items p' /\
    contents p' = contents p ++ map snd items /\
    buf p' = buf p /\
    Forall (fun it => snd it = VEndBlock <-> buf p !! Z.to_nat (fst it) = Some x78) items.
Proof.
  intros Hreg. revert p. induction fuel as [|fuel IH]; intros p Hn H; [discriminate|].
  cbn [mainLoop] in H. inv_bind H. injection Hm as <- <-.
  destruct (Z.ltb_spec (pos p) (buf_length p)) as [Hlt|Hge].
  - inv_bind H. inv_bind H. injection Hm0 as _ <-.
    pose proof (content_endBlock _ _ _ _ _ _ _ Hreg Hn Hm) as Hv.
    pose proof (content_ok utf8 registered fuel Hreg _ _ _ _ Hm) as [He _].
    apply IH in H as (items & Ht & Hc & Hb & Hf).
    + exists ((pos p, x) :: items). split; [econstructor; eauto|].
      cbn in Hc, Hb. destruct He. split; [|split].
      * rewrite Hc, ext_contents0, <- app_assoc. done.
      * congruence.
      * constructor; [done|]. cbn in Hf. by rewrite ext_buf0 in Hf.
    + intros k. cbn. by apply (ext_noEndBlock _ _ He).
  - injection H as _ <-. exists []. split; [by constructor|].
    split; [by rewrite app_nil_r | split; [done | constructor]].
Qed.

(** C4 (amended): the elements of the top-level sequence are the items
    decoded by the constructor's loop, in order, and such an element is
    the sentinel exactly when the type code of its item is EndBlockData
    (0x78).  An annotation-block reader consumes the sentinel: it reads
    items, none of them the sentinel, pushes each onto its array, and
    stops at the first EndBlockData item, whose one byte (0x78) it reads
    past without pushing anything; the array it returns holds the items
    read before and never the sentinel. *)
Theorem endBlock_only_from_EndBlockData utf8 registered fuel b p :
  registered_ok registered ->
  constructor utf8 registered fuel b = Ok tt p ->
  (exists p0 items,
     (magic ;;; version) (newParser b) = Ok tt p0 /\
     topLevel utf8 registered p0 items p /\
     contents p = map snd items /\
     Forall (fun it => snd it = VEndBlock <-> b !! Z.to_nat (fst it) = Some x78) items) /\
  (forall fuel' allowed q v q',
     noEndBlock q ->
     annotations (content utf8 registered fuel) fuel' allowed q = Ok v q' ->
     exists items q1,
       v = VRef (length (heap q)) /\
       itemsRead (content utf8 registered fuel) allowed (length (heap q))
         (set_heap q (heap q ++ [OArray []])) items q1 /\
       buf q1 !! Z.to_nat (pos q1) = Some x78 /\
       content utf8 registered fuel allowed q1 = Ok VEndBlock q' /\
       q' = set_pos q1 (pos q1 + 1) /\
       heap q' !! length (heap q) = Some (OArray items) /\
       (VEndBlock ∉ items)).
Proof.
  intros Hreg H. split.
  - unfold constructor in H.
    rewrite <- bind_assoc in H.
    inv_bind H. destruct x. exists q.
    assert (moved (newParser b) q) as Hmv.
    { inv_bind Hm. eapply moved_trans; [eapply magic_moved | eapply version_moved]; eauto. }
    apply mainLoop_topLevel in H as (items & Ht & Hc & Hb & Hf); [|done|].
    + exists items. rewrite (moved_buf _ _ Hmv) in Hf.
      rewrite Hmv in Hc. cbn in Hc. done.
    + eapply moved_noEndBlock; eauto. intros k. cbn. by rewrite lookup_empty.
  - intros fuel' allowed q v q' Hn Ha.
    pose proof (content_ok utf8 registered fuel Hreg) as Hrec.
    apply (annotations_blockRead _ Hrec) in Ha as (items & q1 & _ & -> & Hit & Hend & Hfin).
    assert (noEndBlock q1) as Hn1.
    { eapply (itemsRead_noEndBlock _ Hrec); [exact Hit|]. exact Hn. }
    exists items, q1. split; [done|]. split; [done|].
    split; [by apply (content_endBlock _ _ _ _ _ _ _ Hreg Hn1 Hend)|].
    split; [done|]. split; [by apply (content_sentinel _ _ _ _ _ _ Hreg Hn1 Hend)|].
    split; [done|]. by apply (itemsRead_sentinel _ _ _ _ _ _ Hit).
Qed.

Lemma endBlock_only_from_EndBlockData_witness :
  (exists p0 items,
     (magic ;;; version) (newParser [xac; xed; x00; x05; x78]) = Ok tt p0 /\
     topLevel utf8_7bit nothing_registered p0 items
       (mkParser [xac; xed; x00; x05; x78] 5 0x7e0000 ∅ [VEndBlock] []) /\
     contents (mkParser [xac; xed; x00; x05; x78] 5 0x7e0000 ∅ [VEndBlock] [])
       = map snd items /\
     Forall (fun it => snd it = VEndBlock <->
                       [xac; xed; x00; x05; x78] !! Z.to_nat (fst it) = Some x78) items) /\
  (exists items q1,
     VRef 0 = VRef (length (heap (newParser [x77; x01; xaa; x78]))) /\
     itemsRead (content utf8_7bit nothing_registered 3) None
       (length (heap (newParser [x77; x01; xaa; x78])))
       (set_heap (newParser [x77; x01; xaa; x78])
          (heap (newParser [x77; x01; xaa; x78]) ++ [OArray []])) items q1 /\
     buf q1 !! Z.to_nat (pos q1) = Some x78 /\
     content utf8_7bit nothing_registered 3 None q1
     = Ok VEndBlock (mkParser [x77; x01; xaa; x78] 4 0x7e0000 ∅ [] [OArray [VBuffer [xaa]]]) /\
     mkParser [x77; x01; xaa; x78] 4 0x7e0000 ∅ [] [OArray [VBuffer [xaa]]]
     = set_pos q1 (pos q1 + 1) /\
     heap (mkParser [x77; x01; xaa; x78] 4 0x7e0000 ∅ [] [OArray [VBuffer [xaa]]])
       !! length (heap (newParser [x77; x01; xaa; x78]))
     = Some (OArray items) /\
     (VEndBlock ∉ items)).
Proof.
  destruct (endBlock_only_from_EndBlockData utf8_7bit nothing_registered 3
              [xac; xed; x00; x05; x78]
              (mkParser [xac; xed; x00; x05; x78] 5 0x7e0000 ∅ [VEndBlock] [])
              nothing_registered_ok eq_refl) as [Htop Hblock].
  split; [exact Htop|].
  apply (Hblock 2%nat None (newParser [x77; x01; xaa; x78]) (VRef 0)
           (mkParser [x77; x01; xaa; x78] 4 0x7e0000 ∅ [] [OArray [VBuffer [xaa]]])).
  - intros k. cbn. by rewrite lookup_empty.
  - vm_compute. reflexivity.
Defined.

(** * The handle table *)

Lemma newHandle_handleAdded v p : newHandle v p = Ok v (handleAdded v p).
Proof. reflexivity. Qed.

Lemma newDeferredHandle_handleAdded p :
  newDeferredHandle p = Ok (nextHandle p) (handleAdded VNull p).
Proof. reflexivity. Qed.

Lemma dense_next_free p : dense p -> handles p !! nextHandle p = None.
Proof.
  intros [_ Hd]. destruct (handles p !! nextHandle p) eqn:E; [|done].
  assert (is_Some (handles p !! nextHandle p)) as Hs by eauto.
  apply Hd in Hs. lia.
Qed.

Lemma constructor_dense utf8 registered fuel b p :
  registered_ok registered -> constructor utf8 registered fuel b = Ok tt p -> dense p.
Proof.
  intros Hreg H. unfold constructor in H. rewrite <- bind_assoc in H. inv_bind H.
  assert (moved (newParser b) q) as Hmv.
  { inv_bind Hm. eapply moved_trans; [eapply magic_moved | eapply version_moved]; eauto. }
  assert (dense q) as Hd by (rewrite Hmv; apply (dense_newParser b)).
  clear Hm Hmv. revert q Hd H. induction fuel as [|fuel IH]; intros q Hd H; [discriminate|].
  cbn [mainLoop] in H. inv_bind H. injection Hm as <- <-.
  destruct (pos q <? buf_length q); [|by injection H as <-].
  inv_bind H. inv_bind H. injection Hm0 as _ <-.
  apply (content_ok utf8 registered fuel Hreg) in Hm as [He _].
  eapply IH; [|exact H]. by apply (ext_dense _ _ He).
Qed.

Lemma parseClassDesc_published utf8 rec fuel p name p1 uid p2 :
  utf utf8 p = Ok name p1 -> readHex 8 p1 = Ok uid p2 ->
  parseClassDesc utf8 rec fuel p
  = classDescBody utf8 rec fuel (length (heap p2))
      (published (OClassDesc (ClassDesc.mk name uid None None None VUndefined VUndefined)) p2).
Proof.
  intros H1 H2. unfold parseClassDesc.
  rewrite (bind_Ok_intro _ _ _ _ _ H1), (bind_Ok_intro _ _ _ _ _ H2).
  apply published_alloc_newHandle.
Qed.

Lemma parseObject_published registered rec fuel p cls p1 :
  classDesc rec p = Ok cls p1 ->
  parseObject registered rec fuel p
  = objectBody registered rec fuel cls (length (heap p1))
      (published (OObjectDesc (ObjectDesc.mk cls ∅ ∅)) p1).
Proof.
  intros H. unfold parseObject. rewrite (bind_Ok_intro _ _ _ _ _ H).
  apply published_alloc_newHandle.
Qed.

Lemma parseEnum_reserved rec p clazz p1 :
  classDesc rec p = Ok clazz p1 ->
  parseEnum rec p = enumBody rec clazz (nextHandle p1) (handleAdded VNull p1) /\
  forall constant p2,
    rec None (handleAdded VNull p1) = Ok constant p2 ->
    (newString constant p2 = Ok tt p2 ->
     parseEnum rec p
     = Ok (VRef (length (heap p2))) (enumAssigned (nextHandle p1) constant clazz p2)) /\
    (newString constant p2 = Throw TypeError -> parseEnum rec p = Throw TypeError).
Proof.
  intros H. unfold parseEnum. rewrite (bind_Ok_intro _ _ _ _ _ H).
  rewrite (bind_Ok_intro _ _ _ _ _ (newDeferredHandle_handleAdded p1)).
  split; [done|]. intros constant p2 Hc. unfold enumBody.
  rewrite (bind_Ok_intro _ _ _ _ _ Hc).
  split; intros Hs; [by rewrite (bind_Ok_intro _ _ _ _ _ Hs) | unfold bind; by rewrite Hs].
Qed.

Lemma parseString_handleAdded utf8 p s p1 :
  utf utf8 p = Ok s p1 -> parseString utf8 p = Ok (VString s) (handleAdded (VString s) p1).
Proof. intros H. unfold parseString. by rewrite (bind_Ok_intro _ _ _ _ _ H). Qed.

Lemma parseLongString_handleAdded utf8 p s p1 :
  utfLong utf8 p = Ok s p1 ->
  parseLongString utf8 p = Ok (VString s) (handleAdded (VString s) p1).
Proof. intros H. unfold parseLongString. by rewrite (bind_Ok_intro _ _ _ _ _ H). Qed.

Lemma parseClass_handleAdded rec p v p1 :
  classDesc rec p = Ok v p1 -> parseClass rec p = Ok v (handleAdded v p1).
Proof. intros H. unfold parseClass. by rewrite (bind_Ok_intro _ _ _ _ _ H). Qed.

Lemma published_ext o p : ext p (published o p).
Proof.
  split; cbn; auto; try lia.
  - by apply prefix_app_r.
  - intros k Hk. by rewrite lookup_insert_ne by lia.
  - intros Hd. apply (dense_insert_next p (VRef (length (heap p)))) in Hd. exact Hd.
  - intros Hn k. cbn. destruct (decide (k = nextHandle p)) as [->|Hne].
    + by rewrite lookup_insert_eq.
    + rewrite lookup_insert_ne by done. apply Hn.
Qed.

(** The same instance seen from the one in which only the handle slot
    was added: the new cell is the only difference. *)
Lemma handleAdded_published_ext o p :
  ext (handleAdded (VRef (length (heap p))) p) (published o p).
Proof.
  split; cbn; auto; try lia. by apply prefix_app_r.
Qed.

Section ClassPosition.

Variable utf8 : list byte -> jsstring.
Variable registered : jsstring -> option ParseFunc.
Variable rec : option (list string) -> M Value.
Hypothesis Hrec : rec_ok rec.

(** A class descriptor decoded in line is in the handle table when
    [parseClassDesc] returns, at the slot it was given before its flags,
    fields, annotations and super class were read. *)
Lemma parseClassDesc_in_table fuel p v p' :
  parseClassDesc utf8 rec fuel p = Ok v p' ->
  exists k, handles p' !! k = Some v.
Proof.
  intros H. pose proof H as H'. unfold parseClassDesc in H'.
  inv_bind H'. inv_bind H'. clear H'.
  rewrite (parseClassDesc_published _ _ _ _ _ _ _ _ Hm Hm0) in H.
  eapply (classDescBody_ok _ _ Hrec _ _ (handleAdded (VRef (length (heap q0))) q0))
    in H as [He ->]; [| apply handleAdded_published_ext | done].
  exists (nextHandle q0). destruct He as [_ _ _ _ Hh _ _].
  rewrite Hh by (cbn; lia). cbn. by rewrite lookup_insert_eq.
Qed.

(** What stands at a class-descriptor position is [null], [undefined] (a
    reference to a free slot) or a value of the handle table. *)
Lemma classDesc_in_table fuel p v p' :
  classDesc (contentBody utf8 registered rec fuel) p = Ok v p' ->
  v = VNull \/ v = VUndefined \/ exists k, handles p' !! k = Some v.
Proof.
  unfold classDesc, contentBody. intros H.
  inv_bind H. apply readUInt8_byte in Hm as (y & Hy & -> & ->).
  destruct (Z.ltb_spec (byteZ y - 112) 0) as [|Hlo]; [discriminate|].
  destruct (Z.ltb_spec (Z.of_nat (length names)) (byteZ y - 112)) as [|Hhi]; [discriminate|].
  cbn [orb] in H. cbn in Hhi.
  assert (exists i, (i <= 15)%nat /\ byteZ y = 112 + Z.of_nat i) as (i & Hi & Hb).
  { exists (Z.to_nat (byteZ y - 112)). lia. }
  rewrite Hb in H. replace (Z.to_nat (112 + Z.of_nat i - 112)) with i in H by lia.
  upto i H 16%nat; try lia; try discriminate.
  - injection H as <- _. by left.
  - unfold parseReference in H. inv_bind H. inv_bind H. injection Hm0 as <- <-.
    injection H as <- <-. unfold handleAt.
    destruct (handles q !! x) eqn:E; eauto.
  - right. right. eapply parseClassDesc_in_table; eauto.
Qed.

End ClassPosition.

(** C3: the table starts empty with [nextHandle] at 0x7E0000; each
    allocation writes the slot [nextHandle], which was free, and advances
    [nextHandle] by one; decoding an item leaves the table dense and the
    slots that existed unchanged, and so the table is dense when the
    constructor returns.  A class descriptor, an object and an array are in
    their slot when the rest of the item is decoded: [parseClassDesc],
    [parseObject] and [parseArray] continue with their body from the
    instance [published], in which the slot holds the new object and no
    byte has been read since.  An enum constant gets its slot, holding
    [null], before the constant is read, and the slot is assigned when the
    constant has been read and converted by [new String]; when that
    conversion throws, the item fails with the [TypeError] and the slot
    keeps [null].  A string is stored when it has been read, and
    a Class item stores the value of its class-descriptor position, which
    is [null], [undefined] or already in the table. *)
Theorem handles_consecutive_and_early utf8 registered :
  registered_ok registered ->
  (forall b, nextHandle (newParser b) = 0x7e0000 /\ handles (newParser b) = ∅) /\
  (forall v p,
     newHandle v p = Ok v (handleAdded v p) /\
     newDeferredHandle p = Ok (nextHandle p) (handleAdded VNull p) /\
     nextHandle (handleAdded v p) = nextHandle p + 1 /\
     handles (handleAdded v p) = <[nextHandle p := v]> (handles p) /\
     (dense p -> handles p !! nextHandle p = None /\ dense (handleAdded v p))) /\
  (forall fuel allowed p v p',
     content utf8 registered fuel allowed p = Ok v p' ->
     nextHandle p <= nextHandle p' /\
     (forall k, k < nextHandle p -> handles p' !! k = handles p !! k) /\
     (dense p -> dense p')) /\
  (forall fuel b p, constructor utf8 registered fuel b = Ok tt p -> dense p) /\
  (forall o q,
     handles (published o q) !! nextHandle q = Some (VRef (length (heap q))) /\
     heap (published o q) !! length (heap q) = Some o /\
     nextHandle (published o q) = nextHandle q + 1 /\
     pos (published o q) = pos q) /\
  (forall fuel fuel' p name p1 uid p2,
     utf utf8 p = Ok name p1 -> readHex 8 p1 = Ok uid p2 ->
     parseClassDesc utf8 (content utf8 registered fuel) fuel' p
     = classDescBody utf8 (content utf8 registered fuel) fuel' (length (heap p2))
         (published (OClassDesc (ClassDesc.mk name uid None None None VUndefined VUndefined))
                    p2)) /\
  (forall fuel fuel' p cls p1,
     classDesc (content utf8 registered fuel) p = Ok cls p1 ->
     parseObject registered (content utf8 registered fuel) fuel' p
     = objectBody registered (content utf8 registered fuel) fuel' cls (length (heap p1))
         (published (OObjectDesc (ObjectDesc.mk cls ∅ ∅)) p1)) /\
  (forall fuel p cls p1,
     classDesc (content utf8 registered fuel) p = Ok cls p1 ->
     parseArray (content utf8 registered fuel) p
     = arrayBody (content utf8 registered fuel) cls (length (heap p1))
         (published (OArrayDesc (ArrayDesc.mk cls [])) p1)) /\
  (forall fuel p clazz p1,
     classDesc (content utf8 registered fuel) p = Ok clazz p1 ->
     parseEnum (content utf8 registered fuel) p
     = enumBody (content utf8 registered fuel) clazz (nextHandle p1) (handleAdded VNull p1) /\
     forall constant p2,
       content utf8 registered fuel None (handleAdded VNull p1) = Ok constant p2 ->
       (newString constant p2 = Ok tt p2 ->
        parseEnum (content utf8 registered fuel) p
        = Ok (VRef (length (heap p2))) (enumAssigned (nextHandle p1) constant clazz p2)) /\
       (newString constant p2 = Throw TypeError ->
        parseEnum (content utf8 registered fuel) p = Throw TypeError)) /\
  (forall p s p1,
     (utf utf8 p = Ok s p1 ->
      parseString utf8 p = Ok (VString s) (handleAdded (VString s) p1)) /\
     (utfLong utf8 p = Ok s p1 ->
      parseLongString utf8 p = Ok (VString s) (handleAdded (VString s) p1))) /\
  (forall fuel p v p1,
     classDesc (content utf8 registered fuel) p = Ok v p1 ->
     parseClass (content utf8 registered fuel) p = Ok v (handleAdded v p1) /\
     (v = VNull \/ v = VUndefined \/ exists k, handles p1 !! k = Some v)).
Proof.
  intros Hreg.
  split; [done|].
  split. { intros v p. repeat (split; [reflexivity|]). intros Hd.
           split; [by apply dense_next_free | by apply (dense_insert_next p v)]. }
  split. { intros fuel allowed p v p' H.
           apply (content_ok utf8 registered fuel Hreg) in H as [[] _]. auto. }
  split. { intros fuel b p. by apply constructor_dense. }
  split. { intros o q. cbn. rewrite lookup_insert_eq. split; [done|].
           split; [apply published_lookup | done]. }
  split. { intros. by eapply parseClassDesc_published. }
  split. { intros. by apply parseObject_published. }
  split. { intros. by apply parseArray_published. }
  split. { intros. by apply parseEnum_reserved. }
  split. { intros p s p1.
           split; [apply parseString_handleAdded | apply parseLongString_handleAdded]. }
  intros fuel p v p1 H. split; [by apply parseClass_handleAdded|].
  destruct fuel as [|fuel]; [discriminate|]. cbn [content] in H.
  eapply classDesc_in_table; [|exact H]. by apply content_ok.
Qed.

Lemma handles_consecutive_and_early_witness :
  dense (mkParser [xac; xed; x00; x05; x74; x00; x02; x68; x69] 9 0x7e0001
           (<[0x7e0000 := VString [104; 105]]> ∅) [VString [104; 105]] []) /\
  (exists p',
     parseEnum (content utf8_7bit nothing_registered 4) (newParser enum_item)
     = Ok (VRef 2) p' /\
     nextHandle p' = 0x7e0003 /\
     handles p' !! 0x7e0000 = Some (VRef 0) /\
     handles p' !! 0x7e0001 = Some (VRef 2) /\
     handles p' !! 0x7e0002 = Some (VString [65]) /\
     heap p' !! 2%nat = Some (OEnum (EnumDesc.mk (VString [65]) (VRef 0)))) /\
  parseEnum (content utf8_7bit nothing_registered 4) (newParser enum_toString_item)
  = Throw TypeError.
Proof.
  destruct (handles_consecutive_and_early utf8_7bit nothing_registered nothing_registered_ok)
    as (_ & _ & _ & Hd & _ & _ & _ & _ & Henum & _).
  split; [|split].
  - apply (Hd 3%nat [xac; xed; x00; x05; x74; x00; x02; x68; x69]).
    reflexivity.
  - let r := eval vm_compute in
         (classDesc (content utf8_7bit nothing_registered 4) (newParser enum_item)) in
    match r with
    | Ok ?c ?p1 =>
        assert (classDesc (content utf8_7bit nothing_registered 4) (newParser enum_item)
                = Ok c p1) as Hc by (vm_compute; reflexivity);
        let r2 := eval vm_compute in
             (content utf8_7bit nothing_registered 4 None (handleAdded VNull p1)) in
        match r2 with
        | Ok ?k ?p2 =>
            assert (content utf8_7bit nothing_registered 4 None (handleAdded VNull p1)
                    = Ok k p2) as Hk by (vm_compute; reflexivity);
            destruct (Henum 4%nat _ _ _ Hc) as [_ Hcase];
            destruct (Hcase _ _ Hk) as [Hok _]
        end
    end.
    eexists. split; [apply Hok; vm_compute; reflexivity|].
    repeat split; vm_compute; reflexivity.
  - let r := eval vm_compute in
         (classDesc (content utf8_7bit nothing_registered 4) (newParser enum_toString_item)) in
    match r with
    | Ok ?c ?p1 =>
        assert (classDesc (content utf8_7bit nothing_registered 4)
                  (newParser enum_toString_item) = Ok c p1) as Hc by (vm_compute; reflexivity);
        let r2 := eval vm_compute in
             (content utf8_7bit nothing_registered 4 None (handleAdded VNull p1)) in
        match r2 with
        | Ok ?k ?p2 =>
            assert (content utf8_7bit nothing_registered 4 None (handleAdded VNull p1)
                    = Ok k p2) as Hk by (vm_compute; reflexivity);
            destruct (Henum 4%nat _ _ _ Hc) as [_ Hcase];
            destruct (Hcase _ _ Hk) as [_ Hthrow]
        end
    end.
    apply Hthrow. vm_compute. reflexivity.
Defined.

(** * Objects *)

Lemma insertAll_list_to_map l props :
  NoDup (l.*1) -> insertAll l props = list_to_map l ∪ props.
Proof.
  revert props. induction l as [|[k v] l IH]; intros props Hnd.
  { cbn. by rewrite (left_id_L ∅ (∪)). }
  apply NoDup_cons in Hnd as [Hk Hnd]. cbn. rewrite IH by done.
  rewrite <- insert_union_r, <- insert_union_l; [done|].
  by apply not_elem_of_list_to_map_1.
Qed.

Lemma insertAll_map_to_list (g props : gmap (list Z) Value) :
  insertAll (map_to_list g) props = g ∪ props.
Proof.
  rewrite insertAll_list_to_map by apply NoDup_fst_map_to_list.
  by rewrite list_to_map_to_list.
Qed.

Lemma setProp_Ok obj name v p u p' d :
  heap p !! obj = Some (OObjectDesc d) ->
  setProp obj name v p = Ok u p' ->
  p' = set_heap p (<[obj := OObjectDesc (ObjectDesc.mk (ObjectDesc.class d) (ObjectDesc.extends d)
                                           (<[name := v]> (ObjectDesc.props d)))]> (heap p)).
Proof.
  intros Hc H. unfold setProp in H. destruct (_ || _); [discriminate|].
  inv_bind H. apply loadObject_Ok in Hm as [-> Hc']. rewrite Hc in Hc'. injection Hc' as <-.
  inv_bind H. apply put_Ok in Hm as (-> & -> & _). by apply store_Ok in H.
Qed.

Lemma forIn_Ok l obj p u p' d :
  heap p !! obj = Some (OObjectDesc d) ->
  forIn l obj p = Ok u p' ->
  heap p' !! obj = Some (OObjectDesc (ObjectDesc.mk (ObjectDesc.class d) (ObjectDesc.extends d)
                                        (insertAll l (ObjectDesc.props d)))) /\
  length (heap p') = length (heap p) /\
  forall a, a <> obj -> heap p' !! a = heap p !! a.
Proof.
  revert p d. induction l as [|[k v] l IH]; intros p d Hc H.
  { injection H as _ <-. by destruct d. }
  cbn [forIn] in H. inv_bind H. eapply setProp_Ok in Hm; [|exact Hc]. subst q.
  apply (IH _ (ObjectDesc.mk (ObjectDesc.class d) (ObjectDesc.extends d)
                             (<[k := v]> (ObjectDesc.props d)))) in H as (Ho & Hl & Hf).
  - cbn [ObjectDesc.class ObjectDesc.extends ObjectDesc.props] in Ho.
    split; [exact Ho|]. cbn in Hl, Hf. rewrite length_insert in Hl. split; [done|].
    intros a Ha. rewrite Hf by done. by rewrite list_lookup_insert_ne.
  - cbn. apply list_lookup_insert_eq. eapply lookup_lt_Some; eauto.
Qed.

Lemma ancestors_agree h h' cls cs :
  (forall a c, h !! a = Some (OClassDesc c) -> h' !! a = Some (OClassDesc c)) ->
  ancestors h cls cs -> ancestors h' cls cs.
Proof. intros Hh. induction 1; [apply ancestors_root | apply ancestors_super]; auto. Qed.

Lemma withGroups_snoc ext0 cs gs c g :
  length gs = length cs ->
  withGroups ext0 (cs ++ [c]) (gs ++ [g]) = <[ClassDesc.name c := g]> (withGroups ext0 cs gs).
Proof.
  intros Hl. unfold withGroups. rewrite zip_with_app by done.
  by rewrite fold_left_app.
Qed.

Lemma flattened_snoc props gs g : flattened props (gs ++ [g]) = g ∪ flattened props gs.
Proof. unfold flattened. by rewrite fold_left_app. Qed.

Section Objects.

Variable registered : jsstring -> option ParseFunc.
Variable rec : option (list string) -> M Value.
Hypothesis Hrec : rec_ok rec.
Hypothesis Hreg : registered_ok registered.

(** What a successful [recursiveClassData] did to [obj]: one group per
    class of the chain, oldest ancestor first, each entered in [extends]
    under the class name and copied onto the object; no other cell that
    existed has changed. *)
Lemma recursiveClassData_Ok fuel cls obj p u p' d :
  heap p !! obj = Some (OObjectDesc d) ->
  recursiveClassData registered rec fuel cls obj p = Ok u p' ->
  exists cs gs,
    ancestors (heap p) cls cs /\
    Forall2 (groupOf registered rec) cs gs /\
    heap p' !! obj
    = Some (OObjectDesc (ObjectDesc.mk (ObjectDesc.class d)
                           (withGroups (ObjectDesc.extends d) cs gs)
                           (flattened (ObjectDesc.props d) gs))) /\
    (length (heap p) <= length (heap p'))%nat /\
    forall a, (a < length (heap p))%nat -> a <> obj -> heap p' !! a = heap p !! a.
Proof.
  revert cls p u p' d.
  induction fuel as [|fuel IH]; intros cls p u p' d Hc H; [discriminate|].
  cbn [recursiveClassData] in H.
  inv_bind H. apply getClass_Ok in Hm as (-> & a & -> & Ha).
  assert (a <> obj) as Hne by (intros ->; congruence).
  pose proof (lookup_lt_Some _ _ _ Ha) as Halt.
  inv_bind H.
  assert (exists cs1 gs1,
            (forall cs, cs = cs1 ++ [x] -> ancestors (heap p) (VRef a) cs) /\
            Forall2 (groupOf registered rec) cs1 gs1 /\
            heap q !! obj
            = Some (OObjectDesc (ObjectDesc.mk (ObjectDesc.class d)
                                   (withGroups (ObjectDesc.extends d) cs1 gs1)
                                   (flattened (ObjectDesc.props d) gs1))) /\
            (length (heap p) <= length (heap q))%nat /\
            forall b, (b < length (heap p))%nat -> b <> obj -> heap q !! b = heap p !! b)
    as (cs1 & gs1 & Hanc & Hlen1 & Ho1 & Hl1 & Hf1).
  { destruct (truthy (ClassDesc.super x)) eqn:Ht.
    - eapply IH in Hm as (cs1 & gs1 & Hanc & ? & ? & ? & ?); [|exact Hc].
      exists cs1, gs1. split; [|done]. intros cs ->. by apply ancestors_super.
    - injection Hm as _ <-. exists [], []. split; [|split; [constructor | by destruct d]].
      intros cs ->. by apply ancestors_root. }
  clear Hm. pose proof (Forall2_length _ _ _ Hlen1) as Hlen1'.
  inv_bind H. pose proof Hm as Hgc. apply getClass_Ok in Hm as (-> & a' & [= <-] & Ha').
  rewrite Hf1, Ha in Ha' by done. injection Ha' as <-.
  inv_bind H. pose proof Hm as Hcd. apply (classdata_ext registered rec Hrec Hreg) in Hm as He.
  pose proof (ext_lookup _ _ _ _ He Ho1) as Ho2.
  inv_bind H. apply loadObject_Ok in Hm0 as [-> Ho2']. rewrite Ho2 in Ho2'.
  injection Ho2' as <-. cbn [ObjectDesc.class ObjectDesc.extends ObjectDesc.props] in H.
  inv_bind H. apply put_Ok in Hm0 as (-> & -> & _).
  inv_bind H. apply store_Ok in Hm0 as ->.
  eapply forIn_Ok in H as (Ho3 & Hl3 & Hf3);
    [| cbn; apply list_lookup_insert_eq; eapply lookup_lt_Some; eauto].
  cbn [ObjectDesc.class ObjectDesc.extends ObjectDesc.props] in Ho3.
  rewrite insertAll_map_to_list in Ho3.
  cbn in Hl3, Hf3. rewrite length_insert in Hl3.
  pose proof (ext_heap_length _ _ He) as Hl2.
  exists (cs1 ++ [x]), (gs1 ++ [x1]).
  split; [by apply Hanc|].
  split. { apply Forall2_app; [done|]. constructor; [|constructor]. by exists fuel, (VRef a), q, q0. }
  split; [by rewrite withGroups_snoc, flattened_snoc|].
  split; [lia|].
  intros b Hb Hbo. rewrite Hf3 by done. rewrite list_lookup_insert_ne by done.
  rewrite <- Hf1 by done.
  destruct (heap q !! b) as [o|] eqn:E; [by apply (ext_lookup _ _ _ _ He)|].
  apply lookup_ge_None in E. lia.
Qed.

End Objects.

Lemma withGroups_keep e cs gs k :
  (forall c, c ∈ cs -> ClassDesc.name c <> k) -> withGroups e cs gs !! k = e !! k.
Proof.
  unfold withGroups. revert e gs. induction cs as [|c cs IH]; intros e gs Hk; [done|].
  destruct gs as [|g gs]; [done|]. cbn. rewrite IH.
  - apply lookup_insert_ne. apply Hk. by left.
  - intros c' Hc'. apply Hk. by right.
Qed.

Lemma withGroups_last e cs gs i c g :
  cs !! i = Some c -> gs !! i = Some g ->
  (forall j c', (i < j)%nat -> cs !! j = Some c' -> ClassDesc.name c' <> ClassDesc.name c) ->
  withGroups e cs gs !! ClassDesc.name c = Some g.
Proof.
  revert e gs i. induction cs as [|c0 cs IH]; intros e gs i Hc Hg Hlater; [done|].
  destruct gs as [|g0 gs]; [done|]. destruct i as [|i].
  - injection Hc as ->. injection Hg as ->.
    change (withGroups (<[ClassDesc.name c := g]> e) cs gs !! ClassDesc.name c = Some g).
    rewrite withGroups_keep; [by rewrite lookup_insert_eq|].
    intros c' [j Hj]%list_elem_of_lookup. apply (Hlater (S j)); [lia | done].
  - change (withGroups (<[ClassDesc.name c0 := g0]> e) cs gs !! ClassDesc.name c = Some g).
    eapply IH; eauto. intros j c' Hj Hc'. apply (Hlater (S j)); [lia | done].
Qed.

Lemma withGroups_is_Some e cs gs k :
  length gs = length cs ->
  is_Some (e !! k) \/ (exists c, c ∈ cs /\ ClassDesc.name c = k) ->
  is_Some (withGroups e cs gs !! k).
Proof.
  revert e gs. induction cs as [|c0 cs IH]; intros e gs Hl H.
  { destruct H as [H | (c & Hc & _)]; [done | by apply elem_of_nil in Hc]. }
  destruct gs as [|g0 gs]; [discriminate|].
  change (is_Some (withGroups (<[ClassDesc.name c0 := g0]> e) cs gs !! k)).
  apply IH; [by injection Hl|].
  destruct H as [H | (c & [->|Hc]%elem_of_cons & Hn)].
  - left. apply lookup_insert_is_Some. destruct (decide (ClassDesc.name c0 = k)); auto.
  - left. rewrite Hn, lookup_insert_eq. eauto.
  - right. eauto.
Qed.

Lemma flattened_keep props gs n :
  (forall g, g ∈ gs -> g !! n = None) -> flattened props gs !! n = props !! n.
Proof.
  unfold flattened. revert props. induction gs as [|g gs IH]; intros props Hn; [done|].
  cbn. rewrite IH.
  - apply lookup_union_r. apply Hn. by left.
  - intros g' Hg'. apply Hn. by right.
Qed.

Lemma flattened_last props gs i g n x :
  gs !! i = Some g -> g !! n = Some x ->
  (forall j g', (i < j)%nat -> gs !! j = Some g' -> g' !! n = None) ->
  flattened props gs !! n = Some x.
Proof.
  revert props i. induction gs as [|g0 gs IH]; intros props i Hg Hx Hlater; [done|].
  destruct i as [|i].
  - injection Hg as ->. change (flattened (g ∪ props) gs !! n = Some x).
    rewrite flattened_keep; [by apply lookup_union_Some_l|].
    intros g' [j Hj]%list_elem_of_lookup. apply (Hlater (S j)); [lia | done].
  - change (flattened (g0 ∪ props) gs !! n = Some x).
    eapply IH; eauto. intros j g' Hj Hg'. apply (Hlater (S j)); [lia | done].
Qed.

(** C2 (counterexample): the object decoded inside the annotation block
    of its own class "X" is materialized while [X.super] is still
    [undefined]; in the result the ancestor chain of its class is Y, X,
    and its [extends] has no entry for "Y". *)
Lemma extends_misses_late_super :
  exists p d cX cY,
    constructor utf8_7bit nothing_registered 6 object_in_own_class_annotations = Ok tt p /\
    contents p = [VRef 0] /\
    heap p !! 1%nat = Some (OArray [VRef 2]) /\
    heap p !! 2%nat = Some (OObjectDesc d) /\
    ObjectDesc.class d = VRef 0 /\
    ancestors (heap p) (ObjectDesc.class d) [cY; cX] /\
    ClassDesc.name cY = js "Y" /\
    ObjectDesc.extends d !! ClassDesc.name cY = None.
Proof.
  eexists _, _, _, _. split; [vm_compute; reflexivity|].
  split; [reflexivity|]. split; [reflexivity|]. split; [reflexivity|].
  split; [reflexivity|]. split.
  - apply (ancestors_super _ 0%nat _ [_]); [reflexivity | reflexivity |].
    apply (ancestors_root _ 3%nat); reflexivity.
  - split; [reflexivity | vm_compute; reflexivity].
Qed.

(** C2 (amended): when [parseObject] returns an object descriptor, there
    are the class descriptors [cs] of the ancestor chain of its class as
    the heap has it at that moment (oldest first) and one group per
    class, [gs], such that [extends] has an
    entry for the name of every class of the chain, holding the group of
    the most derived class of that name; each group is what [classdata]
    returned for its class; and for every field name [n],
    the flattened view has, for [n], the value of the most derived group
    that contains [n] (in particular the value of the only group that
    contains it), and nothing if no group contains it. *)
Theorem parseObject_extends_and_flattening utf8 registered fuel fuel' p v p' :
  registered_ok registered ->
  parseObject registered (content utf8 registered fuel) fuel' p = Ok v p' ->
  exists res d cs gs,
    v = VRef res /\
    heap p' !! res = Some (OObjectDesc d) /\
    ancestors (heap p') (ObjectDesc.class d) cs /\
    Forall2 (groupOf registered (content utf8 registered fuel)) cs gs /\
    ObjectDesc.extends d = withGroups ∅ cs gs /\
    ObjectDesc.props d = flattened ∅ gs /\
    (forall c, c ∈ cs -> is_Some (ObjectDesc.extends d !! ClassDesc.name c)) /\
    (forall i c g,
       cs !! i = Some c -> gs !! i = Some g ->
       (forall j c', (i < j)%nat -> cs !! j = Some c' ->
                     ClassDesc.name c' <> ClassDesc.name c) ->
       ObjectDesc.extends d !! ClassDesc.name c = Some g) /\
    (forall n i g x,
       gs !! i = Some g -> g !! n = Some x ->
       (forall j g', (i < j)%nat -> gs !! j = Some g' -> g' !! n = None) ->
       ObjectDesc.props d !! n = Some x) /\
    (forall n, (forall g, g ∈ gs -> g !! n = None) -> ObjectDesc.props d !! n = None).
Proof.
  intros Hreg H.
  destruct (classDesc (content utf8 registered fuel) p) as [cls p1| | |] eqn:Hc;
    try (unfold parseObject, bind in H; rewrite Hc in H; discriminate).
  rewrite (parseObject_published _ _ _ _ _ _ Hc) in H.
  unfold objectBody in H. inv_bind H. injection H as <- <-.
  eapply recursiveClassData_Ok in Hm as (cs & gs & Hanc & Hl & Ho & Hlen & Hf);
    [| by apply content_ok | done | apply published_lookup].
  cbn [ObjectDesc.class ObjectDesc.extends ObjectDesc.props] in Ho.
  eexists _, _, cs, gs. split; [done|]. split; [exact Ho|].
  cbn [ObjectDesc.class ObjectDesc.extends ObjectDesc.props].
  split.
  { eapply ancestors_agree; [|exact Hanc]. intros a c Ha.
    pose proof (lookup_lt_Some _ _ _ Ha) as Halt. rewrite Hf; [done | done |].
    intros ->. rewrite published_lookup in Ha. discriminate. }
  split; [done|]. split; [done|]. split; [done|].
  split. { intros c Hin. apply withGroups_is_Some; [symmetry; by eapply Forall2_length | eauto]. }
  split. { intros i c g. apply withGroups_last. }
  split. { intros n i g y. apply flattened_last. }
  intros n Hn. by rewrite flattened_keep.
Qed.

Lemma parseObject_extends_and_flattening_witness :
  exists res d cs gs,
    VRef 4 = VRef res /\
    heap derived_object_parsed !! res = Some (OObjectDesc d) /\
    ancestors (heap derived_object_parsed) (ObjectDesc.class d) cs /\
    Forall2 (groupOf nothing_registered (content utf8_7bit nothing_registered 4)) cs gs /\
    ObjectDesc.extends d = withGroups ∅ cs gs /\
    ObjectDesc.props d = flattened ∅ gs /\
    (forall c, c ∈ cs -> is_Some (ObjectDesc.extends d !! ClassDesc.name c)) /\
    (forall i c g,
       cs !! i = Some c -> gs !! i = Some g ->
       (forall j c', (i < j)%nat -> cs !! j = Some c' ->
                     ClassDesc.name c' <> ClassDesc.name c) ->
       ObjectDesc.extends d !! ClassDesc.name c = Some g) /\
    (forall n i g x,
       gs !! i = Some g -> g !! n = Some x ->
       (forall j g', (i < j)%nat -> gs !! j = Some g' -> g' !! n = None) ->
       ObjectDesc.props d !! n = Some x) /\
    (forall n, (forall g, g ∈ gs -> g !! n = None) -> ObjectDesc.props d !! n = None).
Proof.
  apply (parseObject_extends_and_flattening utf8_7bit nothing_registered 4 4
           (newParser derived_object_item)).
  - apply nothing_registered_ok.
  - vm_compute. reflexivity.
Defined.

(** * Further properties of the decoder *)

(** ** Bytes and big-endian numbers *)

Lemma byteZ_range b : 0 <= byteZ b < 256.
Proof. unfold byteZ. pose proof (Byte.to_N_bounded b). lia. Qed.

Lemma lor_shiftl_8 a b : 0 <= a -> 0 <= b < 256 -> Z.lor (Z.shiftl a 8) b = a * 256 + b.
Proof.
  intros Ha Hb. rewrite Z.shiftl_mul_pow2 by lia. change (2 ^ 8) with 256.
  assert (Z.land (a * 256) b = 0) as Hl.
  { apply Z.bits_inj'. intros n Hn. rewrite Z.land_spec, Z.bits_0.
    destruct (Z.ltb_spec n 8).
    - replace (a * 256) with (a * 2 ^ 8) by reflexivity.
      rewrite Z.mul_pow2_bits_low by lia. reflexivity.
    - destruct (Z.eq_dec b 0) as [->|]; [by rewrite Z.bits_0, andb_false_r|].
      rewrite (Z.bits_above_log2 b n), andb_false_r; [reflexivity | lia |].
      eapply Z.lt_le_trans with (m := 8); [|lia].
      apply Z.log2_lt_pow2; [lia|]. change (2 ^ 8) with 256. lia. }
  by rewrite (Z.add_nocarry_lxor _ _ Hl), (Z.lxor_lor _ _ Hl).
Qed.

Lemma unsignedBE_fold acc l :
  0 <= acc ->
  fold_left (fun a x => Z.lor (Z.shiftl a 8) (byteZ x)) l acc
  = acc * 256 ^ Z.of_nat (length l)
    + fold_left (fun a x => Z.lor (Z.shiftl a 8) (byteZ x)) l 0 /\
  0 <= fold_left (fun a x => Z.lor (Z.shiftl a 8) (byteZ x)) l 0 < 256 ^ Z.of_nat (length l).
Proof.
  revert acc. induction l as [|b l IH]; intros acc Hacc.
  { cbn. lia. }
  cbn [fold_left length]. pose proof (byteZ_range b) as Hb.
  rewrite !lor_shiftl_8 by lia.
  destruct (IH (acc * 256 + byteZ b)) as [E1 R1]; [lia|].
  destruct (IH (0 * 256 + byteZ b)) as [E2 R2]; [lia|].
  rewrite E1, E2. rewrite Nat2Z.inj_succ, Z.pow_succ_r by lia.
  split; [lia|]. nia.
Qed.

Lemma unsignedBE_range l : 0 <= unsignedBE l < 256 ^ Z.of_nat (length l).
Proof. apply (unsignedBE_fold 0 l). lia. Qed.

Lemma unsignedBE_cons b l :
  unsignedBE (b :: l) = byteZ b * 256 ^ Z.of_nat (length l) + unsignedBE l.
Proof.
  unfold unsignedBE. cbn [fold_left]. pose proof (byteZ_range b).
  rewrite lor_shiftl_8 by lia. destruct (unsignedBE_fold (0 * 256 + byteZ b) l) as [-> _]; lia.
Qed.

Lemma slice_app pre m rest :
  slice (pre ++ m ++ rest) (Z.of_nat (length pre))
        (Z.of_nat (length pre) + Z.of_nat (length m)) = m.
Proof.
  unfold slice. rewrite Nat2Z.id.
  replace (Z.to_nat (Z.of_nat (length pre) + Z.of_nat (length m) - Z.of_nat (length pre)))
    with (length m) by lia.
  rewrite drop_app_length. apply take_app_length.
Qed.

Lemma slice_length_le b start stop :
  (length (slice b start stop) <= Z.to_nat (stop - start))%nat.
Proof. unfold slice. rewrite length_take. lia. Qed.

Lemma slice_length b start stop :
  0 <= start -> start <= stop -> stop <= Z.of_nat (length b) ->
  length (slice b start stop) = Z.to_nat (stop - start).
Proof. intros. unfold slice. rewrite length_take, length_drop. lia. Qed.


Lemma step_intro len p :
  pos p + len <= buf_length p -> step len p = Ok (pos p) (set_pos p (pos p + len)).
Proof.
  intros Hle. unfold step, buf_length in *. cbn.
  by destruct (Z.ltb_spec (Z.of_nat (length (buf p))) (pos p + len)); [lia|].
Qed.

Lemma step_premature len p :
  buf_length p < pos p + len -> step len p = Throw (PrematureEnd (pos p + len)).
Proof.
  intros Hlt. unfold step, buf_length in *. cbn.
  by destruct (Z.ltb_spec (Z.of_nat (length (buf p))) (pos p + len)); [|lia].
Qed.

Lemma read_intro n p :
  0 <= pos p -> pos p + Z.of_nat n <= buf_length p ->
  (let* o := step (Z.of_nat n) in readAt n o) p
  = Ok (unsignedBE (slice (buf p) (pos p) (pos p + Z.of_nat n)))
       (set_pos p (pos p + Z.of_nat n)).
Proof.
  intros Hp Hle. rewrite (bind_Ok_intro _ _ _ _ _ (step_intro _ _ Hle)).
  unfold readAt, bind, this. cbn [buf set_pos]. unfold buf_length in Hle.
  destruct (Z.leb_spec 0 (pos p)); [|lia]. cbn [andb].
  rewrite slice_length by lia.
  replace (Z.to_nat (pos p + Z.of_nat n - pos p)) with n by lia.
  by rewrite Nat.eqb_refl.
Qed.

Lemma read_premature n p :
  buf_length p < pos p + Z.of_nat n ->
  (let* o := step (Z.of_nat n) in readAt n o) p = Throw (PrematureEnd (pos p + Z.of_nat n)).
Proof.
  intros Hlt. unfold bind. by rewrite step_premature.
Qed.

Lemma toSigned_range bits u :
  0 < bits -> 0 <= u < 2 ^ bits ->
  - 2 ^ (bits - 1) <= toSigned bits u < 2 ^ (bits - 1) /\
  toSigned bits u mod 2 ^ bits = u.
Proof.
  intros Hb Hu. unfold toSigned.
  assert (2 ^ bits = 2 * 2 ^ (bits - 1)) as E.
  { rewrite <- Z.pow_succ_r by lia. f_equal. lia. }
  destruct (Z.ltb_spec u (2 ^ (bits - 1))).
  - split; [lia|]. apply Z.mod_small. lia.
  - split; [lia|]. symmetry. apply (Z.mod_unique_pos _ _ (-1)); lia.
Qed.

(** ** The stream header *)

Lemma byteZ_inj a b : byteZ a = byteZ b -> a = b.
Proof.
  unfold byteZ. intros H. apply N2Z.inj in H. apply (f_equal Byte.of_N) in H.
  rewrite !Byte.of_to_N in H. by injection H.
Qed.

Lemma readUInt8_intro p :
  0 <= pos p -> pos p + 1 <= buf_length p ->
  readUInt8 p = Ok (unsignedBE (slice (buf p) (pos p) (pos p + 1))) (set_pos p (pos p + 1)).
Proof. intros Hp Hle. exact (read_intro 1 p Hp Hle). Qed.

Lemma readUInt16_intro p :
  0 <= pos p -> pos p + 2 <= buf_length p ->
  readUInt16 p = Ok (unsignedBE (slice (buf p) (pos p) (pos p + 2))) (set_pos p (pos p + 2)).
Proof. intros Hp Hle. exact (read_intro 2 p Hp Hle). Qed.

Lemma readUInt32_intro p :
  0 <= pos p -> pos p + 4 <= buf_length p ->
  readUInt32 p = Ok (unsignedBE (slice (buf p) (pos p) (pos p + 4))) (set_pos p (pos p + 4)).
Proof. intros Hp Hle. exact (read_intro 4 p Hp Hle). Qed.

Lemma readUInt8_premature p :
  buf_length p < pos p + 1 -> readUInt8 p = Throw (PrematureEnd (pos p + 1)).
Proof. intros H. exact (read_premature 1 p H). Qed.

Lemma readUInt16_premature p :
  buf_length p < pos p + 2 -> readUInt16 p = Throw (PrematureEnd (pos p + 2)).
Proof. intros H. exact (read_premature 2 p H). Qed.

Lemma readUInt32_premature p :
  buf_length p < pos p + 4 -> readUInt32 p = Throw (PrematureEnd (pos p + 4)).
Proof. intros H. exact (read_premature 4 p H). Qed.

Lemma slice_at pre m rest p :
  buf p = pre ++ m ++ rest -> pos p = Z.of_nat (length pre) ->
  slice (buf p) (pos p) (pos p + Z.of_nat (length m)) = m /\
  0 <= pos p /\ pos p + Z.of_nat (length m) <= buf_length p.
Proof.
  intros Hb Hp. rewrite Hb, Hp. split; [apply slice_app|].
  unfold buf_length. rewrite Hb, !length_app. lia.
Qed.

Lemma readUInt8_at pre b0 rest p :
  buf p = pre ++ b0 :: rest -> pos p = Z.of_nat (length pre) ->
  readUInt8 p = Ok (byteZ b0) (set_pos p (pos p + 1)).
Proof.
  intros Hb Hp. destruct (slice_at pre [b0] rest p Hb Hp) as (Hs & H0 & Hle).
  rewrite readUInt8_intro by done. change (Z.of_nat (length [b0])) with 1 in Hs.
  rewrite Hs, unsignedBE_cons. cbn. f_equal. lia.
Qed.

Lemma readUInt16_at pre b0 b1 rest p :
  buf p = pre ++ b0 :: b1 :: rest -> pos p = Z.of_nat (length pre) ->
  readUInt16 p = Ok (byteZ b0 * 256 + byteZ b1) (set_pos p (pos p + 2)).
Proof.
  intros Hb Hp. destruct (slice_at pre [b0; b1] rest p Hb Hp) as (Hs & H0 & Hle).
  rewrite readUInt16_intro by done. change (Z.of_nat (length [b0; b1])) with 2 in Hs.
  rewrite Hs, !unsignedBE_cons. cbn. f_equal. lia.
Qed.

Lemma readUInt16_two b0 b1 rest p :
  buf p = b0 :: b1 :: rest -> pos p = 0 ->
  readUInt16 p = Ok (byteZ b0 * 256 + byteZ b1) (set_pos p 2).
Proof.
  intros Hb Hp. rewrite (readUInt16_at [] b0 b1 rest) by done. by rewrite Hp.
Qed.

(** X2: the constructor checks the header before anything else.  A
    buffer of fewer than two bytes ends prematurely at 2; two first bytes
    other than AC ED are "STREAM_MAGIC not found"; after the magic, fewer
    than two more bytes end prematurely at 4, and two bytes other than
    00 05 are "Only understand protocol version 5"; the header alone is
    the empty sequence of items. *)
Theorem constructor_header utf8 registered fuel b :
  ((length b < 2)%nat -> constructor utf8 registered fuel b = Throw (PrematureEnd 2)) /\
  (forall b0 b1 rest,
     b = b0 :: b1 :: rest -> (b0, b1) <> (xac, xed) ->
     constructor utf8 registered fuel b = Throw MagicNotFound) /\
  (forall rest,
     b = xac :: xed :: rest -> (length rest < 2)%nat ->
     constructor utf8 registered fuel b = Throw (PrematureEnd 4)) /\
  (forall v0 v1 rest,
     b = xac :: xed :: v0 :: v1 :: rest -> (v0, v1) <> (x00, x05) ->
     constructor utf8 registered fuel b = Throw BadVersion) /\
  (b = [xac; xed; x00; x05] -> (0 < fuel)%nat ->
     constructor utf8 registered fuel b = Ok tt (mkParser b 4 0x7e0000 ∅ [] [])).
Proof.
  split; [|split; [|split; [|split]]].
  - intros Hl. unfold constructor, bind, magic, bind.
    rewrite readUInt16_premature; [done|]. unfold buf_length. cbn. lia.
  - intros b0 b1 rest -> Hne. unfold constructor, bind, magic, bind.
    rewrite (readUInt16_two b0 b1 rest) by done.
    destruct (Z.eqb_spec (byteZ b0 * 256 + byteZ b1) 44269) as [E|]; [|done].
    exfalso. apply Hne. pose proof (byteZ_range b0). pose proof (byteZ_range b1).
    f_equal; apply byteZ_inj; cbn; lia.
  - intros rest -> Hl. unfold constructor, bind, magic, bind.
    rewrite (readUInt16_two xac xed rest) by done.
    change (byteZ xac * 256 + byteZ xed =? 44269) with true. cbn [negb].
    unfold ret, version, bind.
    rewrite readUInt16_premature; [done|]. unfold buf_length. cbn. lia.
  - intros v0 v1 rest -> Hne. unfold constructor, bind, magic, bind.
    rewrite (readUInt16_two xac xed (v0 :: v1 :: rest)) by done.
    change (byteZ xac * 256 + byteZ xed =? 44269) with true. cbn [negb].
    unfold ret, version, bind.
    rewrite (readUInt16_at [xac; xed] v0 v1 rest) by done.
    destruct (Z.eqb_spec (byteZ v0 * 256 + byteZ v1) 5) as [E|]; [|done].
    exfalso. apply Hne. pose proof (byteZ_range v0). pose proof (byteZ_range v1).
    f_equal; apply byteZ_inj; cbn; lia.
  - intros -> Hf. destruct fuel as [|fuel]; [lia|]. reflexivity.
Qed.

Lemma constructor_header_witness :
  constructor utf8_7bit nothing_registered 1 [xca; xfe; xba; xbe] = Throw MagicNotFound.
Proof.
  apply (constructor_header utf8_7bit nothing_registered 1 [xca; xfe; xba; xbe])
    with (b0 := xca) (b1 := xfe) (rest := [xba; xbe]); [reflexivity | discriminate].
Defined.

(** ** Strings *)

Lemma chunk_at enc pre tail len p :
  buf p = pre ++ tail -> pos p = Z.of_nat (length pre) -> 0 <= len ->
  (len <= Z.of_nat (length tail) ->
   chunk len enc p = Ok (enc (take (Z.to_nat len) tail)) (set_pos p (pos p + len))) /\
  (Z.of_nat (length tail) < len -> chunk len enc p = Throw (PrematureEnd (pos p + len))).
Proof.
  intros Hb Hp Hlen. unfold chunk. split; intros H.
  - rewrite (bind_Ok_intro _ _ _ _ _ (step_intro len p ltac:(unfold buf_length;
      rewrite Hb, length_app; lia))).
    unfold bind, this, ret. cbn [buf pos set_pos]. f_equal. f_equal.
    unfold slice. rewrite Hb, Hp, Nat2Z.id, drop_app_length. f_equal. lia.
  - unfold bind. rewrite step_premature; [done|].
    unfold buf_length. rewrite Hb, length_app. lia.
Qed.

(** X3: [utf] reads a two-byte big-endian length [n] and then [n] bytes.
    When at least [n] bytes follow, the result is the decoding of exactly
    those bytes and the cursor has advanced by [2 + n]; when fewer follow,
    the error is "Premature end of input" at the position the string
    would have ended. *)
Theorem utf_decodes utf8 p pre hi lo tail :
  buf p = pre ++ hi :: lo :: tail -> pos p = Z.of_nat (length pre) ->
  (byteZ hi * 256 + byteZ lo <= Z.of_nat (length tail) ->
   utf utf8 p
   = Ok (utf8 (take (Z.to_nat (byteZ hi * 256 + byteZ lo)) tail))
        (set_pos p (pos p + 2 + (byteZ hi * 256 + byteZ lo)))) /\
  (Z.of_nat (length tail) < byteZ hi * 256 + byteZ lo ->
   utf utf8 p = Throw (PrematureEnd (pos p + 2 + (byteZ hi * 256 + byteZ lo)))).
Proof.
  intros Hb Hp. pose proof (byteZ_range hi). pose proof (byteZ_range lo).
  unfold utf. rewrite (bind_Ok_intro _ _ _ _ _ (readUInt16_at pre hi lo tail p Hb Hp)).
  destruct (chunk_at utf8 (pre ++ [hi; lo]) tail (byteZ hi * 256 + byteZ lo)
              (set_pos p (pos p + 2))) as [Hok Hbad].
  - cbn. by rewrite Hb, <- app_assoc.
  - cbn. rewrite Hp, length_app. cbn. lia.
  - lia.
  - split; intros H1; [rewrite (Hok H1) | rewrite (Hbad H1)]; reflexivity.
Qed.

Lemma utf_decodes_witness :
  utf utf8_7bit (set_pos (newParser [x74; x00; x02; x68; x69; x70]) 1)
  = Ok (js "hi") (set_pos (newParser [x74; x00; x02; x68; x69; x70]) 5).
Proof.
  apply (utf_decodes utf8_7bit (set_pos (newParser [x74; x00; x02; x68; x69; x70]) 1)
           [x74] x00 x02 [x68; x69; x70]); [reflexivity | reflexivity | cbn; lia].
Defined.

Lemma readUInt32_at pre m rest p :
  buf p = pre ++ m ++ rest -> pos p = Z.of_nat (length pre) -> length m = 4%nat ->
  readUInt32 p = Ok (unsignedBE m) (set_pos p (pos p + 4)).
Proof.
  intros Hb Hp Hl. destruct (slice_at pre m rest p Hb Hp) as (Hs & H0 & Hle).
  rewrite Hl in Hs, Hle. change (Z.of_nat 4) with 4 in *.
  rewrite readUInt32_intro by done. by rewrite Hs.
Qed.

Lemma signed_of_unsigned n bits p u p' :
  (let* o := step (Z.of_nat n) in readAt n o) p = Ok u p' ->
  (let* o := step (Z.of_nat n) in let* x := readAt n o in ret (toSigned bits x)) p
  = Ok (toSigned bits u) p'.
Proof.
  unfold bind. destruct (step (Z.of_nat n) p) as [o q| | |]; try discriminate.
  by intros ->.
Qed.

(** X1: the fixed-width readers return the big-endian value of the bytes
    at the cursor.  With the bytes [b0], [b0 b1] or [b0 b1 b2 b3] at the
    cursor, [readUInt8], [readUInt16] and [readUInt32] return [b0],
    [b0*2^8 + b1] and [((b0*2^8 + b1)*2^8 + b2)*2^8 + b3], and [readInt8],
    [readInt16] and [readInt32] return the two's complement reading of the
    same number; the cursor advances by the width and nothing else
    changes.  When fewer bytes are left than the width, each throws
    "Premature end of input" with the position it would have reached. *)
Theorem fixed_width_reads p pre :
  pos p = Z.of_nat (length pre) ->
  (forall b0 rest,
     buf p = pre ++ b0 :: rest ->
     readUInt8 p = Ok (byteZ b0) (set_pos p (pos p + 1)) /\
     readInt8 p = Ok (toSigned 8 (byteZ b0)) (set_pos p (pos p + 1)) /\
     - 2 ^ 7 <= toSigned 8 (byteZ b0) < 2 ^ 7 /\
     toSigned 8 (byteZ b0) mod 2 ^ 8 = byteZ b0) /\
  (forall b0 b1 rest u,
     buf p = pre ++ b0 :: b1 :: rest ->
     u = byteZ b0 * 2 ^ 8 + byteZ b1 ->
     readUInt16 p = Ok u (set_pos p (pos p + 2)) /\
     readInt16 p = Ok (toSigned 16 u) (set_pos p (pos p + 2)) /\
     - 2 ^ 15 <= toSigned 16 u < 2 ^ 15 /\ toSigned 16 u mod 2 ^ 16 = u) /\
  (forall b0 b1 b2 b3 rest u,
     buf p = pre ++ b0 :: b1 :: b2 :: b3 :: rest ->
     u = ((byteZ b0 * 2 ^ 8 + byteZ b1) * 2 ^ 8 + byteZ b2) * 2 ^ 8 + byteZ b3 ->
     readUInt32 p = Ok u (set_pos p (pos p + 4)) /\
     readInt32 p = Ok (toSigned 32 u) (set_pos p (pos p + 4)) /\
     - 2 ^ 31 <= toSigned 32 u < 2 ^ 31 /\ toSigned 32 u mod 2 ^ 32 = u) /\
  (buf_length p < pos p + 1 ->
     readUInt8 p = Throw (PrematureEnd (pos p + 1)) /\
     readInt8 p = Throw (PrematureEnd (pos p + 1))) /\
  (buf_length p < pos p + 2 ->
     readUInt16 p = Throw (PrematureEnd (pos p + 2)) /\
     readInt16 p = Throw (PrematureEnd (pos p + 2))) /\
  (buf_length p < pos p + 4 ->
     readUInt32 p = Throw (PrematureEnd (pos p + 4)) /\
     readInt32 p = Throw (PrematureEnd (pos p + 4))).
Proof.
  intros Hp.
  split; [|split; [|split; [|split; [|split]]]].
  - intros b0 rest Hb. pose proof (byteZ_range b0).
    pose proof (readUInt8_at pre b0 rest p Hb Hp) as Hr.
    split; [done|]. split; [exact (signed_of_unsigned 1 8 p _ _ Hr)|].
    apply (toSigned_range 8); lia.
  - intros b0 b1 rest u Hb ->. pose proof (byteZ_range b0). pose proof (byteZ_range b1).
    pose proof (readUInt16_at pre b0 b1 rest p Hb Hp) as Hr.
    change (2 ^ 8) with 256.
    split; [done|]. split; [exact (signed_of_unsigned 2 16 p _ _ Hr)|].
    apply (toSigned_range 16); lia.
  - intros b0 b1 b2 b3 rest u Hb ->.
    pose proof (byteZ_range b0). pose proof (byteZ_range b1).
    pose proof (byteZ_range b2). pose proof (byteZ_range b3).
    pose proof (readUInt32_at pre [b0; b1; b2; b3] rest p Hb Hp eq_refl) as Hr.
    rewrite !unsignedBE_cons in Hr. cbn [length] in Hr.
    change (unsignedBE []) with 0 in Hr. change (2 ^ 8) with 256.
    replace (byteZ b0 * 256 ^ Z.of_nat 3 +
             (byteZ b1 * 256 ^ Z.of_nat 2 + (byteZ b2 * 256 ^ Z.of_nat 1 +
              (byteZ b3 * 256 ^ Z.of_nat 0 + 0))))
      with (((byteZ b0 * 256 + byteZ b1) * 256 + byteZ b2) * 256 + byteZ b3) in Hr
      by (cbn; lia).
    split; [done|]. split; [exact (signed_of_unsigned 4 32 p _ _ Hr)|].
    apply (toSigned_range 32); lia.
  - intros Hlt. split; [by apply readUInt8_premature|].
    unfold readInt8, bind. by rewrite step_premature.
  - intros Hlt. split; [by apply readUInt16_premature|].
    unfold readInt16, bind. by rewrite step_premature.
  - intros Hlt. split; [by apply readUInt32_premature|].
    unfold readInt32, bind. by rewrite step_premature.
Qed.

Lemma fixed_width_reads_witness :
  (readUInt8 (newParser [xeb]) = Ok 235 (set_pos (newParser [xeb]) 1) /\
   readInt8 (newParser [xeb]) = Ok (-21) (set_pos (newParser [xeb]) 1)) /\
  (readUInt16 (newParser [x01; x02]) = Ok 258 (set_pos (newParser [x01; x02]) 2) /\
   readInt16 (newParser [x01; x02]) = Ok 258 (set_pos (newParser [x01; x02]) 2)) /\
  (readUInt32 (newParser [xff; xff; xff; xfe])
   = Ok 4294967294 (set_pos (newParser [xff; xff; xff; xfe]) 4) /\
   readInt32 (newParser [xff; xff; xff; xfe])
   = Ok (-2) (set_pos (newParser [xff; xff; xff; xfe]) 4)) /\
  readUInt16 (newParser [x01]) = Throw (PrematureEnd 2).
Proof.
  split; [|split; [|split]].
  - destruct (fixed_width_reads (newParser [xeb]) [] eq_refl) as (H8 & _).
    destruct (H8 xeb [] eq_refl) as (Hu & Hs & _). split; [exact Hu | exact Hs].
  - destruct (fixed_width_reads (newParser [x01; x02]) [] eq_refl) as (_ & H16 & _).
    destruct (H16 x01 x02 [] 258 eq_refl eq_refl) as (Hu & Hs & _).
    split; [exact Hu | exact Hs].
  - destruct (fixed_width_reads (newParser [xff; xff; xff; xfe]) [] eq_refl)
      as (_ & _ & H32 & _).
    destruct (H32 xff xff xff xfe [] 4294967294 eq_refl eq_refl) as (Hu & Hs & _).
    split; [exact Hu | exact Hs].
  - destruct (fixed_width_reads (newParser [x01]) [] eq_refl) as (_ & _ & _ & _ & Hp & _).
    apply Hp. unfold buf_length. cbn. lia.
Defined.

(** X4: [utfLong] reads the length as two 32-bit words, big-endian.
    A non-zero first word is "Can't handle more than 2^32 bytes in a
    string", thrown before the second word is read: whatever follows, even
    nothing.  With a zero first word the second is the length [n], or
    "Premature end of input" when it is not complete; the result is the
    decoding of exactly the next [n] bytes, with the cursor advanced by
    [8 + n], or "Premature end of input" when fewer than [n] follow. *)
Theorem utfLong_decodes utf8 p pre high rest :
  buf p = pre ++ high ++ rest -> pos p = Z.of_nat (length pre) ->
  length high = 4%nat ->
  (unsignedBE high <> 0 -> utfLong utf8 p = Throw StringTooLong) /\
  (unsignedBE high = 0 -> (length rest < 4)%nat ->
   utfLong utf8 p = Throw (PrematureEnd (pos p + 8))) /\
  (forall low tail,
     unsignedBE high = 0 -> rest = low ++ tail -> length low = 4%nat ->
     (unsignedBE low <= Z.of_nat (length tail) ->
      utfLong utf8 p
      = Ok (utf8 (take (Z.to_nat (unsignedBE low)) tail))
           (set_pos p (pos p + 8 + unsignedBE low))) /\
     (Z.of_nat (length tail) < unsignedBE low ->
      utfLong utf8 p = Throw (PrematureEnd (pos p + 8 + unsignedBE low)))).
Proof.
  intros Hb Hp Hh. unfold utfLong.
  rewrite (bind_Ok_intro _ _ _ _ _ (readUInt32_at pre high rest p Hb Hp Hh)).
  split; [|split].
  - intros Hne. by destruct (Z.eqb_spec (unsignedBE high) 0).
  - intros -> Hlt. cbn [Z.eqb negb]. unfold bind.
    rewrite readUInt32_premature.
    + cbn. do 2 f_equal. lia.
    + unfold buf_length. cbn. rewrite Hb, Hp, !length_app. lia.
  - intros low tail -> -> Hl.
    assert (readUInt32 (set_pos p (pos p + 4))
            = Ok (unsignedBE low) (set_pos p (pos p + 8))) as Hr.
    { rewrite (readUInt32_at (pre ++ high) low tail); cbn; try done.
      - f_equal. f_equal. lia.
      - by rewrite Hb, <- app_assoc.
      - rewrite Hp, length_app. lia. }
    pose proof (unsignedBE_range low) as Hrange.
    destruct (chunk_at utf8 (pre ++ high ++ low) tail (unsignedBE low)
                (set_pos p (pos p + 8))) as [Hok Hbad].
    { cbn. by rewrite Hb, <- !app_assoc. }
    { cbn. rewrite Hp, !length_app. lia. }
    { lia. }
    cbn [Z.eqb negb]. rewrite (bind_Ok_intro _ _ _ _ _ Hr). split.
    + intros Hle. rewrite (Hok Hle). reflexivity.
    + intros Hlt. rewrite (Hbad Hlt). reflexivity.
Qed.

Lemma utfLong_decodes_witness :
  utfLong utf8_7bit (newParser [x00; x00; x00; x01]) = Throw StringTooLong /\
  utfLong utf8_7bit (newParser [x00; x00; x00; x00; x00; x00; x00; x02; x68; x69; x21])
  = Ok [104; 105]
       (set_pos (newParser [x00; x00; x00; x00; x00; x00; x00; x02; x68; x69; x21]) 10).
Proof.
  split.
  - apply (utfLong_decodes utf8_7bit (newParser [x00; x00; x00; x01])
             [] [x00; x00; x00; x01] [] eq_refl eq_refl eq_refl).
    discriminate.
  - apply (proj2 (proj2 (utfLong_decodes utf8_7bit
                           (newParser [x00; x00; x00; x00; x00; x00; x00; x02; x68; x69; x21])
                           [] [x00; x00; x00; x00] [x00; x00; x00; x02; x68; x69; x21]
                           eq_refl eq_refl eq_refl))
             [x00; x00; x00; x02] [x68; x69; x21] eq_refl eq_refl eq_refl).
    vm_compute. discriminate.
Defined.

(** ** Block data *)

(** X5: [parseBlockData] and [parseBlockDataLong] read a length [n] of
    one, respectively four, bytes and return the next [n] bytes, or all
    the bytes that are left when they are fewer; in both cases the cursor
    is advanced by the width of the length plus [n], and nothing else
    changes. *)
Theorem blockData_slice p pre :
  pos p = Z.of_nat (length pre) ->
  (forall l tail,
     buf p = pre ++ l :: tail ->
     parseBlockData p
     = Ok (VBuffer (take (Z.to_nat (byteZ l)) tail)) (set_pos p (pos p + 1 + byteZ l))) /\
  (forall len tail,
     buf p = pre ++ len ++ tail -> length len = 4%nat ->
     parseBlockDataLong p
     = Ok (VBuffer (take (Z.to_nat (unsignedBE len)) tail))
          (set_pos p (pos p + 4 + unsignedBE len))).
Proof.
  intros Hp. split.
  - intros l tail Hb. unfold parseBlockData.
    rewrite (bind_Ok_intro _ _ _ _ _ (readUInt8_at pre l tail p Hb Hp)).
    cbn [buf pos set_pos]. f_equal. f_equal.
    unfold slice. rewrite Hb, Hp.
    replace (Z.to_nat (Z.of_nat (length pre) + 1)) with (length (pre ++ [l]))
      by (rewrite length_app; cbn; lia).
    rewrite (cons_middle l pre tail), app_assoc, drop_app_length. f_equal. lia.
  - intros len tail Hb Hl. unfold parseBlockDataLong.
    rewrite (bind_Ok_intro _ _ _ _ _ (readUInt32_at pre len tail p Hb Hp Hl)).
    cbn [buf pos set_pos]. f_equal. f_equal.
    unfold slice. rewrite Hb, Hp.
    replace (Z.to_nat (Z.of_nat (length pre) + 4)) with (length (pre ++ len))
      by (rewrite length_app; lia).
    rewrite app_assoc, drop_app_length. f_equal. lia.
Qed.

Lemma blockData_slice_witness :
  parseBlockData (set_pos (newParser [x77; x02; x0a; x0b; x78]) 1)
  = Ok (VBuffer [x0a; x0b]) (set_pos (newParser [x77; x02; x0a; x0b; x78]) 4).
Proof.
  apply (proj1 (blockData_slice (set_pos (newParser [x77; x02; x0a; x0b; x78]) 1) [x77]
                  eq_refl) x02 [x0a; x0b; x78]).
  reflexivity.
Defined.

(** ** Dispatch on the type code *)

Lemma indexOf_false l name : name ∉ l -> indexOf l (Some name) = false.
Proof.
  intros Hn. cbn. apply not_true_is_false. intros He.
  apply existsb_exists in He as (x & Hx & He). apply String.eqb_eq in He as <-.
  apply Hn. by apply list_elem_of_In.
Qed.

Lemma indexOf_true l name : name ∈ l -> indexOf l (Some name) = true.
Proof.
  intros Hn. cbn. apply existsb_exists. exists name.
  split; [by apply list_elem_of_In | apply String.eqb_refl].
Qed.

Lemma content_in_range utf8 registered fuel allowed p pre b tail :
  buf p = pre ++ b :: tail -> pos p = Z.of_nat (length pre) ->
  0x70 <= byteZ b <= 0x7f ->
  content utf8 registered (S fuel) allowed p
  = (let name := names !! Z.to_nat (byteZ b - 0x70) in
     match allowed with
     | Some l => if negb (indexOf l name) then throw (NotAllowed name) else ret tt
     | None => ret tt
     end ;;;
     match name with
     | Some n =>
         match method (parseMethods utf8 registered (content utf8 registered fuel) fuel) n with
         | Some handler => handler
         | None => throw (NoHandler name)
         end
     | None => throw (NoHandler name)
     end) (set_pos p (pos p + 1)).
Proof.
  intros Hb Hp Hr. cbn [content]. unfold contentBody.
  rewrite (bind_Ok_intro _ _ _ _ _ (readUInt8_at pre b tail p Hb Hp)).
  assert ((byteZ b - 112 <? 0) || (Z.of_nat (length names) <? byteZ b - 112) = false) as ->.
  { apply orb_false_iff. rewrite !Z.ltb_ge. cbn. lia. }
  reflexivity.
Qed.

(** X6: what [content] rejects on the type code alone.  A code outside
    0x70..0x7F is an unknown type; a kind that the allow-list does not
    name is "not allowed here", whether or not a handler exists for it; and
    Reset, Exception and ProxyClassDesc, where the allow-list lets them
    through, fail for want of a handler. *)
Theorem content_dispatch_errors utf8 registered fuel allowed p pre b tail :
  buf p = pre ++ b :: tail -> pos p = Z.of_nat (length pre) ->
  (byteZ b < 0x70 \/ 0x7f < byteZ b ->
     content utf8 registered (S fuel) allowed p = Throw (UnknownType (byteZ b))) /\
  (forall l name,
     0x70 <= byteZ b -> names !! Z.to_nat (byteZ b - 0x70) = Some name ->
     allowed = Some l -> name ∉ l ->
     content utf8 registered (S fuel) allowed p = Throw (NotAllowed (Some name))) /\
  (forall name,
     0x70 <= byteZ b -> names !! Z.to_nat (byteZ b - 0x70) = Some name ->
     name ∈ ["Reset"; "Exception"; "ProxyClassDesc"]%string ->
     (forall l, allowed = Some l -> name ∈ l) ->
     content utf8 registered (S fuel) allowed p = Throw (NoHandler (Some name))).
Proof.
  intros Hb Hp.
  assert (forall name, 0x70 <= byteZ b -> names !! Z.to_nat (byteZ b - 0x70) = Some name ->
            0x70 <= byteZ b <= 0x7f) as Hrange.
  { intros name H0 Hn. apply lookup_lt_Some in Hn. cbn in Hn. lia. }
  split; [|split].
  - intros Hr. eapply content_unknown_type; [|done]. by apply (readUInt8_at pre b tail).
  - intros l name H0 Hn -> Hl.
    rewrite (content_in_range _ _ _ _ _ pre b tail) by eauto.
    cbn zeta. rewrite Hn, (indexOf_false _ _ Hl). reflexivity.
  - intros name H0 Hn Hin Hall.
    rewrite (content_in_range _ _ _ _ _ pre b tail) by eauto.
    cbn zeta. rewrite Hn.
    assert (method (parseMethods utf8 registered (content utf8 registered fuel) fuel) name
            = None) as ->.
    { repeat (apply elem_of_cons in Hin as [->|Hin]); try reflexivity.
      by apply elem_of_nil in Hin. }
    destruct allowed as [l|]; [|reflexivity].
    rewrite (indexOf_true l name) by auto. reflexivity.
Qed.

Lemma content_dispatch_errors_witness :
  content utf8_7bit nothing_registered 1 None (newParser [x79])
  = Throw (NoHandler (Some "Reset"%string)).
Proof.
  refine (proj2 (proj2 (content_dispatch_errors utf8_7bit nothing_registered 0 None
                          (newParser [x79]) [] x79 [] eq_refl eq_refl))
            "Reset"%string _ eq_refl _ _).
  - vm_compute. discriminate.
  - apply list_elem_of_here.
  - intros l Hl. discriminate Hl.
Defined.

(** X7: at a class-descriptor position only Null, Reference and ClassDesc
    items can be decoded.  ProxyClassDesc is on the allow-list of
    [classDesc] but has no handler, and every other kind is not allowed
    there. *)
Theorem classDesc_kinds utf8 registered fuel p pre b tail name :
  buf p = pre ++ b :: tail -> pos p = Z.of_nat (length pre) ->
  0x70 <= byteZ b -> names !! Z.to_nat (byteZ b - 0x70) = Some name ->
  (name = "ProxyClassDesc"%string ->
     classDesc (content utf8 registered (S fuel)) p = Throw (NoHandler (Some name))) /\
  (name ∉ ["ClassDesc"; "ProxyClassDesc"; "Null"; "Reference"]%string ->
     classDesc (content utf8 registered (S fuel)) p = Throw (NotAllowed (Some name))) /\
  (forall v p', classDesc (content utf8 registered (S fuel)) p = Ok v p' ->
     name ∈ ["Null"; "Reference"; "ClassDesc"]%string).
Proof.
  intros Hb Hp H0 Hn.
  assert (0x70 <= byteZ b <= 0x7f) as Hr.
  { apply lookup_lt_Some in Hn. cbn in Hn. lia. }
  unfold classDesc. rewrite (content_in_range _ _ _ _ _ pre b tail) by eauto.
  cbn zeta. rewrite Hn.
  split; [|split].
  - intros ->. reflexivity.
  - intros Hl. by rewrite (indexOf_false _ _ Hl).
  - intros v p' H.
    apply names_lookup in Hn as Hin. unfold names in Hin.
    repeat (apply elem_of_cons in Hin as [->|Hin]); try discriminate H;
      try (by apply elem_of_nil in Hin); rewrite !elem_of_cons; auto.
Qed.

Lemma classDesc_kinds_witness :
  classDesc (content utf8_7bit nothing_registered 1) (newParser [x7d])
  = Throw (NoHandler (Some "ProxyClassDesc"%string)).
Proof.
  refine (proj1 (classDesc_kinds utf8_7bit nothing_registered 0 (newParser [x7d]) [] x7d []
                   "ProxyClassDesc"%string eq_refl eq_refl _ eq_refl) eq_refl).
  vm_compute. discriminate.
Defined.

(** ** Primitive values *)







(** ** Hexadecimal strings *)

Lemma hexDigit_range n :
  0 <= n < 16 -> 48 <= hexDigit n <= 57 \/ 97 <= hexDigit n <= 102.
Proof. intros Hn. unfold hexDigit. destruct (Z.ltb_spec n 10); lia. Qed.

Lemma hexDigit_inj n m : 0 <= n < 16 -> 0 <= m < 16 -> hexDigit n = hexDigit m -> n = m.
Proof.
  intros Hn Hm. unfold hexDigit. destruct (Z.ltb_spec n 10), (Z.ltb_spec m 10); lia.
Qed.

Lemma nibbles b :
  0 <= Z.shiftr (byteZ b) 4 < 16 /\ 0 <= Z.land (byteZ b) 15 < 16 /\
  byteZ b = 16 * Z.shiftr (byteZ b) 4 + Z.land (byteZ b) 15.
Proof.
  pose proof (byteZ_range b) as Hb.
  rewrite Z.shiftr_div_pow2 by lia. change 15 with (Z.ones 4).
  rewrite Z.land_ones by lia. change (2 ^ 4) with 16.
  pose proof (Z.div_mod (byteZ b) 16 ltac:(lia)).
  pose proof (Z.mod_pos_bound (byteZ b) 16 ltac:(lia)).
  split; [|split; [done|lia]].
  split; [apply Z.div_pos; lia | apply Z.div_lt_upper_bound; lia].
Qed.

Lemma readHex_at p pre m tail :
  buf p = pre ++ m ++ tail -> pos p = Z.of_nat (length pre) ->
  readHex (Z.of_nat (length m)) p = Ok (hex m) (set_pos p (pos p + Z.of_nat (length m))).
Proof.
  intros Hb Hp.
  destruct (chunk_at hex pre (m ++ tail) (Z.of_nat (length m)) p Hb Hp ltac:(lia))
    as [Hok _].
  unfold readHex. rewrite Hok by (rewrite length_app; lia).
  by rewrite Nat2Z.id, take_app_length.
Qed.

(** X9: [readHex(len)] returns the next [len] bytes in hexadecimal: two
    characters per byte, each one of 0-9 and a-f, and different byte
    sequences give different strings.  So the serialVersionUID that
    [parseClassDesc] reads with [readHex(8)] has 16 characters and
    identifies the eight bytes of the stream. *)
Theorem readHex_digits p pre m tail :
  buf p = pre ++ m ++ tail -> pos p = Z.of_nat (length pre) ->
  readHex (Z.of_nat (length m)) p = Ok (hex m) (set_pos p (pos p + Z.of_nat (length m))) /\
  length (hex m) = (2 * length m)%nat /\
  Forall (fun c => 48 <= c <= 57 \/ 97 <= c <= 102) (hex m) /\
  forall m', hex m = hex m' -> m = m'.
Proof.
  intros Hb Hp. split; [|split; [|split]].
  - by apply (readHex_at p pre m tail).
  - clear. unfold hex. induction m as [|b m IH]; [done|].
    cbn [flat_map app length]. rewrite IH. lia.
  - clear. unfold hex. induction m as [|b m IH]; [constructor|].
    destruct (nibbles b) as (Hh & Hl & _).
    cbn [flat_map app]. apply Forall_cons; split; [by apply hexDigit_range|].
    apply Forall_cons; split; [by apply hexDigit_range | exact IH].
  - clear. unfold hex. induction m as [|b m IH]; intros [|b' m'] H; try discriminate; [done|].
    cbn [flat_map app] in H. injection H as Hh Hl H.
    destruct (nibbles b) as (Rh & Rl & E), (nibbles b') as (Rh' & Rl' & E').
    apply hexDigit_inj in Hh, Hl; try done.
    f_equal; [|by apply IH]. apply byteZ_inj. lia.
Qed.

Lemma readHex_digits_witness :
  readHex 2 (newParser [x0a; xff; x00])
  = Ok [48; 97; 102; 102] (set_pos (newParser [x0a; xff; x00]) 2).
Proof.
  apply (readHex_digits (newParser [x0a; xff; x00]) [] [x0a; xff] [x00] eq_refl eq_refl).
Defined.

(** ** Items without a class *)

Lemma readInt32_intro p :
  0 <= pos p -> pos p + 4 <= buf_length p ->
  exists x, readInt32 p = Ok x (set_pos p (pos p + 4)).
Proof.
  intros Hp Hle. pose proof (readUInt32_intro p Hp Hle) as Hr.
  eexists. unfold readInt32. unfold readUInt32, bind in Hr |- *.
  destruct (step 4 p) as [o q| | |]; try discriminate. by rewrite Hr.
Qed.

(** X10: when the class-descriptor position of an Object or Array item
    holds a Null item, or a Reference that yields [null] or [undefined],
    the item fails with a [TypeError]: [parseObject] on [cls.super], and
    [parseArray], once the length is read, on [classDesc.name].  Both
    have taken a handle by then. *)
Theorem null_class_TypeError registered rec fuel p cls p1 :
  classDesc rec p = Ok cls p1 -> cls = VNull \/ cls = VUndefined ->
  parseObject registered rec (S fuel) p = Throw TypeError /\
  (0 <= pos p1 -> pos p1 + 4 <= buf_length p1 -> parseArray rec p = Throw TypeError) /\
  (buf_length p1 < pos p1 + 4 -> parseArray rec p = Throw (PrematureEnd (pos p1 + 4))).
Proof.
  intros Hc Hcls. split; [|split].
  - unfold parseObject. rewrite (bind_Ok_intro _ _ _ _ _ Hc).
    by destruct Hcls as [-> | ->].
  - intros Hp Hle. unfold parseArray. rewrite (bind_Ok_intro _ _ _ _ _ Hc).
    unfold bind at 1. cbn [alloc]. unfold bind at 1. cbn [newHandle].
    unfold arrayBody.
    match goal with |- bind _ _ ?q = _ =>
      destruct (readInt32_intro q Hp Hle) as [x Hr] end.
    rewrite (bind_Ok_intro _ _ _ _ _ Hr).
    by destruct Hcls as [-> | ->].
  - intros Hlt. unfold parseArray. rewrite (bind_Ok_intro _ _ _ _ _ Hc).
    unfold bind at 1. cbn [alloc]. unfold bind at 1. cbn [newHandle].
    unfold arrayBody, readInt32, bind. by rewrite step_premature.
Qed.

Lemma null_class_TypeError_witness :
  parseObject nothing_registered (content utf8_7bit nothing_registered 1) 1 (newParser [x70])
  = Throw TypeError /\
  parseArray (content utf8_7bit nothing_registered 1) (newParser [x70; x00; x00; x00; x01])
  = Throw TypeError.
Proof.
  split.
  - apply (null_class_TypeError nothing_registered (content utf8_7bit nothing_registered 1) 0
             (newParser [x70]) VNull (set_pos (newParser [x70]) 1) eq_refl).
    by left.
  - destruct (null_class_TypeError nothing_registered (content utf8_7bit nothing_registered 1)
                0 (newParser [x70; x00; x00; x00; x01]) VNull
                (set_pos (newParser [x70; x00; x00; x00; x01]) 1) eq_refl)
      as (_ & Harr & _); [by left|].
    apply Harr; unfold buf_length; cbn; lia.
Defined.

(** ** Cyclic class chains *)

Lemma recursiveClassData_cycle registered rec obj p (P : addr -> Prop) :
  (forall a, P a -> exists c b,
     heap p !! a = Some (OClassDesc c) /\ ClassDesc.super c = VRef b /\ P b) ->
  forall fuel a, P a -> recursiveClassData registered rec fuel (VRef a) obj p = OutOfFuel.
Proof.
  intros Hcyc. induction fuel as [|fuel IH]; intros a Ha; [reflexivity|].
  destruct (Hcyc a Ha) as (c & b & Hc & Hs & Hb).
  cbn [recursiveClassData]. unfold bind at 1.
  cbn [getClass]. unfold loadClass, bind at 1, load. rewrite Hc.
  unfold ret at 1. rewrite Hs. cbn [truthy].
  unfold bind at 1. by rewrite (IH b Hb).
Qed.

(** X11: a chain of [super] links that runs into a cycle, which a stream
    builds with a Reference at the super-class position, is followed by
    [recursiveClassData] without end: an Object item of such a class never
    finishes decoding, whatever the bound on the depth of the recursion
    (in Node the call stack overflows). *)
Theorem parseObject_cyclic_super registered rec p a p1 (P : addr -> Prop) :
  classDesc rec p = Ok (VRef a) p1 ->
  (forall a, P a -> exists c b,
     heap p1 !! a = Some (OClassDesc c) /\ ClassDesc.super c = VRef b /\ P b) ->
  P a ->
  forall fuel, parseObject registered rec fuel p = OutOfFuel.
Proof.
  intros Hc Hcyc Ha fuel. unfold parseObject. rewrite (bind_Ok_intro _ _ _ _ _ Hc).
  unfold bind at 1. cbn [alloc]. unfold bind at 1. cbn [newHandle].
  unfold objectBody, bind.
  rewrite (recursiveClassData_cycle registered rec _ _ P); [done | | done].
  intros a' Ha'. destruct (Hcyc a' Ha') as (c & b & Hl & Hs & Hb).
  exists c, b. split; [|done]. cbn. by apply lookup_app_l_Some.
Qed.

Lemma parseObject_cyclic_super_witness :
  classDesc (content utf8_7bit nothing_registered 3) (newParser self_super_class)
  = Ok (VRef 0) self_super_parsed /\
  parseObject nothing_registered (content utf8_7bit nothing_registered 3) 1000
    (newParser self_super_class) = OutOfFuel.
Proof.
  assert (classDesc (content utf8_7bit nothing_registered 3) (newParser self_super_class)
          = Ok (VRef 0) self_super_parsed) as Hc by (vm_compute; reflexivity).
  split; [exact Hc|].
  apply (parseObject_cyclic_super nothing_registered (content utf8_7bit nothing_registered 3)
           (newParser self_super_class) 0%nat self_super_parsed (fun a => a = 0%nat) Hc).
  - intros a ->. eexists _, 0%nat. split; [reflexivity|]. split; reflexivity.
  - reflexivity.
Defined.

(** ** Read-only properties *)

Lemma forIn_Ok_keys l obj p u p' :
  forIn l obj p = Ok u p' ->
  forall k v, (k, v) ∈ l -> k <> js "class" /\ k <> js "extends".
Proof.
  revert p. induction l as [|[k0 v0] l IH]; intros p H k v Hin.
  { by apply elem_of_nil in Hin. }
  cbn [forIn] in H. inv_bind H.
  apply elem_of_cons in Hin as [[= -> ->]|Hin]; [|by eapply IH].
  unfold setProp in Hm.
  destruct (bool_decide (k0 = js "class")) eqn:E1; [discriminate|].
  destruct (bool_decide (k0 = js "extends")) eqn:E2; [discriminate|].
  by apply bool_decide_eq_false in E1, E2.
Qed.

Lemma assigned_keep_Some vals fs vs k :
  is_Some (vals !! k) -> is_Some (assigned vals fs vs !! k).
Proof.
  unfold assigned. revert vals vs. induction fs as [|f fs IH]; intros vals vs Hk; [done|].
  destruct vs as [|v vs]; [done|]. cbn. apply IH. apply lookup_insert_is_Some.
  destruct (decide (FieldDesc.name f = k)); auto.
Qed.

Lemma assigned_key vals fs vs f :
  length vs = length fs -> f ∈ fs -> is_Some (assigned vals fs vs !! FieldDesc.name f).
Proof.
  revert vals vs. induction fs as [|f0 fs IH]; intros vals vs Hl Hin.
  { by apply elem_of_nil in Hin. }
  destruct vs as [|v vs]; [discriminate|]. injection Hl as Hl.
  apply elem_of_cons in Hin as [->|Hin].
  - change (is_Some (assigned (<[FieldDesc.name f0 := v]> vals) fs vs !! FieldDesc.name f0)).
    apply assigned_keep_Some. rewrite lookup_insert_eq. eauto.
  - change (is_Some (assigned (<[FieldDesc.name f0 := v]> vals) fs vs !! FieldDesc.name f)).
    by apply IH.
Qed.

Lemma recursiveClassData_reserved_field registered rec fuel a obj p c fl fs f d u p' :
  rec_ok rec -> registered_ok registered ->
  heap p !! a = Some (OClassDesc c) ->
  ClassDesc.flags c = Some fl -> Z.land fl 0x0f = 0x02 ->
  ClassDesc.fields c = Some fs -> f ∈ fs ->
  FieldDesc.name f = js "class" \/ FieldDesc.name f = js "extends" ->
  heap p !! obj = Some (OObjectDesc d) ->
  recursiveClassData registered rec fuel (VRef a) obj p = Ok u p' -> False.
Proof.
  intros Hrec Hreg Ha Hfl Hnib Hfs Hin Hname Ho H.
  destruct fuel as [|fuel]; [discriminate|].
  cbn [recursiveClassData] in H.
  inv_bind H. apply getClass_Ok in Hm as (-> & a' & [= <-] & Ha'). rewrite Ha in Ha'.
  injection Ha' as <-.
  assert (a <> obj) as Hne by (intros ->; congruence).
  pose proof (lookup_lt_Some _ _ _ Ha) as Halt.
  inv_bind H.
  assert (heap q !! a = Some (OClassDesc c) /\ exists d1, heap q !! obj = Some (OObjectDesc d1))
    as [Ha1 [d1 Ho1]].
  { destruct (truthy (ClassDesc.super c)).
    - eapply recursiveClassData_Ok in Hm as (cs & gs & _ & _ & Ho1 & _ & Hf); eauto.
      rewrite Hf by done. eauto.
    - injection Hm as _ <-. eauto. }
  clear Hm. inv_bind H. pose proof Hm as Hgc.
  apply getClass_Ok in Hm as (-> & a' & [= <-] & Ha'). rewrite Ha1 in Ha'.
  injection Ha' as <-.
  inv_bind H. pose proof (classdata_ext registered rec Hrec Hreg _ _ _ _ _ Hm) as He.
  unfold classdata in Hm. rewrite (bind_Ok_intro _ _ _ _ _ Hgc), Hfl, Hnib in Hm.
  apply (values_Ok _ _ _ _ _ _ Hgc) in Hm as (fs' & vs & Hfs' & _ & Hlen & ->).
  rewrite Hfs in Hfs'. injection Hfs' as <-.
  inv_bind H. apply loadObject_Ok in Hm as [-> _].
  inv_bind H. apply put_Ok in Hm as (-> & -> & _).
  inv_bind H. apply store_Ok in Hm as ->.
  destruct (assigned_key ∅ fs vs f Hlen Hin) as [v Hv].
  apply elem_of_map_to_list in Hv.
  destruct (forIn_Ok_keys _ _ _ _ _ H _ _ Hv) as [N1 N2].
  by destruct Hname.
Qed.

(** X12: the properties [class] and [extends] of an object descriptor are
    defined read-only, and the field values are copied onto it by plain
    assignment.  So an Object item of a class with flags 0x02 that declares
    a field named "class" or "extends" is never decoded: the item fails
    (with a [TypeError] at the latest when that field is copied). *)
Theorem parseObject_reserved_field registered rec p a p1 c fl fs f :
  rec_ok rec -> registered_ok registered ->
  classDesc rec p = Ok (VRef a) p1 ->
  heap p1 !! a = Some (OClassDesc c) ->
  ClassDesc.flags c = Some fl -> Z.land fl 0x0f = 0x02 ->
  ClassDesc.fields c = Some fs -> f ∈ fs ->
  FieldDesc.name f = js "class" \/ FieldDesc.name f = js "extends" ->
  forall fuel v p', parseObject registered rec fuel p <> Ok v p'.
Proof.
  intros Hrec Hreg Hc Ha Hfl Hnib Hfs Hin Hname fuel v p' H.
  rewrite (parseObject_published _ _ _ _ _ _ Hc) in H.
  unfold objectBody in H. inv_bind H.
  eapply (recursiveClassData_reserved_field registered rec fuel a) in Hm; eauto.
  - cbn. by apply lookup_app_l_Some.
  - apply published_lookup.
Qed.

Lemma parseObject_reserved_field_witness :
  match parseObject nothing_registered (content utf8_7bit nothing_registered 3) 3
          (newParser class_field_item) with
  | Ok _ _ => False
  | _ => True
  end.
Proof.
  destruct (parseObject nothing_registered (content utf8_7bit nothing_registered 3) 3
              (newParser class_field_item)) as [v p'| | |] eqn:E; try exact I.
  revert E.
  apply (parseObject_reserved_field nothing_registered (content utf8_7bit nothing_registered 3)
           (newParser class_field_item) 0%nat class_field_parsed
           (ClassDesc.mk (js "X") (js "0000000000000000") (Some 2) (Some false)
              (Some [FieldDesc.mk (js "I") (js "class") VUndefined]) (VRef 1) VNull)
           2 [FieldDesc.mk (js "I") (js "class") VUndefined]
           (FieldDesc.mk (js "I") (js "class") VUndefined)).
  - apply content_ok, nothing_registered_ok.
  - apply nothing_registered_ok.
  - vm_compute. reflexivity.
  - reflexivity.
  - reflexivity.
  - reflexivity.
  - reflexivity.
  - apply list_elem_of_here.
  - by left.
Defined.

(** ** What a class descriptor holds *)





Section ClassDescResult.

Variable utf8 : list byte -> jsstring.
Variable rec : option (list string) -> M Value.
Hypothesis Hrec : rec_ok rec.




End ClassDescResult.



